(** * terraingen.py: procedural terrain generation

    A shallow embedding of [SimplexNoise] and [TerrainGenerator]
    (src/terraingen.py).  Python floats are IEEE binary64 and are modelled
    by Rocq's primitive floats; Python ints are [Z]; exceptions are an
    error result; the generator object is a record threaded through its
    methods. *)

From Stdlib Require Import ZArith Floats Lia DecimalString DecimalZ.
From stdpp Require Import base option list gmap strings.

Set Warnings "-inexact-float".
Set Default Proof Using "Type".
Open Scope Z_scope.

(** ** Python exceptions *)

Inductive PyErr : Type :=
| ValueError
| ZeroDivisionError
| OverflowError
| IndexError
| KeyError.

Inductive Result (A : Type) : Type :=
| Ok (a : A)
| Raise (e : PyErr).
Arguments Ok {A} a.
Arguments Raise {A} e.

#[global] Instance Result_ret : MRet Result := fun A a => Ok a.
#[global] Instance Result_bind : MBind Result := fun A B f m =>
  match m with
  | Ok a => f a
  | Raise e => Raise e
  end.

Definition is_Ok {A} (r : Result A) : Prop := exists a, r = Ok a.

(** [for x in xs: s = body x s], stopping at the first exception. *)
Fixpoint for_each {A S} (xs : list A) (body : A -> S -> Result S) (s : S) : Result S :=
  match xs with
  | [] => Ok s
  | x :: xs' => s' ← body x s; for_each xs' body s'
  end.

(** [range(a, b)] and [range(n)]. *)
Definition range2 (a b : Z) : list Z := seqZ a (b - a).
Definition range (n : Z) : list Z := range2 0 n.

(** [l[i]] on a Python list: negative indices count from the end, anything
    else out of range raises IndexError. *)
Definition py_getitem {A} (l : list A) (i : Z) : Result A :=
  let j := if i <? 0 then i + Z.of_nat (length l) else i in
  if 0 <=? j then
    match l !! Z.to_nat j with
    | Some a => Ok a
    | None => Raise IndexError
    end
  else Raise IndexError.

(** ** Python float arithmetic *)

(** [float(n)] for an int [n]: the nearest binary64, ties to even.  (Python
    raises OverflowError from 2^1024 on; no int of the program gets near.) *)
Definition float_of_Z (n : Z) : float :=
  SF2Prim (binary_normalize prec emax n 0 false).

(** [int(x)]: truncation toward zero; ValueError on NaN, OverflowError on an
    infinity. *)
Definition py_int (x : float) : Result Z :=
  match Prim2SF x with
  | S754_zero _ => Ok 0
  | S754_finite s m e => Ok (cond_Zopp s (Z.shiftl (Z.pos m) e))
  | S754_infinity _ => Raise OverflowError
  | S754_nan => Raise ValueError
  end.

(** [a / b] raises ZeroDivisionError on a zero divisor. *)
Definition py_div (a b : float) : Result float :=
  if (b =? 0)%float then Raise ZeroDivisionError else Ok (a / b)%float.

(** [max(a, b)] and [min(a, b)] keep the first argument unless the second
    one is strictly better. *)
Definition py_max (a b : float) : float := if (a <? b)%float then b else a.
Definition py_min (a b : float) : float := if (b <? a)%float then b else a.

(** ** The interpreter's services the program calls

    [random.Random] (a Mersenne Twister in CPython) and two float routines
    of the C library are not part of the repository: they are taken as an
    interface. *)

Class PyRuntime : Type := {
  (** state of a [random.Random] object *)
  rng_state : Type;
  (** [random.Random(seed)] *)
  Random : Z -> rng_state;
  (** [r.shuffle(l)], on a list of ints *)
  rng_shuffle : rng_state -> list Z -> list Z * rng_state;
  (** [r.randint(a, b)] *)
  rng_randint : rng_state -> Z -> Z -> Z * rng_state;
  (** [r.random()] *)
  rng_random : rng_state -> float * rng_state;
  (** [r.sample(population, k)] for [0 <= k <= n = len(population)], as the
      positions it selects *)
  rng_sample : rng_state -> nat -> nat -> list nat * rng_state;
  (** [x ** 0.5] *)
  pow_half : float -> float;
  (** [round(x, 3)] *)
  round3 : float -> float
}.

(** What the proofs use of [random.Random]. *)
Class PyRuntimeLaws (R : PyRuntime) : Prop := {
  rng_shuffle_perm : forall s l, (rng_shuffle s l).1 ≡ₚ l;
  rng_sample_length : forall s n k, (k <= n)%nat -> length (rng_sample s n k).1 = k;
  rng_sample_lt : forall s n k, (k <= n)%nat -> Forall (fun i => (i < n)%nat) (rng_sample s n k).1;
  rng_sample_NoDup : forall s n k, (k <= n)%nat -> NoDup (rng_sample s n k).1
}.

(** ** SimplexNoise *)

Module SimplexNoise.
Record t : Type := mk { seed : Z; perm : list Z }.
End SimplexNoise.

Section Noise.
Context `{RT : PyRuntime}.

(** [SimplexNoise.__init__] *)
Definition SimplexNoise_init (seed : Z) : SimplexNoise.t :=
  let perm := (rng_shuffle (Random seed) (range 256)).1 in
  SimplexNoise.mk seed (perm ++ perm).

End Noise.

Definition _fade (t : float) : float :=
  (t * t * t * (t * (t * 6 - 15) + 10))%float.

Definition _lerp (a b t : float) : float :=
  (a + t * (b - a))%float.

Definition _grad (hash_val : Z) (x y : float) : float :=
  let h := Z.land hash_val 3 in
  let u := if h <? 2 then x else y in
  let v := if h <? 2 then y else x in
  let su := if Z.land h 1 =? 0 then u else (- u)%float in
  let sv := if Z.land h 2 =? 0 then v else (- v)%float in
  (su + sv)%float.

Definition noise2d (self : SimplexNoise.t) (x y : float) : Result float :=
  ix ← py_int x;
  iy ← py_int y;
  let xi := Z.land ix 255 in
  let yi := Z.land iy 255 in
  let xf := (x - float_of_Z ix)%float in
  let yf := (y - float_of_Z iy)%float in
  let u := _fade xf in
  let v := _fade yf in
  let perm := SimplexNoise.perm self in
  pxi ← py_getitem perm xi;
  aa ← py_getitem perm (pxi + yi);
  pxi ← py_getitem perm xi;
  ab ← py_getitem perm (pxi + yi + 1);
  pxi1 ← py_getitem perm (xi + 1);
  ba ← py_getitem perm (pxi1 + yi);
  pxi1 ← py_getitem perm (xi + 1);
  bb ← py_getitem perm (pxi1 + yi + 1);
  let x1 := _lerp (_grad aa xf yf) (_grad ba (xf - 1) yf) u in
  let x2 := _lerp (_grad ab xf (yf - 1)) (_grad bb (xf - 1) (yf - 1)) u in
  Ok (_lerp x1 x2 v).

(** ** Tiles, rivers and the generator object *)

Abbreviation coord := (Z * Z)%type.

Module Tile.
Record t : Type := mk {
  x : Z;
  y : Z;
  elevation : float;
  moisture : float;
  biome : string;
  water : bool;
  river : bool;
  river_size : Z;
  terrain_feature : option string
}.

Definition set_river (b : bool) (tl : t) : t :=
  mk (x tl) (y tl) (elevation tl) (moisture tl) (biome tl) (water tl) b
     (river_size tl) (terrain_feature tl).
Definition set_moisture (m : float) (tl : t) : t :=
  mk (x tl) (y tl) (elevation tl) m (biome tl) (water tl) (river tl)
     (river_size tl) (terrain_feature tl).
Definition set_biome (b : string) (tl : t) : t :=
  mk (x tl) (y tl) (elevation tl) (moisture tl) b (water tl) (river tl)
     (river_size tl) (terrain_feature tl).
End Tile.

Module River.
Record t : Type := mk {
  id : string;
  source : coord;
  mouth : coord;
  path : list coord;
  length : Z
}.
End River.

(** [self.tiles]: rows indexed by y, then tiles indexed by x. *)
Abbreviation grid := (list (list Tile.t)).

Module TerrainGenerator.
Record t `{RT : PyRuntime} : Type := mk {
  width : Z;
  height : Z;
  seed : Z;
  mode : string;
  octaves : Z;
  persistence : float;
  lacunarity : float;
  scale : float;
  river_count : Z;
  prevailing_wind : string;
  rng : rng_state;
  noise : SimplexNoise.t;
  tiles : grid;
  rivers : list River.t
}.

Definition set_rng `{RT : PyRuntime} (r : rng_state) (g : t) : t :=
  mk _ (width g) (height g) (seed g) (mode g) (octaves g) (persistence g)
     (lacunarity g) (scale g) (river_count g) (prevailing_wind g) r (noise g)
     (tiles g) (rivers g).
Definition set_tiles `{RT : PyRuntime} (ts : grid) (g : t) : t :=
  mk _ (width g) (height g) (seed g) (mode g) (octaves g) (persistence g)
     (lacunarity g) (scale g) (river_count g) (prevailing_wind g) (rng g) (noise g)
     ts (rivers g).
Definition set_rivers `{RT : PyRuntime} (rs : list River.t) (g : t) : t :=
  mk _ (width g) (height g) (seed g) (mode g) (octaves g) (persistence g)
     (lacunarity g) (scale g) (river_count g) (prevailing_wind g) (rng g) (noise g)
     (tiles g) rs.
End TerrainGenerator.

(** [tiles[y][x]] *)
Definition tile_at (ts : grid) (x y : Z) : Result Tile.t :=
  row ← py_getitem ts y; py_getitem row x.

(** Position of [l[i]] in [l], for an index Python accepts. *)
Definition py_index (n : nat) (i : Z) : Result nat :=
  let j := if i <? 0 then i + Z.of_nat n else i in
  if (0 <=? j) && (j <? Z.of_nat n) then Ok (Z.to_nat j) else Raise IndexError.

(** [tiles[y][x].field = v]: the tile object at that place is mutated. *)
Definition update_tile (ts : grid) (x y : Z) (f : Tile.t -> Tile.t) : Result grid :=
  j ← py_index (length ts) y;
  row ← py_getitem ts y;
  i ← py_index (length row) x;
  tl ← py_getitem row x;
  Ok (<[j := <[i := f tl]> row]> ts).

(** A loop that threads a state and collects one value per element. *)
Fixpoint map_st {A B S} (f : A -> S -> Result (B * S)) (xs : list A) (s : S)
  : Result (list B * S) :=
  match xs with
  | [] => Ok ([], s)
  | x :: xs' =>
      '(b, s1) ← f x s;
      '(bs, s2) ← map_st f xs' s1;
      Ok (b :: bs, s2)
  end.

Section Generator.
Context `{RT : PyRuntime}.
Import TerrainGenerator.
#[local] Abbreviation Gen := TerrainGenerator.t.

(** *** Construction *)

Definition TerrainGenerator_init
    (width height seed : Z) (mode : string) (octaves : Z)
    (persistence lacunarity scale : float) (river_count : Z)
    (prevailing_wind : string) : Result Gen :=
  if (width <? 50) || (height <? 50) then Raise ValueError
  else Ok (TerrainGenerator.mk _ width height seed mode octaves persistence
             lacunarity scale river_count prevailing_wind
             (Random seed) (SimplexNoise_init seed) [] []).

(** *** Elevation *)

Definition _apply_mode_shaping (self : Gen) (x y : Z) (elevation : float)
  : Result (float * Gen) :=
  if String.eqb (mode self) "continent" then
    let center_x := (float_of_Z (width self) / 2)%float in
    let center_y := (float_of_Z (height self) / 2)%float in
    dx ← py_div (float_of_Z x - center_x) (float_of_Z (width self) * 0.8);
    dy ← py_div (float_of_Z y - center_y) (float_of_Z (height self) * 0.8);
    let distance := pow_half (dx * dx + dy * dy) in
    let falloff := py_max 0 (1 - distance * distance * 0.8) in
    Ok ((elevation * 0.3 + (elevation * falloff) * 0.7)%float, self)
  else if String.eqb (mode self) "archipelago" then
    let '(r, rng1) := rng_randint (rng self) 0 3 in
    let island_count := 5 + r in
    '(max_influence, rng2) ←
      for_each (range island_count) (fun _ '(max_influence, rng0) =>
        let '(rx, rng0) := rng_random rng0 in
        let island_x := (rx * float_of_Z (width self))%float in
        let '(ry, rng0) := rng_random rng0 in
        let island_y := (ry * float_of_Z (height self))%float in
        dx ← py_div (float_of_Z x - island_x) (float_of_Z (width self));
        dy ← py_div (float_of_Z y - island_y) (float_of_Z (height self));
        let distance := pow_half (dx * dx + dy * dy) in
        let influence := py_max 0 (1 - distance * 3) in
        Ok (py_max max_influence influence, rng0)) (0%float, rng1);
    Ok ((elevation * max_influence)%float, set_rng rng2 self)
  else if String.eqb (mode self) "highlands" then
    let base := 0.5%float in
    Ok ((base + elevation * 0.5)%float, self)
  else Ok (elevation, self).

(** The body of the octave loop, on (elevation, amplitude, frequency,
    max_value). *)
Definition octave_step (self : Gen) (x y : Z)
    (st : float * float * float * float) : Result (float * float * float * float) :=
  let '(elevation, amplitude, frequency, max_value) := st in
  sx ← py_div (float_of_Z x) (scale self);
  let sample_x := (sx * frequency)%float in
  sy ← py_div (float_of_Z y) (scale self);
  let sample_y := (sy * frequency)%float in
  noise_val ← noise2d (noise self) sample_x sample_y;
  Ok ((elevation + noise_val * amplitude)%float,
      (amplitude * persistence self)%float,
      (frequency * lacunarity self)%float,
      (max_value + amplitude)%float).

(** The blended elevation of tile (x, y), before mode shaping. *)
Definition blended_elevation (self : Gen) (x y : Z) : Result float :=
  '(elevation, _, _, max_value) ←
    for_each (range (octaves self)) (fun _ st => octave_step self x y st)
             (0%float, 1%float, 1%float, 0%float);
  q ← py_div elevation max_value;
  let elevation := ((q + 1) / 2)%float in
  n1 ← noise2d (noise self) (float_of_Z x * 0.03) (float_of_Z y * 0.03);
  let warp_x := (float_of_Z x + n1 * 10)%float in
  n2 ← noise2d (noise self) (float_of_Z x * 0.03 + 100) (float_of_Z y * 0.03 + 100);
  let warp_y := (float_of_Z y + n2 * 10)%float in
  warp_sample_x ← py_div warp_x (scale self);
  warp_sample_y ← py_div warp_y (scale self);
  warp_noise ← noise2d (noise self) warp_sample_x warp_sample_y;
  Ok (elevation * 0.6 + ((warp_noise + 1) / 2) * 0.4)%float.

(** The body of the two loops of [_generate_elevation]: the placeholder
    tile of (x, y). *)
Definition elevation_tile (self : Gen) (y x : Z) : Result (Tile.t * Gen) :=
  elevation ← blended_elevation self x y;
  '(elevation, self) ← _apply_mode_shaping self x y elevation;
  let elevation :=
    if negb (String.eqb (mode self) "none") then (elevation * 1.5)%float
    else elevation in
  let elevation := py_max 0 (py_min 1 elevation) in
  Ok (Tile.mk x y elevation 0 "" (elevation <? 0.4)%float false 0 None, self).

Definition _generate_elevation (self : Gen) : Result Gen :=
  '(rows, s) ←
    map_st (fun y s => map_st (fun x s => elevation_tile s y x)
                              (range (width self)) s)
           (range (height self)) self;
  Ok (set_tiles rows s).

(** *** Rivers *)

(** The bounds test of [_get_neighbors] (also used by the climate
    scans). *)
Definition in_bounds (self : Gen) (c : coord) : bool :=
  (0 <=? c.1) && (c.1 <? width self) && (0 <=? c.2) && (c.2 <? height self).

Definition directions : list coord := [(0, 1); (1, 0); (0, -1); (-1, 0)].

Definition _get_neighbors (self : Gen) (x y : Z) : list coord :=
  List.filter (in_bounds self) (map (fun d : coord => (x + d.1, y + d.2)) directions).

(** The body of the loop over the neighbours, on (lowest,
    lowest_elevation). *)
Definition lowest_step (self : Gen) (visited : gset coord) (n : coord)
    (st : option coord * float) : Result (option coord * float) :=
  if decide (n ∈ visited) then Ok st
  else
    neighbor_tile ← tile_at (tiles self) n.1 n.2;
    if (Tile.elevation neighbor_tile <? st.2)%float
    then Ok (Some n, Tile.elevation neighbor_tile)
    else Ok st.

(** The local variables of [_trace_river_path]. *)
Record trace_state : Type := mk_trace {
  tr_path : list coord;
  tr_current : coord;
  tr_visited : gset coord;
  tr_iterations : Z
}.

(** One turn of the while loop: [inl] when it breaks, [inr] when it goes
    round again. *)
Definition trace_body (self : Gen) (st : trace_state)
  : Result (trace_state + trace_state) :=
  let st := mk_trace (tr_path st) (tr_current st) (tr_visited st) (tr_iterations st + 1) in
  current_tile ← tile_at (tiles self) (tr_current st).1 (tr_current st).2;
  if Tile.water current_tile then Ok (inl st)
  else
    let neighbors := _get_neighbors self (tr_current st).1 (tr_current st).2 in
    '(lowest, _) ← for_each neighbors (lowest_step self (tr_visited st))
                             (None, Tile.elevation current_tile);
    match lowest with
    | None => Ok (inl st)
    | Some lowest =>
        Ok (inr (mk_trace (tr_path st ++ [lowest]) lowest
                          ({[lowest]} ∪ tr_visited st) (tr_iterations st)))
    end.

(** [while iterations < max_iterations]; [fuel] bounds the turns. *)
Fixpoint trace_loop (fuel : nat) (self : Gen) (max_iterations : Z)
    (st : trace_state) : Result trace_state :=
  match fuel with
  | O => Ok st
  | S fuel' =>
      if tr_iterations st <? max_iterations then
        r ← trace_body self st;
        match r with
        | inl st' => Ok st'
        | inr st' => trace_loop fuel' self max_iterations st'
        end
      else Ok st
  end.

Definition trace_start (start_x start_y : Z) : trace_state :=
  mk_trace [(start_x, start_y)] (start_x, start_y) {[(start_x, start_y)]} 0.

Definition _trace_river_path (self : Gen) (start_x start_y : Z) : Result (list coord) :=
  let max_iterations := width self * height self in
  st ← trace_loop (Z.to_nat max_iterations) self max_iterations
                  (trace_start start_x start_y);
  Ok (tr_path st).

(** The source scan of [_generate_rivers]. *)
Definition is_source (tl : Tile.t) : bool :=
  (0.7 <? Tile.elevation tl)%float && negb (Tile.water tl).

Definition river_sources (self : Gen) : Result (list coord) :=
  for_each (range (height self)) (fun y sources =>
    for_each (range (width self)) (fun x sources =>
      tile ← tile_at (tiles self) x y;
      if is_source tile then Ok (sources ++ [(x, y)]) else Ok sources) sources) [].

(** [f"river_{idx:03d}"] *)
Definition river_id (idx : Z) : string :=
  let d := NilZero.string_of_int (Z.to_int idx) in
  let pad := match (3 - String.length d)%nat with
             | 2%nat => "00" | 1%nat => "0" | _ => "" end in
  "river_" +:+ pad +:+ d.

(** [self.rng.sample(sources, k)] *)
Definition sample_sources (self : Gen) (sources : list coord) (k : Z)
  : Result (list coord * Gen) :=
  if (0 <=? k) && (k <=? Z.of_nat (length sources)) then
    let '(picks, rng1) := rng_sample (rng self) (length sources) (Z.to_nat k) in
    Ok (omap (fun i => sources !! i) picks, set_rng rng1 self)
  else Raise ValueError.

(** [for x, y in path: self.tiles[y][x].river = True] *)
Definition mark_river (path : list coord) (ts : grid) : Result grid :=
  for_each path (fun c ts => update_tile ts c.1 c.2 (Tile.set_river true)) ts.

(** The body of the loop over the selected sources. *)
Definition river_step (item : Z * coord) (self : Gen) : Result Gen :=
  let '(idx, (start_x, start_y)) := item in
  path ← _trace_river_path self start_x start_y;
  if 10 <? Z.of_nat (length path) then
    let river := River.mk (river_id idx) (start_x, start_y)
                          (List.last path (start_x, start_y)) path
                          (Z.of_nat (length path)) in
    let self := set_rivers (rivers self ++ [river]) self in
    ts ← mark_river path (tiles self);
    Ok (set_tiles ts self)
  else Ok self.

Definition enumerate {A} (l : list A) : list (Z * A) :=
  zip (seqZ 0 (Z.of_nat (length l))) l.

Definition _generate_rivers (self : Gen) : Result Gen :=
  sources ← river_sources self;
  let actual_river_count :=
    if Z.of_nat (length sources) <? river_count self
    then Z.of_nat (length sources) else river_count self in
  '(selected_sources, self) ← sample_sources self sources actual_river_count;
  for_each (enumerate selected_sources) river_step self.

(** *** Climate *)

(** The body of the two loops of [_distance_to_water]; [None] is
    [float('inf')]. *)
Definition water_scan_step (self : Gen) (x y dy dx : Z) (min_distance : option Z)
  : Result (option Z) :=
  let nx := x + dx in
  let ny := y + dy in
  if in_bounds self (nx, ny) then
    tile ← tile_at (tiles self) nx ny;
    if Tile.water tile || Tile.river tile then
      let distance := Z.abs dx + Z.abs dy in
      Ok (Some match min_distance with
               | None => distance
               | Some m => if distance <? m then distance else m
               end)
    else Ok min_distance
  else Ok min_distance.

Definition _distance_to_water (self : Gen) (x y : Z) : Result Z :=
  let search_radius := 40 in
  min_distance ←
    for_each (range2 (- search_radius) (search_radius + 1)) (fun dy md =>
      for_each (range2 (- search_radius) (search_radius + 1))
               (fun dx md => water_scan_step self x y dy dx md) md) None;
  Ok (default search_radius min_distance).

Definition wind_direction (prevailing_wind : string) : coord :=
  if String.eqb prevailing_wind "west" then (-1, 0)
  else if String.eqb prevailing_wind "east" then (1, 0)
  else if String.eqb prevailing_wind "north" then (0, -1)
  else if String.eqb prevailing_wind "south" then (0, 1)
  else (-1, 0).

(** The body of the loop of [_calculate_rain_shadow]. *)
Definition rain_shadow_step (self : Gen) (x y : Z) (d : coord) (i : Z)
    (max_blocking : float) : Result float :=
  let check_x := x + d.1 * i in
  let check_y := y + d.2 * i in
  if in_bounds self (check_x, check_y) then
    tile ← tile_at (tiles self) check_x check_y;
    if (0.7 <? Tile.elevation tile)%float then
      let blocking := ((Tile.elevation tile - 0.7) * 0.5)%float in
      Ok (py_max max_blocking blocking)
    else Ok max_blocking
  else Ok max_blocking.

Definition _calculate_rain_shadow (self : Gen) (x y : Z) : Result float :=
  let d := wind_direction (prevailing_wind self) in
  let check_distance := 15 in
  for_each (range2 1 check_distance) (rain_shadow_step self x y d) 0%float.

(** The moisture [_calculate_moisture] assigns to tile (x, y). *)
Definition tile_moisture (self : Gen) (x y : Z) : Result float :=
  tile ← tile_at (tiles self) x y;
  water_distance ← _distance_to_water self x y;
  let water_moisture := py_max 0 (1 - float_of_Z water_distance / 30) in
  let elevation_moisture := (Tile.elevation tile * 0.3)%float in
  rain_shadow ← _calculate_rain_shadow self x y;
  let moisture := (water_moisture + elevation_moisture - rain_shadow)%float in
  Ok (py_max 0 (py_min 1 moisture)).

Definition _calculate_moisture (self : Gen) : Result Gen :=
  for_each (range (height self)) (fun y s =>
    for_each (range (width self)) (fun x s =>
      moisture ← tile_moisture s x y;
      ts ← update_tile (tiles s) x y (Tile.set_moisture moisture);
      Ok (set_tiles ts s)) s) self.

(** *** Biomes *)

(** One entry of the rule table: each range is optional. *)
Record biome_rule : Type := mk_rule {
  rule_elevation : option (float * float);
  rule_moisture : option (float * float)
}.

Definition _load_biome_rules : gmap string biome_rule :=
  list_to_map [
    ("deep_ocean", mk_rule (Some (0.0, 0.3)) None);
    ("ocean", mk_rule (Some (0.3, 0.38)) None);
    ("beach", mk_rule (Some (0.38, 0.42)) None);
    ("desert", mk_rule (Some (0.42, 0.7)) (Some (0.0, 0.25)));
    ("grassland", mk_rule (Some (0.42, 0.7)) (Some (0.25, 0.6)));
    ("temperate_forest", mk_rule (Some (0.42, 0.7)) (Some (0.6, 1.0)));
    ("wetlands", mk_rule (Some (0.42, 0.5)) (Some (0.7, 1.0)));
    ("highland", mk_rule (Some (0.7, 0.78)) None);
    ("mountain", mk_rule (Some (0.78, 1.0)) None)
  ]%float.

Definition priority : list string :=
  ["deep_ocean"; "ocean"; "beach"; "mountain"; "highland";
   "wetlands"; "temperate_forest"; "grassland"; "desert"].

(** The test of the loop of [_determine_biome]. *)
Definition rule_matches (rule : biome_rule) (elevation moisture : float) : bool :=
  let elev_range := default (0, 1)%float (rule_elevation rule) in
  let moist_range := default (0, 1)%float (rule_moisture rule) in
  (elev_range.1 <=? elevation)%float && (elevation <? elev_range.2)%float &&
  ((moist_range.1 <=? moisture)%float && (moisture <=? moist_range.2)%float).

Fixpoint first_match (biomes : list string) (elevation moisture : float)
    (rules : gmap string biome_rule) : Result string :=
  match biomes with
  | [] => Ok "grassland"
  | biome :: biomes' =>
      match rules !! biome with
      | None => Raise KeyError
      | Some rule =>
          if rule_matches rule elevation moisture then Ok biome
          else first_match biomes' elevation moisture rules
      end
  end.

Definition _determine_biome (elevation moisture : float)
    (rules : gmap string biome_rule) : Result string :=
  first_match priority elevation moisture rules.

Definition _assign_biomes (self : Gen) : Result Gen :=
  let biome_rules := _load_biome_rules in
  for_each (range (height self)) (fun y s =>
    for_each (range (width self)) (fun x s =>
      tile ← tile_at (tiles s) x y;
      b ← _determine_biome (Tile.elevation tile) (Tile.moisture tile) biome_rules;
      ts ← update_tile (tiles s) x y (Tile.set_biome b);
      Ok (set_tiles ts s)) s) self.

(** *** The artifact *)

Record features : Type := mk_features {
  mountain_ranges : list string;
  lakes : list string
}.

Definition _identify_features (self : Gen) : features := mk_features [] [].

Record tile_dict : Type := mk_tile_dict {
  td_x : Z;
  td_y : Z;
  td_elevation : float;
  td_moisture : float;
  td_biome : string;
  td_water : bool;
  td_river : bool
}.

Record river_dict : Type := mk_river_dict {
  rd_id : string;
  rd_source : list Z;
  rd_mouth : list Z;
  rd_length : Z
}.

Record generation_params : Type := mk_params {
  gp_octaves : Z;
  gp_persistence : float;
  gp_lacunarity : float;
  gp_scale : float;
  gp_river_count : Z;
  gp_prevailing_wind : string
}.

Record terrain : Type := mk_terrain {
  t_schema : string;
  t_seed : Z;
  t_width : Z;
  t_height : Z;
  t_mode : string;
  t_generation_params : generation_params;
  t_tiles : list tile_dict;
  t_rivers : list river_dict;
  t_features : features
}.

Definition _to_dict (self : Gen) (fs : features) : Result terrain :=
  tiles_list ←
    for_each (range (height self)) (fun y tiles_list =>
      for_each (range (width self)) (fun x tiles_list =>
        tile ← tile_at (tiles self) x y;
        Ok (tiles_list ++
            [mk_tile_dict (Tile.x tile) (Tile.y tile)
               (round3 (Tile.elevation tile)) (round3 (Tile.moisture tile))
               (Tile.biome tile) (Tile.water tile) (Tile.river tile)]))
        tiles_list) [];
  let rivers_list :=
    map (fun river =>
           mk_river_dict (River.id river)
             [(River.source river).1; (River.source river).2]
             [(River.mouth river).1; (River.mouth river).2]
             (River.length river)) (rivers self) in
  Ok (mk_terrain "terrain.v1" (seed self) (width self) (height self) (mode self)
        (mk_params (octaves self) (persistence self) (lacunarity self)
           (scale self) (river_count self) (prevailing_wind self))
        tiles_list rivers_list fs).

(** [generate]: the artifact, and the object as the call leaves it. *)
Definition generate (self : Gen) : Result (terrain * Gen) :=
  self ← _generate_elevation self;
  self ← _generate_rivers self;
  self ← _calculate_moisture self;
  self ← _assign_biomes self;
  let fs := _identify_features self in
  out ← _to_dict self fs;
  Ok (out, self).

End Generator.

(** ** CPython's runtime

    The generator of CPython 3's [random] module (MT19937, seeded by
    [init_by_array]) and the methods of [random.Random] the program calls. *)

Module MT19937.
Definition N : nat := 624.
Definition M : nat := 397.
Definition u32 (z : Z) : Z := Z.land z 4294967295.

Record state : Type := mk { mt : list Z; index : nat }.

Definition word (l : list Z) (i : nat) : Z := default 0 (l !! i).

(** [init_genrand] *)
Fixpoint init_genrand_loop (n : nat) (i : Z) (prev : Z) : list Z :=
  match n with
  | O => []
  | S n' =>
      let v := u32 (1812433253 * Z.lxor prev (Z.shiftr prev 30) + i) in
      v :: init_genrand_loop n' (i + 1) v
  end.
Definition init_genrand (s : Z) : list Z :=
  u32 s :: init_genrand_loop (N - 1) 1 (u32 s).

Definition wrap (l : list Z) (i : nat) : list Z * nat :=
  if (N <=? i)%nat then (<[0%nat := word l (N - 1)]> l, 1%nat) else (l, i).

(** [init_by_array] *)
Fixpoint init_loop1 (k : nat) (key : list Z) (l : list Z) (i j : nat) : list Z * nat :=
  match k with
  | O => (l, i)
  | S k' =>
      let p := word l (i - 1) in
      let v := u32 (Z.lxor (word l i) (Z.lxor p (Z.shiftr p 30) * 1664525)
                    + word key j + Z.of_nat j) in
      let '(l, i) := wrap (<[i := v]> l) (S i) in
      let j := if (length key <=? S j)%nat then 0%nat else S j in
      init_loop1 k' key l i j
  end.
Fixpoint init_loop2 (k : nat) (l : list Z) (i : nat) : list Z :=
  match k with
  | O => l
  | S k' =>
      let p := word l (i - 1) in
      let v := u32 (Z.lxor (word l i) (Z.lxor p (Z.shiftr p 30) * 1566083941)
                    - Z.of_nat i) in
      let '(l, i) := wrap (<[i := v]> l) (S i) in
      init_loop2 k' l i
  end.
Definition init_by_array (key : list Z) : state :=
  let l := init_genrand 19650218 in
  let '(l, i) := init_loop1 (Nat.max N (length key)) key l 1 0 in
  let l := init_loop2 (N - 1) l i in
  mk (<[0%nat := 2147483648]> l) N.

(** [random.seed(a)] for an int: the 32-bit digits of [abs(a)]. *)
Fixpoint key_words (n : nat) (a : Z) : list Z :=
  match n with
  | O => []
  | S n' => u32 a :: key_words n' (Z.shiftr a 32)
  end.
Definition seed (a : Z) : state :=
  let a := Z.abs a in
  init_by_array (key_words (Z.to_nat (Z.log2 a / 32 + 1)) a).

(** The regeneration of the 624 words. *)
Fixpoint twist (k : nat) (kk : nat) (l : list Z) : list Z :=
  match k with
  | O => l
  | S k' =>
      let y := Z.lor (Z.land (word l kk) 2147483648)
                     (Z.land (word l (S kk mod N)) 2147483647) in
      let v := Z.lxor (Z.lxor (word l ((kk + M) mod N)) (Z.shiftr y 1))
                      (if Z.odd y then 2567483615 else 0) in
      twist k' (S kk) (<[kk := v]> l)
  end.

Definition genrand_uint32 (s : state) : Z * state :=
  let '(l, i) := if (N <=? index s)%nat then (twist N 0 (mt s), 0%nat)
                 else (mt s, index s) in
  let y := word l i in
  let y := Z.lxor y (Z.shiftr y 11) in
  let y := Z.lxor y (Z.land (Z.shiftl y 7) 2636928640) in
  let y := Z.lxor y (Z.land (Z.shiftl y 15) 4022730752) in
  let y := Z.lxor y (Z.shiftr y 18) in
  (u32 y, mk l (S i)).

(** [getrandbits(k)] for [k <= 32] *)
Definition getrandbits (k : Z) (s : state) : Z * state :=
  if k =? 0 then (0, s)
  else let '(y, s) := genrand_uint32 s in (Z.shiftr y (32 - k), s).

Definition bit_length (n : Z) : Z := if n =? 0 then 0 else Z.log2 (Z.abs n) + 1.

(** [_randbelow(n)]: the loop ends with probability 1; the model gives up
    after [fuel] draws. *)
Fixpoint randbelow_loop (fuel : nat) (n k : Z) (s : state) : Z * state :=
  match fuel with
  | O => (0, s)
  | S fuel' =>
      let '(r, s) := getrandbits k s in
      if n <=? r then randbelow_loop fuel' n k s else (r, s)
  end.
Definition randbelow (n : Z) (s : state) : Z * state :=
  randbelow_loop 1000 n (bit_length n) s.

Definition random (s : state) : float * state :=
  let '(a, s) := genrand_uint32 s in
  let '(b, s) := genrand_uint32 s in
  let a := Z.shiftr a 5 in
  let b := Z.shiftr b 6 in
  ((float_of_Z a * 67108864 + float_of_Z b) * (1 / 9007199254740992), s)%float.

Definition randint (s : state) (a b : Z) : Z * state :=
  let '(r, s) := randbelow (b + 1 - a) s in (a + r, s).

(** [shuffle]: [for i in reversed(range(1, len(x)))] *)
Fixpoint shuffle_loop {A} (i : nat) (x : list A) (s : state) : list A * state :=
  match i with
  | O => (x, s)
  | S i' =>
      let '(j, s) := randbelow (Z.of_nat i + 1) s in
      let x := match x !! i, x !! Z.to_nat j with
               | Some xi, Some xj => <[Z.to_nat j := xi]> (<[i := xj]> x)
               | _, _ => x
               end in
      shuffle_loop i' x s
  end.
Definition shuffle {A} (s : state) (x : list A) : list A * state :=
  shuffle_loop (length x - 1) x s.

(** [sample], by the positions it selects.  Small populations: a pool
    whose selected entries are overwritten by the last live one. *)
Fixpoint sample_pool (k : nat) (live : nat) (pool : list nat) (s : state)
  : list nat * state :=
  match k with
  | O => ([], s)
  | S k' =>
      let '(j, s) := randbelow (Z.of_nat live) s in
      let j := Z.to_nat j in
      let picked := default 0%nat (pool !! j) in
      let pool := <[j := default 0%nat (pool !! (live - 1)%nat)]> pool in
      let '(rest, s) := sample_pool k' (live - 1) pool s in
      (picked :: rest, s)
  end.

(** Large populations: draw again while the position is already
    selected.  The model gives up after [fuel] draws and takes the least
    free position. *)
Fixpoint draw_fresh (fuel : nat) (n : nat) (selected : gset nat) (s : state)
  : nat * state :=
  match fuel with
  | O => (default 0%nat (head (List.filter (fun i => bool_decide (i ∉ selected)) (seq 0 n))), s)
  | S fuel' =>
      let '(j, s) := randbelow (Z.of_nat n) s in
      let j := Z.to_nat j in
      if decide (j ∈ selected) then draw_fresh fuel' n selected s else (j, s)
  end.
Fixpoint sample_set (k : nat) (n : nat) (selected : gset nat) (s : state)
  : list nat * state :=
  match k with
  | O => ([], s)
  | S k' =>
      let '(j, s) := draw_fresh 1000 n selected s in
      let '(rest, s) := sample_set k' n ({[j]} ∪ selected) s in
      (j :: rest, s)
  end.

(** [4 ** ceil(log(k * 3, 4))] *)
Definition set_table_size (k : Z) : Z := 4 ^ ((Z.log2_up (k * 3) + 1) / 2).

Definition sample (s : state) (n k : nat) : list nat * state :=
  let setsize := if (5 <? k)%nat then 21 + set_table_size (Z.of_nat k) else 21 in
  if Z.of_nat n <=? setsize then sample_pool k n (seq 0 n) s
  else sample_set k n ∅ s.

(** [round(x, 3)] for [|x| < 2^43]: the decimal nearest to [x], ties to
    even, then the float nearest to that decimal. *)
Definition round_half_even (num den : Z) : Z :=
  let q := num / den in
  let r := num mod den in
  if (den <? 2 * r) || ((den =? 2 * r) && Z.odd q) then q + 1 else q.
Definition round3 (x : float) : float :=
  match Prim2SF x with
  | S754_finite sg m e =>
      let q := if 0 <=? e then Z.pos m * 2 ^ e * 1000
               else round_half_even (Z.pos m * 1000) (2 ^ (- e)) in
      let r := (float_of_Z q / 1000)%float in
      if sg then (- r)%float else r
  | _ => x
  end.
End MT19937.

(** CPython: the Mersenne Twister behind [random.Random]; [x ** 0.5] is
    taken to round correctly, as [sqrt] does. *)
#[export] Instance CPython : PyRuntime := {
  rng_state := MT19937.state;
  Random := MT19937.seed;
  rng_shuffle := MT19937.shuffle;
  rng_randint := MT19937.randint;
  rng_random := MT19937.random;
  rng_sample := MT19937.sample;
  pow_half := PrimFloat.sqrt;
  round3 := MT19937.round3
}.

(** * Specification vocabulary *)

(** The grid has [h] rows of [w] tiles. *)
Definition grid_dims (w h : Z) (ts : grid) : Prop :=
  length ts = Z.to_nat h /\ Forall (fun row => length row = Z.to_nat w) ts.

(** Tiles correspond place by place and are related by [R]. *)
Definition grid_rel (R : Tile.t -> Tile.t -> Prop) : grid -> grid -> Prop :=
  Forall2 (Forall2 R).

(** What each stage after the elevation stage may change of a tile. *)
Definition river_only (t t' : Tile.t) : Prop :=
  t' = Tile.set_river (Tile.river t') t /\ (Tile.river t = true -> Tile.river t' = true).
Definition moisture_only (t t' : Tile.t) : Prop :=
  t' = Tile.set_moisture (Tile.moisture t') t.
Definition biome_only (t t' : Tile.t) : Prop :=
  t' = Tile.set_biome (Tile.biome t') t.

Section RiverSpec.
Context `{RT : PyRuntime}.
Import TerrainGenerator.
#[local] Abbreviation Gen := TerrainGenerator.t.

(** The generator's grid has its configured size. *)
Definition grid_wf (self : Gen) : Prop := grid_dims (width self) (height self) (tiles self).

(** The elevation the tracing reads at a coordinate. *)
Definition elev_at (self : Gen) (c : coord) : float :=
  match tile_at (tiles self) c.1 c.2 with
  | Ok t => Tile.elevation t
  | Raise _ => nan
  end.

(** The neighbours a step of the tracing examines: the in-bounds ones of
    the four, in the order of enumeration, not yet visited. *)
Definition unvisited (visited : gset coord) (l : list coord) : list coord :=
  List.filter (fun c => bool_decide (c ∉ visited)) l.
Definition candidates (self : Gen) (visited : gset coord) (x y : Z) : list coord :=
  unvisited visited
    (List.filter (in_bounds self) [(x, y + 1); (x + 1, y); (x, y - 1); (x - 1, y)]).

(** [n] is the first of [cands] whose elevation is the least of them, and
    that is strictly below [e0]. *)
Definition first_lowest (elev : coord -> float) (e0 : float) (cands : list coord)
    (n : coord) : Prop :=
  exists i : nat,
    cands !! i = Some n /\
    (elev n <? e0)%float = true /\
    (forall m, m ∈ cands -> (elev m <? elev n)%float = false) /\
    (forall (j : nat) m, (j < i)%nat -> cands !! j = Some m -> (elev m =? elev n)%float = false).

(** The while loop of [_trace_river_path], as a relation between the
    state it starts from and the state it ends in. *)
Inductive trace_while (self : Gen) (max_iterations : Z) : trace_state -> trace_state -> Prop :=
| trace_cap st :
    ~ tr_iterations st < max_iterations ->
    trace_while self max_iterations st st
| trace_break st st' :
    tr_iterations st < max_iterations ->
    trace_body self st = Ok (inl st') ->
    trace_while self max_iterations st st'
| trace_continue st st1 st' :
    tr_iterations st < max_iterations ->
    trace_body self st = Ok (inr st1) ->
    trace_while self max_iterations st1 st' ->
    trace_while self max_iterations st st'.

(** Two coordinates one step apart along one axis. *)
Definition adjacent (c c' : coord) : Prop :=
  Z.abs (c.1 - c'.1) + Z.abs (c.2 - c'.2) = 1.

Definition connected (path : list coord) : Prop :=
  forall (i : nat) c c', path !! i = Some c -> path !! S i = Some c' -> adjacent c c'.

(** What holds of the tracing state each time the loop condition is
    tested. *)
Record trace_inv (self : Gen) (start : coord) (st : trace_state) : Prop := {
  inv_head : head (tr_path st) = Some start;
  inv_last : last (tr_path st) = Some (tr_current st);
  inv_visited : forall c, c ∈ tr_visited st <-> c ∈ tr_path st;
  inv_NoDup : NoDup (tr_path st);
  inv_connected : connected (tr_path st);
  inv_bounds : forall c, c ∈ tr_path st -> c = start \/ in_bounds self c = true;
  inv_length : Z.of_nat (length (tr_path st)) <= tr_iterations st + 1;
  inv_iterations : 0 <= tr_iterations st
}.
End RiverSpec.

Section StageSpec.
Context `{RT : PyRuntime}.
Import TerrainGenerator.
#[local] Abbreviation Gen := TerrainGenerator.t.

(** The two generators differ at most in [rng], [tiles] and [rivers]. *)
Definition same_config (s1 s2 : Gen) : Prop :=
  width s1 = width s2 /\ height s1 = height s2 /\ seed s1 = seed s2 /\
  mode s1 = mode s2 /\ octaves s1 = octaves s2 /\
  persistence s1 = persistence s2 /\ lacunarity s1 = lacunarity s2 /\
  scale s1 = scale s2 /\ river_count s1 = river_count s2 /\
  prevailing_wind s1 = prevailing_wind s2 /\ noise s1 = noise s2.

(** The tiles agree on what the tracing reads. *)
Definition same_terrain (t t' : Tile.t) : Prop :=
  Tile.elevation t = Tile.elevation t' /\ Tile.water t = Tile.water t'.

(** The coordinates of the grid in the order of the two loops. *)
Definition all_coords (self : Gen) : list coord :=
  flat_map (fun y => map (fun x => (x, y)) (range (width self))) (range (height self)).

(** The tile at [c] has elevation > 0.7 and is not water. *)
Definition eligible_at (ts : grid) (c : coord) : bool :=
  match tile_at ts c.1 c.2 with
  | Ok t => is_source t
  | Raise _ => false
  end.

(** The eligible river sources. *)
Definition eligible (self : Gen) : list coord :=
  List.filter (eligible_at (tiles self)) (all_coords self).

(** The river a selected source gives, if its path is long enough. *)
Definition kept_river (self : Gen) (item : Z * coord) : option River.t :=
  match _trace_river_path self item.2.1 item.2.2 with
  | Ok path =>
      if 10 <? Z.of_nat (length path)
      then Some (River.mk (river_id item.1) item.2 (List.last path item.2) path
                          (Z.of_nat (length path)))
      else None
  | Raise _ => None
  end.

(** A river as the claims want it, on the grid [ts]. *)
Record river_valid (ts : grid) (r : River.t) : Prop := {
  rv_long : (10 < length (River.path r))%nat;
  rv_connected : connected (River.path r);
  rv_NoDup : NoDup (River.path r);
  rv_marked : forall c, c ∈ River.path r ->
    exists t, tile_at ts c.1 c.2 = Ok t /\ Tile.river t = true;
  rv_source : head (River.path r) = Some (River.source r);
  rv_mouth : last (River.path r) = Some (River.mouth r);
  rv_length : River.length r = Z.of_nat (length (River.path r))
}.
End StageSpec.

Section RiverStageSpec.
Context `{RT : PyRuntime}.
Import TerrainGenerator.
#[local] Abbreviation Gen := TerrainGenerator.t.

(** The number of sources [_generate_rivers] asks [sample] for, and the
    sources it gets. *)
Definition actual_river_count (self : Gen) : Z :=
  if Z.of_nat (length (eligible self)) <? river_count self
  then Z.of_nat (length (eligible self)) else river_count self.

Definition selected_sources (self : Gen) : list coord :=
  omap (fun i => eligible self !! i)
       (rng_sample (rng self) (length (eligible self))
                   (Z.to_nat (actual_river_count self))).1.
End RiverStageSpec.

Section TileLoopSpec.
Context `{RT : PyRuntime}.
Import TerrainGenerator.
#[local] Abbreviation Gen := TerrainGenerator.t.

(** The shape of the moisture and biome loops: each turn computes a value
    from the object and stores it in the tile of its coordinate. *)
Definition store_loop {V} (compute : Gen -> coord -> Result V)
    (store : V -> Tile.t -> Tile.t) (cs : list coord) (self : Gen) : Result Gen :=
  for_each cs (fun c self =>
    v ← compute self c;
    ts ← update_tile (tiles self) c.1 c.2 (store v);
    Ok (set_tiles ts self)) self.
End TileLoopSpec.

Section ClimateSpec.
Context `{RT : PyRuntime}.
Import TerrainGenerator.
#[local] Abbreviation Gen := TerrainGenerator.t.

(** [clamp01]: [max(0.0, min(1.0, v))] *)
Definition clamp01 (v : float) : float := py_max 0 (py_min 1 v).

(** The first [n] cells upwind of (x, y), nearest first. *)
Definition upwind_cells (self : Gen) (x y n : Z) : list coord :=
  map (fun i => (x + (wind_direction (prevailing_wind self)).1 * i,
                 y + (wind_direction (prevailing_wind self)).2 * i))
      (range2 1 (n + 1)).

(** The penalty of a cell: [(elevation - 0.7) * 0.5] when it is in bounds
    and its elevation exceeds 0.7. *)
Definition penalty (self : Gen) (c : coord) : option float :=
  if in_bounds self c then
    match tile_at (tiles self) c.1 c.2 with
    | Ok t => if (0.7 <? Tile.elevation t)%float
              then Some ((Tile.elevation t - 0.7) * 0.5)%float else None
    | Raise _ => None
    end
  else None.

(** The penalties found among the first [n] cells upwind. *)
Definition penalties (self : Gen) (x y n : Z) : list float :=
  omap (penalty self) (upwind_cells self x y n).

(** [r] is an element of [l] that none exceeds. *)
Definition is_maximum (r : float) (l : list float) : Prop :=
  r ∈ l /\ forall p, p ∈ l -> (r <? p)%float = false.

(** The moisture formula of the claim, for a rain shadow [r] and a
    distance [d] to water. *)
Definition moisture_formula (d : Z) (elevation r : float) : float :=
  clamp01 (py_max 0 (1 - float_of_Z d / 30) + elevation * 0.3 - r).
End ClimateSpec.

Section ElevationSpec.
Context `{RT : PyRuntime}.
Import TerrainGenerator.
#[local] Abbreviation Gen := TerrainGenerator.t.

(** A tile as [_generate_elevation] creates it at (x, y). *)
Record placeholder_tile (x y : Z) (t : Tile.t) : Prop := {
  pt_x : Tile.x t = x;
  pt_y : Tile.y t = y;
  pt_water : Tile.water t = (Tile.elevation t <? 0.4)%float;
  pt_range : (Tile.elevation t <? 0)%float = false /\ (1 <? Tile.elevation t)%float = false;
  pt_moisture : Tile.moisture t = 0%float;
  pt_biome : Tile.biome t = "";
  pt_river : Tile.river t = false
}.

(** The entry of the artifact for a tile. *)
Definition tile_dict_of (t : Tile.t) : tile_dict :=
  mk_tile_dict (Tile.x t) (Tile.y t) (round3 (Tile.elevation t))
    (round3 (Tile.moisture t)) (Tile.biome t) (Tile.water t) (Tile.river t).

Definition river_dict_of (r : River.t) : river_dict :=
  mk_river_dict (River.id r) [(River.source r).1; (River.source r).2]
    [(River.mouth r).1; (River.mouth r).2] (River.length r).

(** The biome [_assign_biomes] computes for the tile at [c]. *)
Definition tile_biome (self : Gen) (c : coord) : Result string :=
  tile ← tile_at (tiles self) c.1 c.2;
  _determine_biome (Tile.elevation tile) (Tile.moisture tile) _load_biome_rules.
End ElevationSpec.

Section GenerateSpec.
Context `{RT : PyRuntime}.
Import TerrainGenerator.
#[local] Abbreviation Gen := TerrainGenerator.t.

(** What the later stages keep of a tile. *)
Definition frozen (t t' : Tile.t) : Prop :=
  Tile.x t' = Tile.x t /\ Tile.y t' = Tile.y t /\
  Tile.elevation t' = Tile.elevation t /\ Tile.water t' = Tile.water t /\
  (Tile.river t = true -> Tile.river t' = true).
End GenerateSpec.

(** ** Concrete runs on CPython *)

Definition ok_b {A} (r : Result A) : bool :=
  match r with Ok _ => true | Raise _ => false end.

(** [TerrainGenerator(50, 50, seed=1, mode='highlands', scale=1.0)], the
    other parameters at their defaults. *)
Definition highlands_gen : TerrainGenerator.t (RT := CPython) :=
  TerrainGenerator.mk CPython 50 50 1 "highlands" 5 0.5 2.0 1.0 8 "west"
    (Random 1) (SimplexNoise_init 1) [] [].

(** [TerrainGenerator(50, 50, seed=42)], every other parameter at its
    default. *)
Definition default_gen : TerrainGenerator.t (RT := CPython) :=
  TerrainGenerator.mk CPython 50 50 42 "continent" 5 0.5 2.0 100.0 8 "west"
    (Random 42) (SimplexNoise_init 42) [] [].

(** [TerrainGenerator(50, 50, seed=42, octaves=1, river_count=3000)]: more
    rivers are requested than the map has tiles. *)
Definition crowded_gen : TerrainGenerator.t (RT := CPython) :=
  TerrainGenerator.mk CPython 50 50 42 "continent" 1 0.5 2.0 100.0 3000 "west"
    (Random 42) (SimplexNoise_init 42) [] [].

(** [Ok] when the condition holds. *)
Definition guard (b : bool) : Result unit := if b then Ok () else Raise ValueError.

(** What is evaluated on the elevation stage of each of the three. *)
Definition highlands_check (se : TerrainGenerator.t (RT := CPython)) : Result unit :=
  t ← tile_at (TerrainGenerator.tiles se) 3 0;
  guard (Tile.water t).

Definition default_check (se : TerrainGenerator.t (RT := CPython)) : Result unit :=
  t15 ← tile_at (TerrainGenerator.tiles se) 26 12;
  r ← _calculate_rain_shadow se 41 12;
  _ ← guard ((0.7 <? Tile.elevation t15)%float &&
             (r <? (Tile.elevation t15 - 0.7) * 0.5)%float);
  path ← _trace_river_path se 26 12;
  step ← trace_body se (trace_start 26 12);
  Ok ().


(** * More of the program, and more vocabulary *)

Section DescentSpec.
Context `{RT : PyRuntime}.
Import TerrainGenerator.
#[local] Abbreviation Gen := TerrainGenerator.t.

(** Each coordinate of the path is strictly lower than the one before. *)
Definition descending (self : Gen) (path : list coord) : Prop :=
  forall (i : nat) c c', path !! i = Some c -> path !! S i = Some c' ->
    (elev_at self c' <? elev_at self c)%float = true.

(** No tile of the path but the last one is water. *)
Definition dry_upstream (self : Gen) (path : list coord) : Prop :=
  forall (i : nat) c, path !! i = Some c -> (S i < length path)%nat ->
    exists t, tile_at (tiles self) c.1 c.2 = Ok t /\ Tile.water t = false.

(** The tile at [c] is water, or a pit: none of its in-bounds neighbours
    is strictly lower. *)
Definition water_or_pit (self : Gen) (c : coord) : Prop :=
  exists cur, tile_at (tiles self) c.1 c.2 = Ok cur /\
    (Tile.water cur = true \/
     forall m, m ∈ _get_neighbors self c.1 c.2 ->
               (elev_at self m <? Tile.elevation cur)%float = false).
End DescentSpec.

(** The biome of a tile of elevation [e] and moisture [m], both in
    [0, 1], as a decision table. *)
Definition biome_table (e m : float) : string :=
  if (e <? 0.3)%float then "deep_ocean"
  else if (e <? 0.38)%float then "ocean"
  else if (e <? 0.42)%float then "beach"
  else if (e <? 0.7)%float then
    if (e <? 0.5)%float && (0.7 <=? m)%float then "wetlands"
    else if (0.6 <=? m)%float then "temperate_forest"
    else if (0.25 <=? m)%float then "grassland"
    else "desert"
  else if (e <? 0.78)%float then "highland"
  else if (e <? 1)%float then "mountain"
  else "grassland".

(** A tile of a finished map, at (x, y). *)
Record finished_tile (x y : Z) (t : Tile.t) : Prop := {
  ft_x : Tile.x t = x;
  ft_y : Tile.y t = y;
  ft_elevation : (0 <=? Tile.elevation t)%float = true /\
                 (Tile.elevation t <=? 1)%float = true;
  ft_moisture : (0 <=? Tile.moisture t)%float = true /\
                (Tile.moisture t <=? 1)%float = true;
  ft_water : Tile.water t = (Tile.elevation t <? 0.4)%float;
  ft_biome : Tile.biome t = biome_table (Tile.elevation t) (Tile.moisture t);
  ft_river_size : Tile.river_size t = 0;
  ft_terrain_feature : Tile.terrain_feature t = None
}.

Section WaterDistanceSpec.
Context `{RT : PyRuntime}.
Import TerrainGenerator.
#[local] Abbreviation Gen := TerrainGenerator.t.

(** The tile at [c] is in the grid and is water or river. *)
Definition is_wet (self : Gen) (c : coord) : bool :=
  in_bounds self c &&
  match tile_at (tiles self) c.1 c.2 with
  | Ok t => Tile.water t || Tile.river t
  | Raise _ => false
  end.

(** The offsets (dx, dy) of the window [_distance_to_water] scans, in the
    order of its two loops. *)
Definition scan_offsets : list coord :=
  flat_map (fun dy => map (fun dx => (dx, dy)) (range2 (-40) 41)) (range2 (-40) 41).

(** What holds of [min_distance] when the offsets [l] have been
    scanned. *)
Definition nearest_wet (self : Gen) (x y : Z) (l : list coord) (md : option Z) : Prop :=
  match md with
  | None => forall o, o ∈ l -> is_wet self (x + o.1, y + o.2) = false
  | Some d =>
      (exists o, o ∈ l /\ is_wet self (x + o.1, y + o.2) = true /\
                 d = Z.abs o.1 + Z.abs o.2) /\
      forall o, o ∈ l -> is_wet self (x + o.1, y + o.2) = true ->
                d <= Z.abs o.1 + Z.abs o.2
  end.
End WaterDistanceSpec.

(** ** [generate_ascii_map] *)

(** A [str] given by the bytes of its UTF-8 encoding. *)
Definition utf8 (bytes : list Z) : string :=
  String.string_of_list_ascii (map (fun b => Ascii.ascii_of_N (Z.to_N b)) bytes).

(** The character of a tile entry.  The non-ASCII literals are the
    source's, byte for byte. *)
Definition ascii_char (tile : tile_dict) : string :=
  if td_water tile then "~"
  else if td_river tile then utf8 [195; 162; 226; 128; 176; 203; 134]
  else if String.eqb (td_biome tile) "mountain" then "^"
  else if String.eqb (td_biome tile) "highland" then "n"
  else if String.eqb (td_biome tile) "temperate_forest"
       then utf8 [195; 162; 226; 132; 162; 194; 163]
  else if String.eqb (td_biome tile) "grassland" then "."
  else if String.eqb (td_biome tile) "desert" then utf8 [195; 131; 194; 183]
  else if String.eqb (td_biome tile) "beach" then utf8 [195; 130; 194; 183]
  else if String.eqb (td_biome tile) "wetlands"
       then utf8 [195; 162; 226; 128; 176; 226; 128; 185]
  else "?".

(** [g[y][x] = v] on a list of lists. *)
Definition py_setitem2 {A} (g : list (list A)) (x y : Z) (v : A) : Result (list (list A)) :=
  j ← py_index (length g) y;
  row ← py_getitem g y;
  i ← py_index (length row) x;
  Ok (<[j := <[i := v]> row]> g).

(** The grid of characters before it is joined. *)
Definition ascii_grid (t : terrain) : Result (list (list string)) :=
  let grid := map (fun _ => map (fun _ => "?") (range (t_width t))) (range (t_height t)) in
  for_each (t_tiles t)
    (fun tile grid => py_setitem2 grid (td_x tile) (td_y tile) (ascii_char tile)) grid.

Definition newline : string := String (Ascii.ascii_of_nat 10) EmptyString.

Definition generate_ascii_map (t : terrain) : Result string :=
  grid ← ascii_grid t;
  Ok (String.concat newline (map (String.concat "") grid)).

(** [g] has [h] rows of [w] cells. *)
Definition dims2 {A} (w h : nat) (g : list (list A)) : Prop :=
  length g = h /\ Forall (fun row => length row = w) g.

(** The cell at column [x] of row [y]. *)
Definition cell {A} (g : list (list A)) (x y : Z) : option A :=
  row ← g !! Z.to_nat y; row !! Z.to_nat x.

(** The coordinates [g[y][x]] accepts on [h] rows of [w] cells: negative
    ones count from the end. *)
Definition wraps (w h : nat) (x y : Z) : Prop :=
  - Z.of_nat w <= x < Z.of_nat w /\ - Z.of_nat h <= y < Z.of_nat h.

(** The number after "river_" in a river id. *)
Definition river_number (id : string) : option Z :=
  match id with
  | String _ (String _ (String _ (String _ (String _ (String _ digits))))) =>
      Z.of_uint <$> NilEmpty.uint_of_string digits
  | _ => None
  end.

Section Reconfigure.
Context `{RT : PyRuntime}.
Import TerrainGenerator.
#[local] Abbreviation Gen := TerrainGenerator.t.

(** The generator [g] with another river count and another wind. *)
Definition reconfigure (k : Z) (w : string) (g : Gen) : Gen :=
  mk _ (width g) (height g) (seed g) (mode g) (octaves g) (persistence g)
     (lacunarity g) (scale g) k w (rng g) (noise g) (tiles g) (rivers g).

(** [t'] is [t] with another moisture and another biome. *)
Definition climate_only (t t' : Tile.t) : Prop :=
  t' = Tile.set_biome (Tile.biome t') (Tile.set_moisture (Tile.moisture t') t).
End Reconfigure.

(** The tile at [c] of [ts] has no river flag. *)
Definition unflagged (ts : grid) (c : coord) : bool :=
  match tile_at ts c.1 c.2 with
  | Ok t => negb (Tile.river t)
  | Raise _ => false
  end.

(** What is evaluated on the river stages of two consecutive runs on one
    object: the first run keeps a river, the second adds one, and after
    it the object holds more rivers than [river_count], one of them with
    an unflagged tile on its path. *)
Definition rerun_check (sr sr2 : TerrainGenerator.t (RT := CPython)) : Result unit :=
  guard ((0 <? Z.of_nat (length (TerrainGenerator.rivers sr))) &&
         (Z.of_nat (length (TerrainGenerator.rivers sr))
            <? Z.of_nat (length (TerrainGenerator.rivers sr2))) &&
         (TerrainGenerator.river_count sr2
            <? Z.of_nat (length (TerrainGenerator.rivers sr2))) &&
         existsb (fun r => existsb (unflagged (TerrainGenerator.tiles sr2)) (River.path r))
                 (TerrainGenerator.rivers sr2)).

(** The elevation and river stages of two consecutive runs. *)
Definition two_runs {A} (self : TerrainGenerator.t (RT := CPython))
    (k : TerrainGenerator.t -> TerrainGenerator.t -> Result A) : Result A :=
  se ← _generate_elevation self;
  sr ← _generate_rivers se;
  se2 ← _generate_elevation sr;
  sr2 ← _generate_rivers se2;
  k sr sr2.

(** * Properties *)

(** ** The error monad and the loops *)

Lemma bind_Ok {A B} (m : Result A) (f : A -> Result B) (b : B) :
  m ≫= f = Ok b <-> exists a, m = Ok a /\ f a = Ok b.
Proof.
  destruct m as [a|e]; simpl; split.
  - intros H. exists a. auto.
  - intros (a' & Ha & H). congruence.
  - discriminate.
  - intros (a' & Ha & _). discriminate.
Qed.

Lemma bind_Ok_l {A B} (m : Result A) (f : A -> Result B) (a : A) :
  m = Ok a -> m ≫= f = f a.
Proof. intros ->. reflexivity. Qed.

(** Inverts a hypothesis [x ← m; k = Ok b]. *)
Tactic Notation "inv_bind" hyp(H) "as" ident(a) ident(Ha) :=
  apply bind_Ok in H as (a & Ha & H).

Lemma for_each_app {A S} (xs ys : list A) (body : A -> S -> Result S) (s : S) :
  for_each (xs ++ ys) body s = for_each xs body s ≫= for_each ys body.
Proof.
  revert s. induction xs as [|x xs IH]; intros s; simpl; [reflexivity|].
  destruct (body x s) as [s1|e]; simpl; [apply IH | reflexivity].
Qed.

(** An invariant of the loop body holds when the loop ends. *)
Lemma for_each_inv {A S} (P : S -> Prop) (xs : list A)
    (body : A -> S -> Result S) (s s' : S) :
  P s ->
  (forall x s1 s2, x ∈ xs -> P s1 -> body x s1 = Ok s2 -> P s2) ->
  for_each xs body s = Ok s' -> P s'.
Proof.
  revert s. induction xs as [|x xs IH]; intros s Hs Hbody H; simpl in H.
  - congruence.
  - inv_bind H as s1 Hs1. eapply IH; [| |exact H].
    + eapply Hbody; [left|exact Hs|exact Hs1].
    + intros y s2 s3 Hy. apply Hbody. by right.
Qed.

(** A loop whose body cannot raise under an invariant does not raise. *)
Lemma for_each_total {A S} (P : S -> Prop) (xs : list A)
    (body : A -> S -> Result S) (s : S) :
  P s ->
  (forall x s1, x ∈ xs -> P s1 -> exists s2, body x s1 = Ok s2 /\ P s2) ->
  exists s', for_each xs body s = Ok s' /\ P s'.
Proof.
  revert s. induction xs as [|x xs IH]; intros s Hs Hbody; simpl.
  - eauto.
  - destruct (Hbody x s) as (s1 & -> & Hs1); [left|done|]. simpl.
    apply IH; [done|]. intros y s2 Hy. apply Hbody. by right.
Qed.

Lemma map_st_inv {A B S} (P : S -> Prop) (Q : A -> B -> Prop)
    (f : A -> S -> Result (B * S)) (xs : list A) (s : S) (bs : list B) (s' : S) :
  P s ->
  (forall x s1 b s2, x ∈ xs -> P s1 -> f x s1 = Ok (b, s2) -> Q x b /\ P s2) ->
  map_st f xs s = Ok (bs, s') -> Forall2 Q xs bs /\ P s'.
Proof.
  revert s bs. induction xs as [|x xs IH]; intros s bs Hs Hf H; simpl in H.
  - injection H as <- <-. split; [constructor|done].
  - inv_bind H as r Hr. destruct r as [b s1].
    inv_bind H as r' Hr'. destruct r' as [bs1 s2].
    injection H as <- <-.
    destruct (Hf x s b s1) as [Hq Hs1]; [left|done|done|].
    destruct (IH s1 bs1) as [HQ Hs2]; [done| |done|].
    { intros y s3 b' s4 Hy. apply Hf. by right. }
    split; [by constructor|done].
Qed.

(** ** Python lists *)

Lemma py_index_Ok (n : nat) (i : Z) (j : nat) :
  py_index n i = Ok j <->
  (0 <= i < Z.of_nat n /\ j = Z.to_nat i) \/
  (- Z.of_nat n <= i < 0 /\ j = Z.to_nat (i + Z.of_nat n)).
Proof.
  unfold py_index. destruct (Z.ltb_spec i 0);
    destruct (Z.leb_spec 0 (i + Z.of_nat n)); destruct (Z.leb_spec 0 i);
    destruct (Z.ltb_spec (i + Z.of_nat n) (Z.of_nat n));
    destruct (Z.ltb_spec i (Z.of_nat n)); simpl;
    split; intros H'; try discriminate; try lia;
    try (injection H' as <-; lia);
    try (destruct H' as [[? ->]|[? ->]]; first [reflexivity | lia]).
Qed.

Lemma py_getitem_Ok {A} (l : list A) (i : Z) (a : A) :
  py_getitem l i = Ok a <-> exists j, py_index (length l) i = Ok j /\ l !! j = Some a.
Proof.
  unfold py_getitem. split.
  - intros H.
    destruct (Z.leb_spec 0 (if i <? 0 then i + Z.of_nat (length l) else i)) as [Hj|]; [|done].
    destruct (l !! _) as [a'|] eqn:Hl; [|done]. injection H as ->.
    eexists. split; [|exact Hl]. apply lookup_lt_Some in Hl.
    apply py_index_Ok. destruct (Z.ltb_spec i 0); lia.
  - intros (j & Hj & Hl). apply py_index_Ok in Hj.
    destruct Hj as [[Hi ->]|[Hi ->]].
    + destruct (Z.ltb_spec i 0); [lia|]. destruct (Z.leb_spec 0 i); [|lia]. by rewrite Hl.
    + destruct (Z.ltb_spec i 0); [|lia].
      destruct (Z.leb_spec 0 (i + Z.of_nat (length l))); [|lia]. by rewrite Hl.
Qed.

Lemma py_getitem_nonneg {A} (l : list A) (i : Z) (a : A) :
  0 <= i -> py_getitem l i = Ok a <-> l !! Z.to_nat i = Some a.
Proof.
  intros Hi. rewrite py_getitem_Ok. split.
  - intros (j & Hj & Hl). apply py_index_Ok in Hj. destruct Hj as [[_ ->]|[? _]]; [done|lia].
  - intros Hl. exists (Z.to_nat i). split; [|done]. apply py_index_Ok.
    apply lookup_lt_Some in Hl. left. lia.
Qed.

(** ** The grid *)

#[global] Instance river_only_preorder : PreOrder river_only.
Proof.
  split.
  - intros [????????]. split; [reflexivity|auto].
  - intros [????????] [????????] [????????] [H1 H1'] [H2 H2']; simpl in *.
    injection H1 as -> -> -> -> -> -> -> ->. injection H2 as -> -> -> -> -> -> -> ->.
    split; [reflexivity|simpl; auto].
Qed.

#[global] Instance moisture_only_preorder : PreOrder moisture_only.
Proof.
  split.
  - by intros [????????].
  - intros [????????] [????????] [????????] H1 H2; unfold moisture_only in *; simpl in *.
    injection H1 as -> -> -> -> -> -> -> ->. by injection H2 as -> -> -> -> -> -> -> ->.
Qed.

#[global] Instance biome_only_preorder : PreOrder biome_only.
Proof.
  split.
  - by intros [????????].
  - intros [????????] [????????] [????????] H1 H2; unfold biome_only in *; simpl in *.
    injection H1 as -> -> -> -> -> -> -> ->. by injection H2 as -> -> -> -> -> -> -> ->.
Qed.

#[global] Instance grid_rel_preorder (R : Tile.t -> Tile.t -> Prop) :
  PreOrder R -> PreOrder (grid_rel R).
Proof. intros HR. unfold grid_rel. apply _. Qed.

Lemma grid_rel_impl (R R' : Tile.t -> Tile.t -> Prop) (ts ts' : grid) :
  (forall t t', R t t' -> R' t t') -> grid_rel R ts ts' -> grid_rel R' ts ts'.
Proof.
  intros HRR H. eapply Forall2_impl; [exact H|].
  intros r r' Hr. eapply Forall2_impl; [exact Hr|exact HRR].
Qed.

Lemma grid_rel_dims (R : Tile.t -> Tile.t -> Prop) (w h : Z) (ts ts' : grid) :
  grid_rel R ts ts' -> grid_dims w h ts -> grid_dims w h ts'.
Proof.
  intros HR [Hlen Hrows]. split.
  - by rewrite <- (Forall2_length _ _ _ HR).
  - revert Hrows. clear Hlen. induction HR as [|r r' ts ts' Hr _ IH]; [done|].
    intros Hrows. apply Forall_cons in Hrows as [Hr0 Hrows]. constructor; [|auto].
    by rewrite <- (Forall2_length _ _ _ Hr).
Qed.

Lemma tile_at_Ok (ts : grid) (x y : Z) (t : Tile.t) :
  tile_at ts x y = Ok t <->
  exists j i row, py_index (length ts) y = Ok j /\ ts !! j = Some row /\
                  py_index (length row) x = Ok i /\ row !! i = Some t.
Proof.
  unfold tile_at. rewrite bind_Ok. split.
  - intros (row & Hrow & Ht). apply py_getitem_Ok in Hrow as (j & Hj & Hrow).
    apply py_getitem_Ok in Ht as (i & Hi & Ht). eauto 10.
  - intros (j & i & row & Hj & Hrow & Hi & Ht). exists row.
    split; apply py_getitem_Ok; eauto.
Qed.

Lemma tile_at_nonneg (ts : grid) (x y : Z) (t : Tile.t) :
  0 <= x -> 0 <= y ->
  tile_at ts x y = Ok t <->
  exists row, ts !! Z.to_nat y = Some row /\ row !! Z.to_nat x = Some t.
Proof.
  intros Hx Hy. unfold tile_at. rewrite bind_Ok. split.
  - intros (row & Hrow & Ht). exists row. by rewrite <- !py_getitem_nonneg.
  - intros (row & Hrow & Ht). exists row. by rewrite !py_getitem_nonneg.
Qed.

Lemma tile_at_total (w h : Z) (ts : grid) (x y : Z) :
  grid_dims w h ts -> 0 <= x < w -> 0 <= y < h -> exists t, tile_at ts x y = Ok t.
Proof.
  intros [Hlen Hrows] Hx Hy.
  destruct (lookup_lt_is_Some_2 ts (Z.to_nat y)) as [row Hrow]; [lia|].
  assert (length row = Z.to_nat w) as Hw.
  { eapply (Forall_lookup_1 _ _ _ _ Hrows Hrow). }
  destruct (lookup_lt_is_Some_2 row (Z.to_nat x)) as [t Ht]; [lia|].
  exists t. apply tile_at_nonneg; [lia..|eauto].
Qed.

Lemma py_getitem_rel {A} (R : A -> A -> Prop) (l l' : list A) (i : Z) :
  Forall2 R l l' ->
  match py_getitem l i, py_getitem l' i with
  | Ok a, Ok a' => R a a'
  | Raise e, Raise e' => e = e'
  | _, _ => False
  end.
Proof.
  intros HR. unfold py_getitem.
  assert (length l' = length l) as -> by (symmetry; eapply Forall2_length, HR).
  set (j := if i <? 0 then i + Z.of_nat (length l) else i).
  destruct (0 <=? j); [|done].
  destruct (l !! Z.to_nat j) as [a|] eqn:Ha.
  - by destruct (Forall2_lookup_l _ _ _ _ _ HR Ha) as (a' & -> & Haa).
  - apply lookup_ge_None in Ha.
    assert (length l = length l') as Hlen by (eapply Forall2_length, HR).
    rewrite Hlen in Ha. apply lookup_ge_None in Ha. by rewrite Ha.
Qed.

(** Tiles of related grids are related, and a lookup raises in both or in
    neither. *)
Lemma tile_at_rel (R : Tile.t -> Tile.t -> Prop) (ts ts' : grid) (x y : Z) :
  grid_rel R ts ts' ->
  match tile_at ts x y, tile_at ts' x y with
  | Ok t, Ok t' => R t t'
  | Raise e, Raise e' => e = e'
  | _, _ => False
  end.
Proof.
  intros HR. unfold tile_at.
  pose proof (py_getitem_rel _ ts ts' y HR) as Hrow.
  destruct (py_getitem ts y) as [row|e], (py_getitem ts' y) as [row'|e']; try done.
  apply (py_getitem_rel _ row row' x Hrow).
Qed.

Lemma update_tile_Ok (ts : grid) (x y : Z) (f : Tile.t -> Tile.t) (ts' : grid) :
  update_tile ts x y f = Ok ts' <->
  exists j i row tl, py_index (length ts) y = Ok j /\ ts !! j = Some row /\
    py_index (length row) x = Ok i /\ row !! i = Some tl /\
    ts' = <[j := <[i := f tl]> row]> ts.
Proof.
  unfold update_tile. split.
  - intros H. inv_bind H as j Hj. inv_bind H as row Hrow.
    inv_bind H as i Hi. inv_bind H as tl Htl. injection H as <-.
    apply py_getitem_Ok in Hrow as (j' & Hj' & Hrow).
    apply py_getitem_Ok in Htl as (i' & Hi' & Htl).
    assert (j' = j) as -> by congruence. assert (i' = i) as -> by congruence.
    eauto 10.
  - intros (j & i & row & tl & Hj & Hrow & Hi & Htl & ->).
    rewrite Hj. simpl.
    assert (py_getitem ts y = Ok row) as -> by (apply py_getitem_Ok; eauto). simpl.
    rewrite Hi. simpl.
    assert (py_getitem row x = Ok tl) as -> by (apply py_getitem_Ok; eauto). done.
Qed.

Lemma update_tile_total (w h : Z) (ts : grid) (x y : Z) (f : Tile.t -> Tile.t) :
  grid_dims w h ts -> 0 <= x < w -> 0 <= y < h ->
  exists ts', update_tile ts x y f = Ok ts'.
Proof.
  intros [Hlen Hrows] Hx Hy.
  destruct (lookup_lt_is_Some_2 ts (Z.to_nat y)) as [row Hrow]; [lia|].
  assert (length row = Z.to_nat w) as Hw.
  { eapply (Forall_lookup_1 _ _ _ _ Hrows Hrow). }
  destruct (lookup_lt_is_Some_2 row (Z.to_nat x)) as [t Ht]; [lia|].
  eexists. apply update_tile_Ok. exists (Z.to_nat y), (Z.to_nat x), row, t.
  repeat split; try done; apply py_index_Ok; left; lia.
Qed.

(** An update relates the grid to the updated one by any reflexive
    relation that relates each tile to its update. *)
Lemma update_tile_rel (R : Tile.t -> Tile.t -> Prop) `{!Reflexive R}
    (ts : grid) (x y : Z) (f : Tile.t -> Tile.t) (ts' : grid) :
  (forall t, R t (f t)) -> update_tile ts x y f = Ok ts' -> grid_rel R ts ts'.
Proof.
  intros Hf H. apply update_tile_Ok in H as (j & i & row & tl & _ & Hrow & _ & Htl & ->).
  unfold grid_rel.
  rewrite <- (list_insert_id ts j row Hrow) at 1.
  apply Forall2_insert; [reflexivity|].
  rewrite <- (list_insert_id row i tl Htl) at 1.
  apply Forall2_insert; [reflexivity|apply Hf].
Qed.

Lemma update_tile_dims (w h : Z) (ts : grid) (x y : Z) (f : Tile.t -> Tile.t) (ts' : grid) :
  update_tile ts x y f = Ok ts' -> grid_dims w h ts -> grid_dims w h ts'.
Proof.
  intros H. apply (grid_rel_dims (fun _ _ => True)).
  assert (Reflexive (fun _ _ : Tile.t => True)) as Hrefl by done.
  by apply (update_tile_rel _ ts x y f).
Qed.

(** The updated tile, read back. *)
Lemma update_tile_read (ts : grid) (x y : Z) (f : Tile.t -> Tile.t) (ts' : grid) :
  update_tile ts x y f = Ok ts' ->
  exists t, tile_at ts x y = Ok t /\ tile_at ts' x y = Ok (f t).
Proof.
  intros H. apply update_tile_Ok in H as (j & i & row & tl & Hj & Hrow & Hi & Htl & ->).
  exists tl. split; apply tile_at_Ok.
  - eauto 10.
  - exists j, i, (<[i := f tl]> row). split_and!.
    + by rewrite length_insert.
    + apply list_lookup_insert_eq. by eapply lookup_lt_Some.
    + by rewrite length_insert.
    + apply list_lookup_insert_eq. by eapply lookup_lt_Some.
Qed.

(** ** The order of floats *)

(** Unfolds the comparisons of one finite case. *)
Ltac cmp_cases :=
  repeat match goal with
  | H : context [Pos.compare_cont Eq ?a ?b] |- _ =>
      change (Pos.compare_cont Eq a b) with (Pos.compare a b) in H
  | |- context [Pos.compare_cont Eq ?a ?b] =>
      change (Pos.compare_cont Eq a b) with (Pos.compare a b)
  | H : context [Z.compare ?a ?b] |- _ => destruct (Z.compare_spec a b)
  | |- context [Z.compare ?a ?b] => destruct (Z.compare_spec a b)
  | H : context [Pos.compare ?a ?b] |- _ => destruct (Pos.compare_spec a b)
  | |- context [Pos.compare ?a ?b] => destruct (Pos.compare_spec a b)
  end; simpl in *; try discriminate; try reflexivity; try lia.

Lemma SFcompare_Lt_trans (x y z : spec_float) :
  SFcompare x y = Some Lt -> SFcompare y z = Some Lt -> SFcompare x z = Some Lt.
Proof.
  destruct x as [sx|sx| |sx mx ex], y as [sy|sy| |sy my ey], z as [sz|sz| |sz mz ez];
    simpl; try discriminate; try done;
    repeat match goal with s : bool |- _ => destruct s end;
    simpl; try discriminate; try done.
  all: intros H1 H2; injection H1 as H1; injection H2 as H2; f_equal; cmp_cases.
Qed.

Lemma SFcompare_Eq_Lt_trans (x y z : spec_float) :
  SFcompare x y = Some Eq -> SFcompare y z = Some Lt -> SFcompare x z = Some Lt.
Proof.
  destruct x as [sx|sx| |sx mx ex], y as [sy|sy| |sy my ey], z as [sz|sz| |sz mz ez];
    simpl; try discriminate; try done;
    repeat match goal with s : bool |- _ => destruct s end;
    simpl; try discriminate; try done.
  all: intros H1 H2; injection H1 as H1; injection H2 as H2; f_equal; cmp_cases.
Qed.

Lemma SFcompare_irrefl (x : spec_float) : SFcompare x x <> Some Lt.
Proof.
  destruct x as [sx|sx| |sx mx ex]; simpl; try discriminate;
    repeat match goal with s : bool |- _ => destruct s end; simpl; try discriminate.
  all: intros H; injection H as H; cmp_cases.
Qed.

Lemma ltb_Lt (x y : float) :
  (x <? y)%float = true <-> SFcompare (Prim2SF x) (Prim2SF y) = Some Lt.
Proof.
  rewrite FloatAxioms.ltb_spec. unfold SFltb.
  destruct (SFcompare _ _) as [[]|]; split; congruence.
Qed.

Lemma eqb_Eq (x y : float) :
  (x =? y)%float = true <-> SFcompare (Prim2SF x) (Prim2SF y) = Some Eq.
Proof.
  rewrite FloatAxioms.eqb_spec. unfold SFeqb.
  destruct (SFcompare _ _) as [[]|]; split; congruence.
Qed.

Lemma float_ltb_irrefl (x : float) : (x <? x)%float = false.
Proof.
  destruct (x <? x)%float eqn:H; [|done].
  apply ltb_Lt in H. by apply SFcompare_irrefl in H.
Qed.

Lemma float_ltb_trans (x y z : float) :
  (x <? y)%float = true -> (y <? z)%float = true -> (x <? z)%float = true.
Proof. rewrite !ltb_Lt. apply SFcompare_Lt_trans. Qed.

Lemma float_eqb_ltb_trans (x y z : float) :
  (x =? y)%float = true -> (y <? z)%float = true -> (x <? z)%float = true.
Proof. rewrite eqb_Eq, !ltb_Lt. apply SFcompare_Eq_Lt_trans. Qed.

Section RiverFacts.
Context `{RT : PyRuntime}.
Import TerrainGenerator.
#[local] Abbreviation Gen := TerrainGenerator.t.

(** ** Tracing a river *)

Lemma _get_neighbors_eq (self : Gen) (x y : Z) :
  _get_neighbors self x y =
  List.filter (in_bounds self) [(x, y + 1); (x + 1, y); (x, y - 1); (x - 1, y)].
Proof.
  unfold _get_neighbors, directions. simpl.
  by replace (x + 0) with x by lia; replace (y + 0) with y by lia;
     replace (x + -1) with (x - 1) by lia; replace (y + -1) with (y - 1) by lia.
Qed.

Lemma in_bounds_spec (self : Gen) (c : coord) :
  in_bounds self c = true <-> 0 <= c.1 < width self /\ 0 <= c.2 < height self.
Proof. unfold in_bounds. rewrite !andb_true_iff. lia. Qed.

Lemma _get_neighbors_spec (self : Gen) (x y : Z) (c : coord) :
  c ∈ _get_neighbors self x y -> in_bounds self c = true /\ adjacent (x, y) c.
Proof.
  rewrite _get_neighbors_eq, list_elem_of_In, filter_In, <- list_elem_of_In.
  intros [Hc Hb]. split; [done|].
  unfold adjacent. set_unfold. destruct Hc as [->|[->|[->|[->|[]]]]]; simpl; lia.
Qed.

(** The loop over the neighbours, started from a state that already
    looked at [done_]. *)
Lemma lowest_loop_spec (self : Gen) (visited : gset coord) (e0 : float)
    (done_ todo : list coord) (st st' : option coord * float) :
  let cands := unvisited visited in
  match st.1 with
  | Some n => first_lowest (elev_at self) e0 (unvisited visited done_) n /\ st.2 = elev_at self n
  | None => (forall m, m ∈ unvisited visited done_ -> (elev_at self m <? e0)%float = false) /\ st.2 = e0
  end ->
  for_each todo (lowest_step self visited) st = Ok st' ->
  match st'.1 with
  | Some n => first_lowest (elev_at self) e0 (cands (done_ ++ todo)) n /\ st'.2 = elev_at self n
  | None => (forall m, m ∈ cands (done_ ++ todo) -> (elev_at self m <? e0)%float = false) /\ st'.2 = e0
  end.
Proof.
  cbv zeta. revert done_ st.
  induction todo as [|c todo IH]; intros done_ st Hst H; simpl in H.
  { injection H as <-. by rewrite app_nil_r. }
  inv_bind H as st1 Hst1.
  replace (done_ ++ c :: todo) with ((done_ ++ [c]) ++ todo) by by rewrite <- app_assoc.
  apply (IH _ st1); [|done]. clear IH H.
  unfold lowest_step in Hst1. unfold unvisited. rewrite List.filter_app. simpl.
  fold (unvisited visited done_).
  destruct (decide (c ∈ visited)) as [Hv|Hv].
  { injection Hst1 as <-. rewrite bool_decide_eq_false_2 by auto. by rewrite app_nil_r. }
  rewrite bool_decide_eq_true_2 by done.
  inv_bind Hst1 as t Ht.
  assert (Tile.elevation t = elev_at self c) as He by (unfold elev_at; by rewrite Ht).
  rewrite He in Hst1. clear Ht He t.
  destruct (elev_at self c <? st.2)%float eqn:Hlt; injection Hst1 as <-; simpl.
  - (* [c] is the new lowest *)
    split; [|done].
    assert ((elev_at self c <? e0)%float = true /\
            forall m, m ∈ unvisited visited done_ ->
              (elev_at self m <? elev_at self c)%float = false /\
              (elev_at self m =? elev_at self c)%float = false) as [Hc0 Hold].
    { destruct st as [[n|] e]; simpl in *.
      - destruct Hst as [(i & Hi & Hn & Hmin & Hfirst) ->]. split.
        + by eapply float_ltb_trans.
        + intros m Hm. specialize (Hmin m Hm). split.
          * destruct (elev_at self m <? elev_at self c)%float eqn:E; [|done].
            by rewrite (float_ltb_trans _ _ _ E Hlt) in Hmin.
          * destruct (elev_at self m =? elev_at self c)%float eqn:E; [|done].
            by rewrite (float_eqb_ltb_trans _ _ _ E Hlt) in Hmin.
      - destruct Hst as [Hnone ->]. split; [done|].
        intros m Hm. specialize (Hnone m Hm). split.
        + destruct (elev_at self m <? elev_at self c)%float eqn:E; [|done].
          by rewrite (float_ltb_trans _ _ _ E Hlt) in Hnone.
        + destruct (elev_at self m =? elev_at self c)%float eqn:E; [|done].
          by rewrite (float_eqb_ltb_trans _ _ _ E Hlt) in Hnone. }
    exists (length (unvisited visited done_)). split_and!.
    + by rewrite lookup_app_r, Nat.sub_diag.
    + done.
    + intros m Hm. apply elem_of_app in Hm as [Hm|Hm].
      * by apply Hold.
      * apply list_elem_of_singleton in Hm as ->. apply float_ltb_irrefl.
    + intros j m Hj Hm. rewrite lookup_app_l in Hm by done.
      apply Hold. by eapply list_elem_of_lookup_2.
  - (* the lowest so far stays *)
    destruct st as [[n|] e]; simpl in *.
    + destruct Hst as [(i & Hi & Hn & Hmin & Hfirst) ->]. split; [|done].
      exists i. split_and!; [by apply lookup_app_l_Some|done| |].
      * intros m Hm. apply elem_of_app in Hm as [Hm|Hm]; [by apply Hmin|].
        by apply list_elem_of_singleton in Hm as ->.
      * intros j m Hj Hm. apply (Hfirst j m Hj).
        apply lookup_lt_Some in Hi. by rewrite lookup_app_l in Hm by lia.
    + destruct Hst as [Hnone ->]. split; [|done].
      intros m Hm. apply elem_of_app in Hm as [Hm|Hm]; [by apply Hnone|].
      by apply list_elem_of_singleton in Hm as ->.
Qed.

Lemma trace_body_spec (self : Gen) (st : trace_state) (r : trace_state + trace_state) :
  trace_body self st = Ok r ->
  exists cur, tile_at (tiles self) (tr_current st).1 (tr_current st).2 = Ok cur /\
    let cands := candidates self (tr_visited st) (tr_current st).1 (tr_current st).2 in
    match r with
    | inl st' =>
        st' = mk_trace (tr_path st) (tr_current st) (tr_visited st) (tr_iterations st + 1) /\
        (Tile.water cur = true \/
         (Tile.water cur = false /\
          forall m, m ∈ cands -> (elev_at self m <? Tile.elevation cur)%float = false))
    | inr st' =>
        Tile.water cur = false /\
        exists n, first_lowest (elev_at self) (Tile.elevation cur) cands n /\
          st' = mk_trace (tr_path st ++ [n]) n ({[n]} ∪ tr_visited st)
                         (tr_iterations st + 1)
    end.
Proof.
  unfold trace_body. simpl. intros H. inv_bind H as cur Hcur. exists cur. split; [done|].
  destruct (Tile.water cur) eqn:Hw.
  { injection H as <-. auto. }
  inv_bind H as res Hres. destruct res as [lowest le].
  rewrite _get_neighbors_eq in Hres.
  apply (lowest_loop_spec self (tr_visited st) (Tile.elevation cur) []) in Hres as Hspec;
    [|by split; [intros m Hm; apply elem_of_nil in Hm|]].
  simpl in Hspec. fold (candidates self (tr_visited st) (tr_current st).1 (tr_current st).2) in Hspec.
  destruct lowest as [n|]; injection H as <-.
  - destruct Hspec as [Hn _]. split; [done|]. by exists n.
  - destruct Hspec as [Hnone _]. split; [done|]. right. by split.
Qed.

Lemma trace_loop_while (fuel : nat) (self : Gen) (max_iterations : Z)
    (st st' : trace_state) :
  max_iterations - tr_iterations st <= Z.of_nat fuel ->
  trace_loop fuel self max_iterations st = Ok st' ->
  trace_while self max_iterations st st'.
Proof.
  revert st. induction fuel as [|fuel IH]; intros st Hfuel H; simpl in H.
  - injection H as <-. apply trace_cap. lia.
  - destruct (Z.ltb_spec (tr_iterations st) max_iterations) as [Hlt|Hge].
    + inv_bind H as r Hr. destruct r as [st1|st1].
      * injection H as <-. by apply trace_break.
      * eapply trace_continue; [done|done|]. apply IH; [|done].
        apply trace_body_spec in Hr as (cur & _ & _ & n & _ & ->). simpl. lia.
    + injection H as <-. apply trace_cap. lia.
Qed.

Lemma trace_start_inv (self : Gen) (x y : Z) :
  trace_inv self (x, y) (trace_start x y).
Proof.
  split; simpl.
  - done.
  - done.
  - intros c. by rewrite elem_of_singleton, list_elem_of_singleton.
  - apply NoDup_singleton.
  - intros [|i] c c' Hc Hc'; simpl in *; done.
  - intros c Hc. left. by apply list_elem_of_singleton in Hc.
  - lia.
  - lia.
Qed.

Lemma trace_body_inv (self : Gen) (start : coord) (st : trace_state)
    (r : trace_state + trace_state) :
  trace_inv self start st -> trace_body self st = Ok r ->
  match r with
  | inl st' => trace_inv self start st' /\ tr_iterations st' = tr_iterations st + 1
  | inr st' =>
      trace_inv self start st' /\ tr_iterations st' = tr_iterations st + 1 /\
      (Z.of_nat (length (tr_path st)) = tr_iterations st + 1 ->
       Z.of_nat (length (tr_path st')) = tr_iterations st' + 1)
  end.
Proof.
  intros [Hhead Hlast Hvis Hnd Hconn Hbnd Hlen Hit] H.
  apply trace_body_spec in H as (cur & Hcur & H).
  destruct r as [st'|st'].
  - destruct H as [-> _]. split; [|done]. split; simpl; try done; lia.
  - destruct H as (_ & n & (i & Hi & _) & ->). simpl.
    apply list_elem_of_lookup_2 in Hi.
    unfold candidates, unvisited in Hi.
    rewrite list_elem_of_In, filter_In, <- list_elem_of_In in Hi.
    destruct Hi as [Hn Hfresh]. apply bool_decide_eq_true in Hfresh.
    rewrite <- _get_neighbors_eq in Hn. apply _get_neighbors_spec in Hn as [Hnb Hadj].
    split; [|split; [done|by rewrite length_app; simpl; lia]].
    split; simpl.
    + destruct (tr_path st); [done|by simpl in *].
    + by rewrite last_snoc.
    + intros c. rewrite elem_of_union, elem_of_singleton, elem_of_app, list_elem_of_singleton.
      rewrite Hvis. tauto.
    + apply NoDup_app. split_and!; [done| |apply NoDup_singleton].
      intros c Hc Hc'. apply list_elem_of_singleton in Hc' as ->. by apply Hfresh, Hvis.
    + intros j c c' Hc Hc'.
      destruct (decide (S j < length (tr_path st))%nat) as [Hj|Hj].
      * rewrite lookup_app_l in Hc by lia. rewrite lookup_app_l in Hc' by lia. eauto.
      * assert (S j = length (tr_path st)) as Hj'.
        { apply lookup_lt_Some in Hc'. rewrite length_app in Hc'. simpl in Hc'. lia. }
        rewrite lookup_app_l in Hc by lia.
        rewrite lookup_app_r, Hj', Nat.sub_diag in Hc' by lia. injection Hc' as <-.
        rewrite last_lookup in Hlast. rewrite <- Hj' in Hlast. simpl in Hlast.
        assert (c = tr_current st) as -> by congruence.
        by destruct (tr_current st).
    + intros c Hc. apply elem_of_app in Hc as [Hc|Hc]; [auto|].
      apply list_elem_of_singleton in Hc as ->. auto.
    + rewrite length_app. simpl. lia.
    + lia.
Qed.

(** The loop keeps the invariant, and turns at most [max_iterations]
    times. *)
Lemma trace_while_inv (self : Gen) (start : coord) (max_iterations : Z)
    (st st' : trace_state) :
  trace_while self max_iterations st st' ->
  trace_inv self start st ->
  trace_inv self start st' /\
  (tr_iterations st <= Z.max 0 max_iterations ->
   tr_iterations st' <= Z.max 0 max_iterations).
Proof.
  induction 1 as [st Hcap|st st' Hlt Hbody|st st1 st' Hlt Hbody Hwhile IH]; intros Hinv.
  - done.
  - apply (trace_body_inv _ start) in Hbody as [Hinv' Hit]; [|done]. split; [done|lia].
  - apply (trace_body_inv _ start) in Hbody as (Hinv1 & Hit & _); [|done].
    destruct (IH Hinv1) as [Hinv' Hle]. split; [done|]. intros _. apply Hle. lia.
Qed.
End RiverFacts.

Section StageFacts.
Context `{RT : PyRuntime}.
Import TerrainGenerator.
#[local] Abbreviation Gen := TerrainGenerator.t.

Lemma for_each_ext {A S} (xs : list A) (f g : A -> S -> Result S) (s : S) :
  (forall x s, x ∈ xs -> f x s = g x s) -> for_each xs f s = for_each xs g s.
Proof.
  revert s. induction xs as [|x xs IH]; intros s H; simpl; [done|].
  rewrite H by left. destruct (g x s); simpl; [|done].
  apply IH. intros y s' Hy. apply H. by right.
Qed.

#[global] Instance same_config_equiv : Equivalence same_config.
Proof.
  unfold same_config. split.
  - intros s. tauto.
  - intros s1 s2 H. destruct_and!. split_and!; congruence.
  - intros s1 s2 s3 H1 H2. destruct_and!. split_and!; congruence.
Qed.

Lemma same_config_set_tiles (ts : grid) (self : Gen) : same_config self (set_tiles ts self).
Proof. by destruct self. Qed.
Lemma same_config_set_rivers (rs : list River.t) (self : Gen) :
  same_config self (set_rivers rs self).
Proof. by destruct self. Qed.
Lemma same_config_set_rng (r : rng_state) (self : Gen) : same_config self (set_rng r self).
Proof. by destruct self. Qed.

Lemma in_bounds_config (s1 s2 : Gen) (c : coord) :
  same_config s1 s2 -> in_bounds s1 c = in_bounds s2 c.
Proof. intros (Hw & Hh & _). unfold in_bounds. by rewrite Hw, Hh. Qed.

Lemma river_only_same_terrain (t t' : Tile.t) : river_only t t' -> same_terrain t t'.
Proof. intros [-> _]. by destruct t. Qed.

(** ** Tracing does not raise on a well-formed grid *)

Lemma trace_body_total (self : Gen) (st : trace_state) :
  grid_wf self -> in_bounds self (tr_current st) = true ->
  exists r, trace_body self st = Ok r.
Proof.
  intros Hwf Hb. apply in_bounds_spec in Hb as [Hx Hy].
  destruct (tile_at_total _ _ _ _ _ Hwf Hx Hy) as [cur Hcur].
  unfold trace_body. simpl. rewrite Hcur. simpl.
  destruct (Tile.water cur); [eauto|].
  destruct (for_each_total (fun _ => True)
              (_get_neighbors self (tr_current st).1 (tr_current st).2)
              (lowest_step self (tr_visited st)) (None, Tile.elevation cur) I)
    as ([lowest le] & -> & _).
  - intros n acc Hn _. apply _get_neighbors_spec in Hn as [Hn _].
    apply in_bounds_spec in Hn as [Hnx Hny].
    destruct (tile_at_total _ _ _ _ _ Hwf Hnx Hny) as [t Ht].
    unfold lowest_step. destruct (decide _); [eauto|]. rewrite Ht. simpl.
    destruct (_ <? _)%float; eauto.
  - simpl. destruct lowest; eauto.
Qed.

Lemma trace_loop_total (fuel : nat) (self : Gen) (start : coord) (max_iterations : Z)
    (st : trace_state) :
  grid_wf self -> in_bounds self start = true -> trace_inv self start st ->
  exists st', trace_loop fuel self max_iterations st = Ok st'.
Proof.
  intros Hwf Hstart. revert st. induction fuel as [|fuel IH]; intros st Hinv; simpl; [eauto|].
  destruct (_ <? _); [|eauto].
  assert (in_bounds self (tr_current st) = true) as Hcur.
  { destruct (inv_bounds _ _ _ Hinv (tr_current st)) as [->|]; [|done|done].
    apply inv_last in Hinv. rewrite last_lookup in Hinv. by eapply list_elem_of_lookup_2. }
  destruct (trace_body_total self st Hwf Hcur) as [r Hr]. rewrite Hr. simpl.
  destruct r as [st'|st']; [eauto|].
  apply IH. by apply (trace_body_inv self start) in Hr as (? & _).
Qed.

Lemma _trace_river_path_total (self : Gen) (x y : Z) :
  grid_wf self -> in_bounds self (x, y) = true ->
  exists path, _trace_river_path self x y = Ok path.
Proof.
  intros Hwf Hb. unfold _trace_river_path.
  destruct (trace_loop_total (Z.to_nat (width self * height self)) self (x, y)
              (width self * height self) (trace_start x y) Hwf Hb (trace_start_inv self x y))
    as [st' ->].
  simpl. eauto.
Qed.

(** What a traced path is. *)
Lemma _trace_river_path_spec (self : Gen) (x y : Z) (path : list coord) :
  _trace_river_path self x y = Ok path ->
  exists st', trace_while self (width self * height self) (trace_start x y) st' /\
    trace_inv self (x, y) st' /\ path = tr_path st' /\
    tr_iterations st' <= Z.max 0 (width self * height self).
Proof.
  unfold _trace_river_path. intros H. inv_bind H as st' Hst'. injection H as <-.
  apply trace_loop_while in Hst'; [|simpl; lia].
  exists st'. destruct (trace_while_inv self (x, y) _ _ _ Hst' (trace_start_inv self x y))
    as [Hinv Hle].
  split_and!; [done|done|done|]. apply Hle. simpl. lia.
Qed.

(** ** Tracing reads elevation and water only *)

Lemma lowest_step_terrain (s1 s2 : Gen) (visited : gset coord) (n : coord)
    (st : option coord * float) :
  grid_rel same_terrain (tiles s1) (tiles s2) ->
  lowest_step s1 visited n st = lowest_step s2 visited n st.
Proof.
  intros HR. unfold lowest_step. destruct (decide _); [done|].
  pose proof (tile_at_rel _ _ _ n.1 n.2 HR) as Ht.
  destruct (tile_at (tiles s1) _ _) as [t1|e1], (tile_at (tiles s2) _ _) as [t2|e2];
    try done; simpl; [|by subst].
  destruct Ht as [-> _]. done.
Qed.

Lemma trace_body_terrain (s1 s2 : Gen) (st : trace_state) :
  same_config s1 s2 -> grid_rel same_terrain (tiles s1) (tiles s2) ->
  trace_body s1 st = trace_body s2 st.
Proof.
  intros Hc HR. unfold trace_body. simpl.
  pose proof (tile_at_rel _ _ _ (tr_current st).1 (tr_current st).2 HR) as Ht.
  destruct (tile_at (tiles s1) _ _) as [t1|e1], (tile_at (tiles s2) _ _) as [t2|e2];
    try done; simpl; [|by subst].
  destruct Ht as [He Hw]. rewrite Hw, He. destruct (Tile.water t2); [done|].
  assert (_get_neighbors s1 (tr_current st).1 (tr_current st).2 =
          _get_neighbors s2 (tr_current st).1 (tr_current st).2) as ->.
  { unfold _get_neighbors. apply filter_ext. intros c. by apply in_bounds_config. }
  erewrite for_each_ext; [reflexivity|].
  intros n acc _. by apply lowest_step_terrain.
Qed.

Lemma _trace_river_path_terrain (s1 s2 : Gen) (x y : Z) :
  same_config s1 s2 -> grid_rel same_terrain (tiles s1) (tiles s2) ->
  _trace_river_path s1 x y = _trace_river_path s2 x y.
Proof.
  intros Hc HR. unfold _trace_river_path.
  destruct Hc as (Hw & Hh & Hrest). rewrite Hw, Hh.
  assert (forall fuel m st, trace_loop fuel s1 m st = trace_loop fuel s2 m st) as ->; [|done].
  induction fuel as [|fuel IH]; intros m st; simpl; [done|].
  destruct (_ <? _); [|done].
  rewrite (trace_body_terrain s1 s2) by (unfold same_config; auto).
  destruct (trace_body s2 st) as [[?|?]|]; simpl; auto.
Qed.
End StageFacts.

Section RiverStage.
Context `{RT : PyRuntime}.
Import TerrainGenerator.
#[local] Abbreviation Gen := TerrainGenerator.t.

(** ** Marking a path *)

Lemma mark_river_spec (path : list coord) (ts ts' : grid) :
  mark_river path ts = Ok ts' ->
  grid_rel river_only ts ts' /\
  forall c, c ∈ path -> exists t, tile_at ts' c.1 c.2 = Ok t /\ Tile.river t = true.
Proof.
  revert ts. induction path as [|c path IH]; intros ts H; simpl in H.
  - injection H as <-. split; [reflexivity|]. intros c Hc. by apply elem_of_nil in Hc.
  - inv_bind H as ts1 Hts1. destruct (IH _ H) as [HR Hmarked].
    assert (grid_rel river_only ts ts1) as HR1.
    { eapply (update_tile_rel river_only); [|exact Hts1].
      intros t. split; [by destruct t|done]. }
    split; [by etrans|].
    intros c' Hc'. apply elem_of_cons in Hc' as [->|Hc']; [|auto].
    apply update_tile_read in Hts1 as (t & _ & Ht1).
    pose proof (tile_at_rel _ _ _ c.1 c.2 HR) as Hrel. rewrite Ht1 in Hrel.
    destruct (tile_at ts' c.1 c.2) as [t'|]; [|done].
    exists t'. split; [done|]. by apply Hrel.
Qed.

Lemma mark_river_total (w h : Z) (path : list coord) (ts : grid) :
  grid_dims w h ts ->
  (forall c, c ∈ path -> 0 <= c.1 < w /\ 0 <= c.2 < h) ->
  exists ts', mark_river path ts = Ok ts'.
Proof.
  intros Hd Hpath.
  destruct (for_each_total (grid_dims w h) path
              (fun c ts => update_tile ts c.1 c.2 (Tile.set_river true)) ts Hd)
    as (ts' & H & _); [|eauto].
  intros c ts1 Hc Hd1. destruct (Hpath c Hc) as [Hx Hy].
  destruct (update_tile_total w h ts1 c.1 c.2 (Tile.set_river true) Hd1 Hx Hy) as [ts2 H2].
  exists ts2. split; [done|]. by eapply update_tile_dims.
Qed.

(** ** The sources *)

Lemma elem_of_range (n x : Z) : x ∈ range n <-> 0 <= x < n.
Proof. unfold range, range2. rewrite elem_of_seqZ. lia. Qed.

Lemma elem_of_all_coords (self : Gen) (c : coord) :
  c ∈ all_coords self <-> in_bounds self c = true.
Proof.
  unfold all_coords. rewrite in_bounds_spec, list_elem_of_In, in_flat_map. split.
  - intros (y & Hy & Hc). apply list_elem_of_In in Hy, Hc.
    apply list_elem_of_fmap in Hc as (x & -> & Hx).
    apply elem_of_range in Hy, Hx. done.
  - intros [Hx Hy]. exists c.2. rewrite <- !list_elem_of_In. split.
    + by apply elem_of_range.
    + apply list_elem_of_fmap. exists c.1. split; [by destruct c|by apply elem_of_range].
Qed.

Lemma source_row_spec (ts : grid) (y : Z) (xs : list Z) (acc r : list coord) :
  for_each xs (fun x sources =>
    tile ← tile_at ts x y;
    if is_source tile then Ok (sources ++ [(x, y)]) else Ok sources) acc = Ok r ->
  r = acc ++ List.filter (eligible_at ts) (map (fun x => (x, y)) xs).
Proof.
  revert acc. induction xs as [|x xs IH]; intros acc H; simpl in H.
  - injection H as <-. simpl. by rewrite app_nil_r.
  - inv_bind H as acc1 Hacc1. inv_bind Hacc1 as t Ht. apply IH in H as ->.
    simpl. unfold eligible_at at 2. simpl. rewrite Ht.
    destruct (is_source t); injection Hacc1 as <-; [|done].
    by rewrite <- app_assoc.
Qed.

Lemma source_rows_spec (ts : grid) (xs ys : list Z) (acc r : list coord) :
  for_each ys (fun y sources =>
    for_each xs (fun x sources =>
      tile ← tile_at ts x y;
      if is_source tile then Ok (sources ++ [(x, y)]) else Ok sources) sources) acc = Ok r ->
  r = acc ++ List.filter (eligible_at ts)
               (flat_map (fun y => map (fun x => (x, y)) xs) ys).
Proof.
  revert acc. induction ys as [|y ys IH]; intros acc H; simpl in H.
  - injection H as <-. simpl. by rewrite app_nil_r.
  - inv_bind H as acc1 Hacc1. apply source_row_spec in Hacc1 as ->.
    apply IH in H as ->. simpl. by rewrite List.filter_app, app_assoc.
Qed.

Lemma river_sources_spec (self : Gen) (sources : list coord) :
  river_sources self = Ok sources -> sources = eligible self.
Proof. intros H. by apply source_rows_spec in H. Qed.

Lemma river_sources_total (self : Gen) :
  grid_wf self -> exists sources, river_sources self = Ok sources.
Proof.
  intros Hwf. unfold river_sources.
  destruct (for_each_total (fun _ => True) (range (height self))
    (fun y sources => for_each (range (width self)) (fun x sources =>
       tile ← tile_at (tiles self) x y;
       if is_source tile then Ok (sources ++ [(x, y)]) else Ok sources) sources) [] I)
    as (r & -> & _); [|eauto].
  intros y acc Hy _. apply elem_of_range in Hy.
  destruct (for_each_total (fun _ => True) (range (width self))
    (fun x sources =>
       tile ← tile_at (tiles self) x y;
       if is_source tile then Ok (sources ++ [(x, y)]) else Ok sources) acc I)
    as (r & -> & _); [|eauto].
  intros x acc' Hx _. apply elem_of_range in Hx.
  destruct (tile_at_total _ _ _ _ _ Hwf Hx Hy) as [t ->]. simpl.
  destruct (is_source t); eauto.
Qed.

Lemma eligible_in_bounds (self : Gen) (c : coord) :
  c ∈ eligible self -> in_bounds self c = true.
Proof.
  unfold eligible. rewrite list_elem_of_In, filter_In, <- list_elem_of_In.
  intros [Hc _]. by apply elem_of_all_coords.
Qed.

Lemma eligible_terrain (s1 s2 : Gen) :
  same_config s1 s2 -> grid_rel same_terrain (tiles s1) (tiles s2) ->
  eligible s1 = eligible s2.
Proof.
  intros Hc HR. unfold eligible, all_coords.
  destruct Hc as (-> & -> & _). apply filter_ext. intros c.
  unfold eligible_at. pose proof (tile_at_rel _ _ _ c.1 c.2 HR) as Ht.
  destruct (tile_at (tiles s1) _ _) as [t1|e1], (tile_at (tiles s2) _ _) as [t2|e2];
    try done.
  destruct Ht as [He Hw]. unfold is_source. by rewrite He, Hw.
Qed.
End RiverStage.

Section RiverLoop.
Context `{RT : PyRuntime}.
Import TerrainGenerator.
#[local] Abbreviation Gen := TerrainGenerator.t.

Lemma last_default {A} (l : list A) (d x : A) : last l = Some x -> List.last l d = x.
Proof.
  induction l as [|a [|b l] IH]; intros H; simpl in *; [done|congruence|].
  by apply IH.
Qed.

Lemma length_omap_le {A B} (f : A -> option B) (l : list A) :
  (length (omap f l) <= length l)%nat.
Proof. induction l as [|a l IH]; csimpl; [done|]. destruct (f a); csimpl; lia. Qed.

Lemma river_valid_mono (ts ts' : grid) (r : River.t) :
  grid_rel river_only ts ts' -> river_valid ts r -> river_valid ts' r.
Proof.
  intros HR [Hlong Hconn Hnd Hmark Hsrc Hmouth Hlen]. split; try done.
  intros c Hc. destruct (Hmark c Hc) as (t & Ht & Hriver).
  pose proof (tile_at_rel _ _ _ c.1 c.2 HR) as Hrel. rewrite Ht in Hrel.
  destruct (tile_at ts' c.1 c.2) as [t'|]; [|done].
  exists t'. split; [done|]. by apply Hrel.
Qed.

(** ** One selected source *)

Lemma river_step_spec (item : Z * coord) (s s' : Gen) :
  river_step item s = Ok s' ->
  same_config s s' /\ rng s' = rng s /\ grid_rel river_only (tiles s) (tiles s') /\
  rivers s' = rivers s ++ option_list (kept_river s item) /\
  (forall r, kept_river s item = Some r -> river_valid (tiles s') r).
Proof.
  destruct item as [idx [sx sy]]. unfold river_step, kept_river. simpl.
  intros H. inv_bind H as path Hpath. rewrite Hpath.
  destruct (10 <? Z.of_nat (length path)) eqn:Hlong.
  - inv_bind H as ts Hts. injection H as <-.
    apply mark_river_spec in Hts as [HR Hmark].
    destruct s; simpl in *. split_and!; try done.
    intros r [= <-].
    apply _trace_river_path_spec in Hpath as (st' & _ & Hinv & -> & _).
    destruct Hinv as [Hhd Hlast Hvis Hnodup Hconn Hbnd Hlen Hiter].
    split; simpl; try done.
    + apply Z.ltb_lt in Hlong. lia.
    + rewrite Hlast. f_equal. symmetry. by apply last_default.
  - injection H as <-. simpl. rewrite app_nil_r. split_and!; try done; reflexivity.
Qed.

(** ** The loop over the selected sources *)

Lemma kept_river_terrain (s1 s2 : Gen) (item : Z * coord) :
  same_config s1 s2 -> grid_rel river_only (tiles s1) (tiles s2) ->
  kept_river s1 item = kept_river s2 item.
Proof.
  intros Hc HR. unfold kept_river.
  rewrite (_trace_river_path_terrain s1 s2); [done|done|].
  eapply grid_rel_impl; [|exact HR]. apply river_only_same_terrain.
Qed.

Lemma rivers_loop_spec (s0 : Gen) (items : list (Z * coord)) (s s' : Gen) :
  same_config s0 s -> grid_rel river_only (tiles s0) (tiles s) ->
  for_each items river_step s = Ok s' ->
  same_config s0 s' /\ rng s' = rng s /\ grid_rel river_only (tiles s0) (tiles s') /\
  rivers s' = rivers s ++ omap (kept_river s0) items /\
  (forall r, r ∈ omap (kept_river s0) items -> river_valid (tiles s') r).
Proof.
  revert s. induction items as [|item items IH]; intros s Hc HR H; simpl in H.
  - injection H as <-. simpl. rewrite app_nil_r. split_and!; try done.
    intros r Hr. by apply elem_of_nil in Hr.
  - inv_bind H as s1 Hs1.
    apply river_step_spec in Hs1 as (Hc1 & Hrng1 & HR1 & Hrivers1 & Hvalid1).
    rewrite <- (kept_river_terrain s0 s) in Hrivers1, Hvalid1 by done.
    destruct (IH s1) as (Hc' & Hrng' & HR' & Hrivers' & Hvalid'); [by etrans|by etrans|done|].
    split_and!; [done|congruence|done| |].
    + rewrite Hrivers', Hrivers1. simpl.
      destruct (kept_river s0 item); simpl; by rewrite <- app_assoc.
    + intros r Hr. simpl in Hr. destruct (kept_river s0 item) as [r0|] eqn:Hk; [|auto].
      apply elem_of_cons in Hr as [->|Hr]; [|auto].
      eapply (river_valid_mono (tiles s1)); [|by apply Hvalid1].
      (* the later steps only mark more tiles *)
      eapply (for_each_inv (fun s2 => grid_rel river_only (tiles s1) (tiles s2)));
        [reflexivity| |exact H].
      intros it s2 s3 _ HR2 Hstep. apply river_step_spec in Hstep as (_ & _ & HR3 & _).
      by etrans.
Qed.

(** ** [_generate_rivers] *)

Lemma _generate_rivers_spec (self self' : Gen) :
  _generate_rivers self = Ok self' ->
  0 <= actual_river_count self /\
  same_config self self' /\ grid_rel river_only (tiles self) (tiles self') /\
  rivers self' = rivers self ++ omap (kept_river self) (enumerate (selected_sources self)) /\
  (forall r, r ∈ omap (kept_river self) (enumerate (selected_sources self)) ->
             river_valid (tiles self') r).
Proof.
  unfold _generate_rivers. intros H. inv_bind H as sources Hsources.
  apply river_sources_spec in Hsources as ->.
  fold (actual_river_count self) in H. inv_bind H as sel Hsel. destruct sel as [sel s1].
  unfold sample_sources in Hsel.
  destruct (Z.leb_spec 0 (actual_river_count self)) as [Hk|]; [|done].
  destruct (_ <=? _); [|done]. simpl in Hsel.
  destruct (rng_sample _ _ _) as [picks rng1] eqn:Hpicks. injection Hsel as <- <-.
  apply (rivers_loop_spec self) in H as (Hc & _ & HR & Hrivers & Hvalid).
  - unfold selected_sources. rewrite Hpicks. simpl.
    split_and!; [done|done|by destruct self|by destruct self|by destruct self].
  - apply same_config_set_rng.
  - destruct self; reflexivity.
Qed.
End RiverLoop.

Section TileLoops.
Context `{RT : PyRuntime}.
Import TerrainGenerator.
#[local] Abbreviation Gen := TerrainGenerator.t.

(** ** Loops over the tiles *)

(** The two nested loops visit the coordinates of [all_coords]. *)
Lemma for_each_grid {S} (xs ys : list Z) (body : coord -> S -> Result S) (s : S) :
  for_each ys (fun y s => for_each xs (fun x s => body (x, y) s) s) s =
  for_each (flat_map (fun y => map (fun x => (x, y)) xs) ys) body s.
Proof.
  revert s. induction ys as [|y ys IH]; intros s; simpl; [done|].
  rewrite for_each_app.
  assert (forall s, for_each xs (fun x s => body (x, y) s) s =
                    for_each (map (fun x => (x, y)) xs) body s) as ->.
  { clear. induction xs as [|x xs IHx]; intros s; simpl; [done|].
    destruct (body (x, y) s); simpl; auto. }
  destruct (for_each (map _ xs) body s); simpl; auto.
Qed.

Lemma NoDup_range (n : Z) : NoDup (range n).
Proof. apply NoDup_seqZ. Qed.

Lemma NoDup_all_coords (self : Gen) : NoDup (all_coords self).
Proof.
  unfold all_coords. generalize (NoDup_range (height self)).
  generalize (range (height self)) as ys. induction ys as [|y ys IH]; intros Hnd; simpl.
  - constructor.
  - apply NoDup_cons in Hnd as [Hy Hnd]. apply NoDup_app. split_and!.
    + apply NoDup_fmap_2; [|apply NoDup_range]. by intros x1 x2 [= ->].
    + intros c Hc Hc'. apply list_elem_of_fmap in Hc as (x & -> & _).
      apply list_elem_of_In, in_flat_map in Hc' as (y' & Hy' & Hc').
      apply list_elem_of_In in Hy', Hc'. apply list_elem_of_fmap in Hc' as (x' & [= -> ->] & _).
      done.
    + by apply IH.
Qed.

(** An update leaves the other tiles alone. *)
Lemma update_tile_other (ts : grid) (x y : Z) (f : Tile.t -> Tile.t) (ts' : grid)
    (x' y' : Z) :
  update_tile ts x y f = Ok ts' ->
  0 <= x -> 0 <= y -> 0 <= x' -> 0 <= y' -> (x', y') <> (x, y) ->
  tile_at ts' x' y' = tile_at ts x' y'.
Proof.
  intros H Hx Hy Hx' Hy' Hne.
  apply update_tile_Ok in H as (j & i & row & tl & Hj & Hrow & Hi & Htl & ->).
  apply py_index_Ok in Hj as [[_ ->]|[? _]]; [|lia].
  apply py_index_Ok in Hi as [[_ ->]|[? _]]; [|lia].
  unfold tile_at, py_getitem.
  rewrite !length_insert.
  destruct (Z.ltb_spec y' 0); [lia|]. destruct (Z.leb_spec 0 y'); [|lia].
  destruct (Z.ltb_spec x' 0); [lia|]. destruct (Z.leb_spec 0 x'); [|lia].
  destruct (decide (Z.to_nat y' = Z.to_nat y)) as [Heq|Hney].
  - rewrite Heq, list_lookup_insert_eq by (by eapply lookup_lt_Some).
    rewrite Hrow. simpl.
    rewrite list_lookup_insert_ne; [done|]. intros Heq'.
    apply Hne. f_equal; lia.
  - by rewrite list_lookup_insert_ne.
Qed.

Section StoreLoop.
Context {V : Type} (compute : Gen -> coord -> Result V)
        (store : V -> Tile.t -> Tile.t) (R : Tile.t -> Tile.t -> Prop).
Context `{!PreOrder R}.
Hypothesis store_R : forall v t, R t (store v t).
Hypothesis compute_R : forall s1 s2 c,
  same_config s1 s2 -> grid_rel R (tiles s1) (tiles s2) -> compute s1 c = compute s2 c.

Lemma store_step (c : coord) (s s' : Gen) :
  (v ← compute s c; ts ← update_tile (tiles s) c.1 c.2 (store v); Ok (set_tiles ts s))
    = Ok s' ->
  same_config s s' /\ rng s' = rng s /\ rivers s' = rivers s /\
  grid_rel R (tiles s) (tiles s') /\
  exists v ts, compute s c = Ok v /\
    update_tile (tiles s) c.1 c.2 (store v) = Ok ts /\ tiles s' = ts.
Proof using store_R PreOrder0.
  intros H. inv_bind H as v Hv. inv_bind H as ts Hts. injection H as <-.
  destruct s; simpl in *. split_and!; try done.
  - by eapply (update_tile_rel R); [apply store_R|].
  - eauto.
Qed.

Lemma store_loop_frame (cs : list coord) (s s' : Gen) :
  store_loop compute store cs s = Ok s' ->
  same_config s s' /\ rng s' = rng s /\ rivers s' = rivers s /\
  grid_rel R (tiles s) (tiles s').
Proof using store_R PreOrder0.
  apply (for_each_inv (fun s1 => same_config s s1 /\ rng s1 = rng s /\
                                  rivers s1 = rivers s /\ grid_rel R (tiles s) (tiles s1))).
  - split_and!; reflexivity.
  - intros c s1 s2 _ (Hc & Hrng & Hriv & HR) H.
    apply store_step in H as (Hc' & Hrng' & Hriv' & HR' & _).
    split_and!; [by etrans|congruence|congruence|by etrans].
Qed.

Lemma store_loop_untouched (cs : list coord) (s s' : Gen) (c : coord) :
  store_loop compute store cs s = Ok s' ->
  (forall c', c' ∈ cs -> 0 <= c'.1 /\ 0 <= c'.2) -> 0 <= c.1 -> 0 <= c.2 -> c ∉ cs ->
  tile_at (tiles s') c.1 c.2 = tile_at (tiles s) c.1 c.2.
Proof using store_R PreOrder0.
  intros H Hcs Hx Hy Hc.
  apply (for_each_inv (fun s1 => tile_at (tiles s1) c.1 c.2 = tile_at (tiles s) c.1 c.2))
    in H; [done|done|].
  intros c' s1 s2 Hc' Hs1 Hstep.
  apply store_step in Hstep as (_ & _ & _ & _ & v & ts & _ & Hts & ->).
  rewrite <- Hs1. destruct (Hcs c' Hc') as [Hx' Hy'].
  eapply update_tile_other; [exact Hts|done..|].
  destruct c, c'. simpl. intros [= -> ->]. done.
Qed.

(** After the loop every visited tile holds the value computed for it
    on the grid the loop started from. *)
Lemma store_loop_spec (cs : list coord) (s s' : Gen) :
  store_loop compute store cs s = Ok s' ->
  NoDup cs -> (forall c, c ∈ cs -> 0 <= c.1 /\ 0 <= c.2) ->
  forall c, c ∈ cs ->
    exists v t, compute s c = Ok v /\ tile_at (tiles s) c.1 c.2 = Ok t /\
                tile_at (tiles s') c.1 c.2 = Ok (store v t).
Proof using store_R compute_R PreOrder0.
  revert s. induction cs as [|c0 cs IH]; intros s H Hnd Hcs c Hc.
  { by apply elem_of_nil in Hc. }
  apply NoDup_cons in Hnd as [Hc0 Hnd].
  unfold store_loop in H. simpl in H. inv_bind H as s1 Hs1.
  fold (store_loop compute store cs s1) in H.
  pose proof Hs1 as Hstep.
  apply store_step in Hstep as (Hcfg & _ & _ & HR & v & ts & Hv & Hts & Htiles).
  assert (forall c', c' ∈ cs -> 0 <= c'.1 /\ 0 <= c'.2) as Hcs'.
  { intros c' Hc'. apply Hcs. by right. }
  destruct (Hcs c0) as [Hx0 Hy0]; [left|].
  apply elem_of_cons in Hc as [->|Hc].
  - apply update_tile_read in Hts as (t & Ht & Ht'). exists v, t. split_and!; [done..|].
    rewrite (store_loop_untouched cs s1 s' c0 H); [by rewrite Htiles|done..].
  - destruct (IH s1 H Hnd Hcs' c Hc) as (v' & t' & Hv' & Ht' & Hfinal).
    exists v', t'. split_and!; [|  |done].
    + by rewrite (compute_R s s1).
    + rewrite <- Ht', Htiles. symmetry.
      destruct (Hcs' c Hc) as [Hx Hy].
      eapply update_tile_other; [exact Hts|done..|].
      destruct c, c0. simpl. intros [= -> ->]. done.
Qed.

Lemma store_loop_total (cs : list coord) (s : Gen) :
  grid_wf s -> (forall c, c ∈ cs -> in_bounds s c = true) ->
  (forall s1 c, same_config s s1 -> grid_wf s1 -> c ∈ cs -> exists v, compute s1 c = Ok v) ->
  exists s', store_loop compute store cs s = Ok s'.
Proof using store_R PreOrder0.
  intros Hwf Hcs Hcomp.
  destruct (for_each_total (fun s1 => same_config s s1 /\ grid_wf s1) cs
    (fun c self =>
       v ← compute self c;
       ts ← update_tile (tiles self) c.1 c.2 (store v);
       Ok (set_tiles ts self)) s) as (s' & H & _); [by split| |by exists s'].
  intros c s1 Hc [Hcfg Hwf1].
  destruct (Hcomp s1 c Hcfg Hwf1 Hc) as [v Hv]. rewrite Hv. simpl.
  specialize (Hcs c Hc). rewrite (in_bounds_config s s1) in Hcs by done.
  apply in_bounds_spec in Hcs as [Hx Hy].
  destruct (update_tile_total _ _ _ _ _ (store v) Hwf1 Hx Hy) as [ts Hts].
  rewrite Hts. simpl. eexists. split; [done|]. split.
  - etrans; [exact Hcfg|]. apply same_config_set_tiles.
  - unfold grid_wf. destruct s1; simpl in *. by eapply update_tile_dims.
Qed.
End StoreLoop.
End TileLoops.

Section Climate.
Context `{RT : PyRuntime}.
Import TerrainGenerator.
#[local] Abbreviation Gen := TerrainGenerator.t.

(** ** Climate *)

Lemma float_ltb_asym (x y : float) : (x <? y)%float = true -> (y <? x)%float = false.
Proof.
  intros H. destruct (y <? x)%float eqn:H'; [|done].
  by rewrite <- (float_ltb_irrefl x), (float_ltb_trans x y x).
Qed.

(** The clamped value lies in [0, 1], whatever the argument. *)
Lemma clamp01_range (v : float) :
  (clamp01 v <? 0)%float = false /\ (1 <? clamp01 v)%float = false.
Proof.
  unfold clamp01, py_max, py_min.
  destruct (v <? 1)%float eqn:H1.
  - destruct (0 <? v)%float eqn:H0.
    + split; by apply float_ltb_asym.
    + done.
  - done.
Qed.

Lemma moisture_only_fields (t t' : Tile.t) :
  moisture_only t t' ->
  Tile.elevation t' = Tile.elevation t /\ Tile.water t' = Tile.water t /\
  Tile.river t' = Tile.river t.
Proof. intros ->. by destruct t. Qed.

Lemma water_scan_step_rel (s1 s2 : Gen) (x y dy dx : Z) (md : option Z) :
  same_config s1 s2 -> grid_rel moisture_only (tiles s1) (tiles s2) ->
  water_scan_step s1 x y dy dx md = water_scan_step s2 x y dy dx md.
Proof.
  intros Hc HR. unfold water_scan_step.
  rewrite (in_bounds_config s1 s2) by done. destruct (in_bounds s2 _); [|done].
  pose proof (tile_at_rel _ _ _ (x + dx) (y + dy) HR) as Ht.
  destruct (tile_at (tiles s1) _ _) as [t1|e1], (tile_at (tiles s2) _ _) as [t2|e2];
    try done; simpl; [|by subst].
  apply moisture_only_fields in Ht as (_ & -> & ->). done.
Qed.

Lemma _distance_to_water_rel (s1 s2 : Gen) (x y : Z) :
  same_config s1 s2 -> grid_rel moisture_only (tiles s1) (tiles s2) ->
  _distance_to_water s1 x y = _distance_to_water s2 x y.
Proof.
  intros Hc HR. unfold _distance_to_water.
  erewrite for_each_ext; [reflexivity|]. intros dy md _.
  apply for_each_ext. intros dx md' _. by apply water_scan_step_rel.
Qed.

Lemma _calculate_rain_shadow_rel (s1 s2 : Gen) (x y : Z) :
  same_config s1 s2 -> grid_rel moisture_only (tiles s1) (tiles s2) ->
  _calculate_rain_shadow s1 x y = _calculate_rain_shadow s2 x y.
Proof.
  intros Hc HR. unfold _calculate_rain_shadow.
  assert (prevailing_wind s1 = prevailing_wind s2) as -> by (unfold same_config in Hc; tauto).
  apply for_each_ext. intros i mb _. unfold rain_shadow_step.
  rewrite (in_bounds_config s1 s2) by done. destruct (in_bounds s2 _); [|done].
  match goal with |- context [tile_at (tiles s1) ?a ?b] =>
    pose proof (tile_at_rel _ _ _ a b HR) as Ht;
    destruct (tile_at (tiles s1) a b) as [t1|e1], (tile_at (tiles s2) a b) as [t2|e2]
  end; try done; simpl; [|by subst].
  apply moisture_only_fields in Ht as (-> & _). done.
Qed.

Lemma tile_moisture_rel (s1 s2 : Gen) (c : coord) :
  same_config s1 s2 -> grid_rel moisture_only (tiles s1) (tiles s2) ->
  tile_moisture s1 c.1 c.2 = tile_moisture s2 c.1 c.2.
Proof.
  intros Hc HR. unfold tile_moisture.
  pose proof (tile_at_rel _ _ _ c.1 c.2 HR) as Ht.
  destruct (tile_at (tiles s1) _ _) as [t1|e1], (tile_at (tiles s2) _ _) as [t2|e2];
    try done; simpl; [|by subst].
  apply moisture_only_fields in Ht as (-> & _).
  rewrite (_distance_to_water_rel s1 s2 _ _ Hc HR).
  rewrite (_calculate_rain_shadow_rel s1 s2 _ _ Hc HR). reflexivity.
Qed.

Lemma _calculate_moisture_store (self : Gen) :
  _calculate_moisture self =
  store_loop (fun s c => tile_moisture s c.1 c.2) Tile.set_moisture (all_coords self) self.
Proof.
  unfold _calculate_moisture, store_loop, all_coords.
  exact (for_each_grid (range (width self)) (range (height self))
           (fun c s =>
              v ← tile_moisture s c.1 c.2;
              ts ← update_tile (tiles s) c.1 c.2 (Tile.set_moisture v);
              Ok (set_tiles ts s)) self).
Qed.

(** The rain shadow is the largest penalty among the cells at distances
    1 to 14, or 0 when there is none. *)
Lemma rain_shadow_loop (self : Gen) (x y : Z) (done_ todo : list Z) (acc r : float) :
  let cell i := (x + (wind_direction (prevailing_wind self)).1 * i,
                 y + (wind_direction (prevailing_wind self)).2 * i) in
  is_maximum acc (0%float :: omap (penalty self) (map cell done_)) ->
  for_each todo (rain_shadow_step self x y (wind_direction (prevailing_wind self))) acc
    = Ok r ->
  is_maximum r (0%float :: omap (penalty self) (map cell (done_ ++ todo))).
Proof.
  cbv zeta. revert done_ acc. induction todo as [|i todo IH]; intros done_ acc Hacc H;
    simpl in H.
  { injection H as <-. by rewrite app_nil_r. }
  inv_bind H as acc1 Hacc1.
  replace (done_ ++ i :: todo) with ((done_ ++ [i]) ++ todo) by by rewrite <- app_assoc.
  apply (IH _ acc1); [|done]. clear IH H.
  rewrite map_app, omap_app. simpl.
  unfold rain_shadow_step in Hacc1. unfold penalty at 2. simpl.
  destruct (in_bounds self _).
  2:{ injection Hacc1 as <-. simpl. by rewrite app_nil_r. }
  inv_bind Hacc1 as t Ht. rewrite Ht.
  destruct (0.7 <? Tile.elevation t)%float.
  2:{ injection Hacc1 as <-. simpl. by rewrite app_nil_r. }
  injection Hacc1 as <-. simpl.
  set (p := ((Tile.elevation t - 0.7) * 0.5)%float).
  destruct Hacc as [Hin Hmax]. unfold py_max.
  destruct (acc <? p)%float eqn:Hlt; split.
  - rewrite app_comm_cons. apply elem_of_app. right. by left.
  - intros q Hq. rewrite app_comm_cons in Hq. apply elem_of_app in Hq as [Hq|Hq].
    + specialize (Hmax q Hq). destruct (p <? q)%float eqn:E; [|done].
      by rewrite (float_ltb_trans _ _ _ Hlt E) in Hmax.
    + apply list_elem_of_singleton in Hq as ->. apply float_ltb_irrefl.
  - rewrite app_comm_cons. apply elem_of_app. by left.
  - intros q Hq. rewrite app_comm_cons in Hq. apply elem_of_app in Hq as [Hq|Hq]; [auto|].
    by apply list_elem_of_singleton in Hq as ->.
Qed.

Lemma _calculate_rain_shadow_spec (self : Gen) (x y : Z) (r : float) :
  _calculate_rain_shadow self x y = Ok r -> is_maximum r (0%float :: penalties self x y 14).
Proof.
  unfold _calculate_rain_shadow. intros H.
  apply (rain_shadow_loop self x y []) in H; [done|].
  split; [by left|]. intros p Hp. by apply list_elem_of_singleton in Hp as ->.
Qed.

(** What [_calculate_moisture] leaves in the grid. *)
Lemma _calculate_moisture_spec (self self' : Gen) :
  _calculate_moisture self = Ok self' ->
  same_config self self' /\ rng self' = rng self /\ rivers self' = rivers self /\
  grid_rel moisture_only (tiles self) (tiles self') /\
  forall c, in_bounds self c = true ->
    exists m t, tile_moisture self c.1 c.2 = Ok m /\
      tile_at (tiles self) c.1 c.2 = Ok t /\
      tile_at (tiles self') c.1 c.2 = Ok (Tile.set_moisture m t).
Proof.
  rewrite _calculate_moisture_store. intros H.
  assert (forall v t, moisture_only t (Tile.set_moisture v t)) as Hstore.
  { intros v t. by destruct t. }
  destruct (store_loop_frame _ _ moisture_only Hstore _ _ _ H) as (Hc & Hrng & Hriv & HR).
  split_and!; try done.
  intros c Hc'. apply (store_loop_spec _ _ moisture_only Hstore) with (c := c) in H.
  - done.
  - intros s1 s2 c0. apply tile_moisture_rel.
  - apply NoDup_all_coords.
  - intros c0 Hc0. apply elem_of_all_coords, in_bounds_spec in Hc0. lia.
  - by apply elem_of_all_coords.
Qed.
End Climate.

Section Stages.
Context `{RT : PyRuntime}.
Import TerrainGenerator.
#[local] Abbreviation Gen := TerrainGenerator.t.

(** ** Biomes *)

Lemma rules_defined : Forall (fun b => is_Some (_load_biome_rules !! b)) priority.
Proof.
  unfold priority. repeat (apply Forall_cons_2; [vm_compute; eauto|]). apply Forall_nil_2.
Qed.

Lemma first_match_total (biomes : list string) (elevation moisture : float)
    (rules : gmap string biome_rule) :
  Forall (fun b => is_Some (rules !! b)) biomes ->
  exists b, first_match biomes elevation moisture rules = Ok b.
Proof.
  induction 1 as [|b biomes [rule Hrule] _ IH]; simpl; [eauto|].
  rewrite Hrule. destruct (rule_matches _ _ _); eauto.
Qed.

Lemma _determine_biome_total (elevation moisture : float) :
  exists b, _determine_biome elevation moisture _load_biome_rules = Ok b.
Proof. apply first_match_total, rules_defined. Qed.

Lemma biome_only_fields (t t' : Tile.t) :
  biome_only t t' ->
  Tile.elevation t' = Tile.elevation t /\ Tile.moisture t' = Tile.moisture t /\
  Tile.water t' = Tile.water t /\ Tile.river t' = Tile.river t.
Proof. intros ->. by destruct t. Qed.

Lemma tile_biome_rel (s1 s2 : Gen) (c : coord) :
  same_config s1 s2 -> grid_rel biome_only (tiles s1) (tiles s2) ->
  tile_biome s1 c = tile_biome s2 c.
Proof.
  intros _ HR. unfold tile_biome.
  pose proof (tile_at_rel _ _ _ c.1 c.2 HR) as Ht.
  destruct (tile_at (tiles s1) _ _) as [t1|e1], (tile_at (tiles s2) _ _) as [t2|e2];
    try done; simpl; [|by subst].
  apply biome_only_fields in Ht as (-> & -> & _). done.
Qed.

Lemma _assign_biomes_store (self : Gen) :
  _assign_biomes self = store_loop tile_biome Tile.set_biome (all_coords self) self.
Proof.
  unfold _assign_biomes, store_loop, all_coords.
  rewrite <- (for_each_grid (range (width self)) (range (height self))
           (fun c s =>
              v ← tile_biome s c;
              ts ← update_tile (tiles s) c.1 c.2 (Tile.set_biome v);
              Ok (set_tiles ts s)) self).
  apply for_each_ext. intros y s _. apply for_each_ext. intros x s' _.
  unfold tile_biome. simpl. by destruct (tile_at (tiles s') x y).
Qed.

Lemma set_biome_only (v : string) (t : Tile.t) : biome_only t (Tile.set_biome v t).
Proof. by destruct t. Qed.

Lemma _assign_biomes_spec (self self' : Gen) :
  _assign_biomes self = Ok self' ->
  same_config self self' /\ rng self' = rng self /\ rivers self' = rivers self /\
  grid_rel biome_only (tiles self) (tiles self').
Proof.
  rewrite _assign_biomes_store. apply (store_loop_frame _ _ biome_only set_biome_only).
Qed.

Lemma _assign_biomes_total (self : Gen) :
  grid_wf self -> exists self', _assign_biomes self = Ok self'.
Proof.
  intros Hwf. rewrite _assign_biomes_store.
  apply (store_loop_total _ _ biome_only set_biome_only); [done| |].
  - intros c. apply elem_of_all_coords.
  - intros s1 c Hc Hwf1 Hin. apply elem_of_all_coords in Hin.
    rewrite (in_bounds_config self s1) in Hin by done.
    apply in_bounds_spec in Hin as [Hx Hy].
    destruct (tile_at_total _ _ _ _ _ Hwf1 Hx Hy) as [t Ht].
    unfold tile_biome. rewrite Ht. simpl. apply _determine_biome_total.
Qed.

(** ** The climate stage does not raise *)

Lemma _distance_to_water_total (self : Gen) (x y : Z) :
  grid_wf self -> exists d, _distance_to_water self x y = Ok d.
Proof.
  intros Hwf. unfold _distance_to_water. cbv zeta.
  match goal with |- context [for_each ?xs ?body ?s] =>
    destruct (for_each_total (fun _ => True) xs body s I) as (md & -> & _)
  end; [|simpl; eauto].
  intros dy md _ _.
  match goal with |- context [for_each ?xs ?body ?s] =>
    destruct (for_each_total (fun _ => True) xs body s I) as (md' & -> & _)
  end; [|eauto].
  intros dx md' _ _. unfold water_scan_step.
  destruct (in_bounds self _) eqn:Hb; [|eauto].
  apply in_bounds_spec in Hb as [Hx Hy]. simpl in Hx, Hy.
  destruct (tile_at_total _ _ _ _ _ Hwf Hx Hy) as [t ->]. simpl.
  destruct (_ || _); eauto.
Qed.

Lemma _calculate_rain_shadow_total (self : Gen) (x y : Z) :
  grid_wf self -> exists r, _calculate_rain_shadow self x y = Ok r.
Proof.
  intros Hwf. unfold _calculate_rain_shadow. cbv zeta.
  match goal with |- context [for_each ?xs ?body ?s] =>
    destruct (for_each_total (fun _ => True) xs body s I) as (r & -> & _)
  end; [|eauto].
  intros i mb _ _. unfold rain_shadow_step.
  destruct (in_bounds self _) eqn:Hb; [|eauto].
  apply in_bounds_spec in Hb as [Hx Hy]. simpl in Hx, Hy.
  destruct (tile_at_total _ _ _ _ _ Hwf Hx Hy) as [t ->]. simpl.
  destruct (_ <? _)%float; eauto.
Qed.

Lemma tile_moisture_total (self : Gen) (x y : Z) :
  grid_wf self -> in_bounds self (x, y) = true -> exists m, tile_moisture self x y = Ok m.
Proof.
  intros Hwf Hb. apply in_bounds_spec in Hb as [Hx Hy]. simpl in Hx, Hy.
  destruct (tile_at_total _ _ _ _ _ Hwf Hx Hy) as [t Ht].
  destruct (_distance_to_water_total self x y Hwf) as [d Hd].
  destruct (_calculate_rain_shadow_total self x y Hwf) as [r Hr].
  unfold tile_moisture. rewrite Ht. simpl. rewrite Hd. simpl. rewrite Hr. simpl. eauto.
Qed.

Lemma set_moisture_only (v : float) (t : Tile.t) : moisture_only t (Tile.set_moisture v t).
Proof. by destruct t. Qed.

Lemma _calculate_moisture_total (self : Gen) :
  grid_wf self -> exists self', _calculate_moisture self = Ok self'.
Proof.
  intros Hwf. rewrite _calculate_moisture_store.
  apply (store_loop_total _ _ moisture_only set_moisture_only); [done| |].
  - intros c. apply elem_of_all_coords.
  - intros s1 c Hc Hwf1 Hin. apply elem_of_all_coords in Hin.
    rewrite (in_bounds_config self s1) in Hin by done.
    destruct c as [x y]. by apply tile_moisture_total.
Qed.

Lemma grid_wf_rel (R : Tile.t -> Tile.t -> Prop) (s s' : Gen) :
  same_config s s' -> grid_rel R (tiles s) (tiles s') -> grid_wf s -> grid_wf s'.
Proof.
  intros (Hw & Hh & _) HR Hwf. unfold grid_wf. rewrite <- Hw, <- Hh.
  by eapply grid_rel_dims.
Qed.

(** ** The artifact *)

Lemma tiles_list_spec (ts : grid) (cs : list coord) (acc r : list tile_dict) :
  for_each cs (fun c tiles_list =>
    tile ← tile_at ts c.1 c.2; Ok (tiles_list ++ [tile_dict_of tile])) acc = Ok r ->
  exists new, r = acc ++ new /\
    Forall2 (fun c td => exists t, tile_at ts c.1 c.2 = Ok t /\ td = tile_dict_of t) cs new.
Proof.
  revert acc. induction cs as [|c cs IH]; intros acc H; simpl in H.
  - injection H as <-. exists []. by rewrite app_nil_r.
  - inv_bind H as acc1 Hacc1. inv_bind Hacc1 as t Ht. injection Hacc1 as <-.
    apply IH in H as (new & -> & Hnew). exists (tile_dict_of t :: new).
    split; [by rewrite <- app_assoc|]. constructor; eauto.
Qed.

Lemma _to_dict_spec (self : Gen) (fs : features) (out : terrain) :
  _to_dict self fs = Ok out ->
  Forall2 (fun c td => exists t, tile_at (tiles self) c.1 c.2 = Ok t /\ td = tile_dict_of t)
          (all_coords self) (t_tiles out) /\
  t_rivers out = map river_dict_of (rivers self) /\
  t_seed out = seed self /\ t_width out = width self /\ t_height out = height self /\
  t_mode out = mode self /\ t_features out = fs.
Proof.
  unfold _to_dict. intros H. inv_bind H as tl Htl. injection H as <-. simpl.
  assert (for_each (all_coords self) (fun c tiles_list =>
            tile ← tile_at (tiles self) c.1 c.2; Ok (tiles_list ++ [tile_dict_of tile])) []
          = Ok tl) as Hflat.
  { rewrite <- Htl. symmetry.
    exact (for_each_grid (range (width self)) (range (height self))
             (fun c tiles_list =>
                tile ← tile_at (tiles self) c.1 c.2;
                Ok (tiles_list ++ [tile_dict_of tile])) []). }
  apply tiles_list_spec in Hflat as (new & -> & Hnew). simpl. done.
Qed.

Lemma _to_dict_total (self : Gen) (fs : features) :
  grid_wf self -> exists out, _to_dict self fs = Ok out.
Proof.
  intros Hwf. unfold _to_dict.
  destruct (for_each_total (fun _ => True) (range (height self))
    (fun y tiles_list =>
      for_each (range (width self)) (fun x tiles_list =>
        tile ← tile_at (tiles self) x y;
        Ok (tiles_list ++
            [mk_tile_dict (Tile.x tile) (Tile.y tile)
               (round3 (Tile.elevation tile)) (round3 (Tile.moisture tile))
               (Tile.biome tile) (Tile.water tile) (Tile.river tile)]))
        tiles_list) [] I) as (tl & -> & _); [|simpl; eauto].
  intros y acc Hy _. apply elem_of_range in Hy.
  destruct (for_each_total (fun _ => True) (range (width self))
    (fun x tiles_list =>
        tile ← tile_at (tiles self) x y;
        Ok (tiles_list ++
            [mk_tile_dict (Tile.x tile) (Tile.y tile)
               (round3 (Tile.elevation tile)) (round3 (Tile.moisture tile))
               (Tile.biome tile) (Tile.water tile) (Tile.river tile)])) acc I)
    as (r & -> & _); [|eauto].
  intros x acc' Hx _. apply elem_of_range in Hx.
  destruct (tile_at_total _ _ _ _ _ Hwf Hx Hy) as [t ->]. simpl. eauto.
Qed.
End Stages.

Section ElevationStage.
Context `{RT : PyRuntime}.
Import TerrainGenerator.
#[local] Abbreviation Gen := TerrainGenerator.t.

(** ** Elevation *)

(** Mode shaping touches the random generator only. *)
Lemma _apply_mode_shaping_frame (self : Gen) (x y : Z) (e e' : float) (self' : Gen) :
  _apply_mode_shaping self x y e = Ok (e', self') ->
  same_config self self' /\ tiles self' = tiles self /\ rivers self' = rivers self /\
  (mode self <> "archipelago" -> self' = self).
Proof.
  unfold _apply_mode_shaping. intros H.
  destruct (String.eqb_spec (mode self) "continent").
  { inv_bind H as dx Hdx. inv_bind H as dy Hdy. injection H as _ <-. done. }
  destruct (String.eqb_spec (mode self) "archipelago").
  { destruct (rng_randint _ _ _) as [r rng1]. inv_bind H as res Hres.
    destruct res as [mi rng2]. injection H as _ <-.
    split_and!; [apply same_config_set_rng|by destruct self|by destruct self|done]. }
  destruct (String.eqb_spec (mode self) "highlands"); by injection H as _ <-.
Qed.

Lemma elevation_tile_spec (self : Gen) (y x : Z) (t : Tile.t) (self' : Gen) :
  elevation_tile self y x = Ok (t, self') ->
  placeholder_tile x y t /\
  same_config self self' /\ tiles self' = tiles self /\ rivers self' = rivers self /\
  (mode self <> "archipelago" -> self' = self).
Proof.
  unfold elevation_tile. intros H. inv_bind H as e He. inv_bind H as r Hr.
  destruct r as [e' s1]. injection H as <- <-.
  split; [|by eapply _apply_mode_shaping_frame].
  split; simpl; try done. apply clamp01_range.
Qed.

Lemma _generate_elevation_spec (self self' : Gen) :
  _generate_elevation self = Ok self' ->
  same_config self self' /\ rivers self' = rivers self /\ grid_wf self' /\
  (forall x y t, tile_at (tiles self') x y = Ok t -> 0 <= x -> 0 <= y ->
                 placeholder_tile x y t) /\
  (mode self <> "archipelago" ->
   forall x y, in_bounds self (x, y) = true ->
     exists t, elevation_tile self y x = Ok (t, self) /\ tile_at (tiles self') x y = Ok t).
Proof.
  unfold _generate_elevation. intros H. inv_bind H as res Hres.
  destruct res as [rows s]. injection H as <-.
  set (P := fun s1 : Gen => same_config self s1 /\ rivers s1 = rivers self /\
                            (mode self <> "archipelago" -> s1 = self)).
  set (Qx := fun (y x : Z) (t : Tile.t) => placeholder_tile x y t /\
               (mode self <> "archipelago" -> elevation_tile self y x = Ok (t, self))).
  set (Qy := fun (y : Z) (row : list Tile.t) => Forall2 (Qx y) (range (width self)) row).
  assert (P self) as HP0 by (split_and!; [reflexivity|done|done]).
  assert (forall y x s3 t s4, x ∈ range (width self) -> P s3 ->
            elevation_tile s3 y x = Ok (t, s4) -> Qx y x t /\ P s4) as Htile.
  { intros y x s3 t s4 _ (Hc3 & Hr3 & Hm3) Ht.
    pose proof (elevation_tile_spec _ _ _ _ _ Ht) as (Hpt & Hc4 & _ & Hr4 & Hm4).
    assert (mode s3 = mode self) as Hmode by (unfold same_config in Hc3; symmetry; tauto).
    rewrite Hmode in Hm4.
    split; [split; [done|]|split_and!].
    - intros Hm. specialize (Hm3 Hm). specialize (Hm4 Hm). by subst.
    - by etrans.
    - congruence.
    - intros Hm. rewrite (Hm4 Hm). auto. }
  assert (forall y s1 row s2, y ∈ range (height self) -> P s1 ->
            map_st (fun x s0 => elevation_tile s0 y x) (range (width self)) s1 = Ok (row, s2) ->
            Qy y row /\ P s2) as Hrow.
  { intros y s1 row s2 _ HP1 Hrow.
    exact (map_st_inv P (Qx y) _ _ _ _ _ HP1 (Htile y) Hrow). }
  destruct (map_st_inv P Qy _ _ _ _ _ HP0 Hrow Hres) as [Hrows HP'].
  clear Htile Hrow. rename HP' into HP.
  destruct HP as (Hc & Hriv & Hm).
  assert (grid_dims (width self) (height self) rows) as Hdims.
  { split.
    - rewrite <- (Forall2_length _ _ _ Hrows). unfold range, range2. rewrite length_seqZ. lia.
    - apply Forall_forall. intros row Hrow.
      apply list_elem_of_lookup in Hrow as [j Hj].
      destruct (Forall2_lookup_r _ _ _ _ _ Hrows Hj) as (y & _ & Hy).
      rewrite <- (Forall2_length _ _ _ Hy). unfold range, range2. rewrite length_seqZ. lia. }
  assert (forall x y t, tile_at rows x y = Ok t -> 0 <= x -> 0 <= y ->
            0 <= x < width self /\ 0 <= y < height self /\ Qx y x t) as Hlook.
  { intros x y t Ht Hx Hy. apply tile_at_nonneg in Ht as (row & Hrow & Ht); [|done..].
    destruct (Forall2_lookup_r _ _ _ _ _ Hrows Hrow) as (y' & Hy' & HQy).
    destruct (Forall2_lookup_r _ _ _ _ _ HQy Ht) as (x' & Hx' & HQx).
    unfold range, range2 in Hx', Hy'.
    apply lookup_seqZ in Hx' as [-> Hx'], Hy' as [-> Hy'].
    rewrite !Z.add_0_l, !Z2Nat.id in HQx by done.
    rewrite Z2Nat.id in Hx', Hy' by done. split_and!; [lia..|done]. }
  split_and!.
  - etrans; [exact Hc|]. apply same_config_set_tiles.
  - by destruct s.
  - unfold grid_wf. destruct Hc as (Hw & Hh & _). destruct s; simpl in *. by rewrite <- Hw, <- Hh.
  - intros x y t Ht Hx Hy. destruct s; simpl in *. by apply Hlook.
  - intros Hmode x y Hb. apply in_bounds_spec in Hb as [Hx Hy]. simpl in Hx, Hy.
    destruct (tile_at_total _ _ _ x y Hdims Hx Hy) as [t Ht]. exists t.
    destruct s; simpl in *. split; [|done].
    destruct (Hlook x y t Ht) as (_ & _ & _ & Hq); [lia..|]. by apply Hq.
Qed.
End ElevationStage.

Section Generate.
Context `{RT : PyRuntime}.
Import TerrainGenerator.
#[local] Abbreviation Gen := TerrainGenerator.t.

(** ** The river stage does not raise on a well-formed grid *)

Lemma river_step_total (item : Z * coord) (s : Gen) :
  grid_wf s -> in_bounds s item.2 = true -> exists s', river_step item s = Ok s'.
Proof.
  destruct item as [idx [sx sy]]. simpl. intros Hwf Hb.
  destruct (_trace_river_path_total s sx sy Hwf Hb) as [path Hpath].
  unfold river_step. rewrite Hpath. simpl.
  destruct (10 <? _); [|eauto].
  apply _trace_river_path_spec in Hpath as (st' & _ & Hinv & -> & _).
  destruct (mark_river_total (width s) (height s) (tr_path st') (tiles s) Hwf) as [ts Hts].
  - intros c Hc. apply in_bounds_spec.
    destruct (inv_bounds _ _ _ Hinv c Hc) as [->|]; done.
  - destruct s; simpl in *. rewrite Hts. simpl. eauto.
Qed.

Lemma elem_of_enumerate {A} (l : list A) (i : Z) (a : A) :
  (i, a) ∈ enumerate l -> a ∈ l.
Proof. unfold enumerate. apply elem_of_zip_r. Qed.

Lemma selected_sources_eligible (self : Gen) (c : coord) :
  c ∈ selected_sources self -> c ∈ eligible self.
Proof.
  unfold selected_sources. rewrite list_elem_of_omap.
  intros (i & _ & Hi). by eapply list_elem_of_lookup_2.
Qed.

Lemma actual_river_count_le (self : Gen) :
  actual_river_count self <= Z.of_nat (length (eligible self)) /\
  actual_river_count self <= river_count self.
Proof.
  unfold actual_river_count.
  destruct (Z.ltb_spec (Z.of_nat (length (eligible self))) (river_count self)); lia.
Qed.

Lemma _generate_rivers_total (self : Gen) :
  grid_wf self -> 0 <= actual_river_count self ->
  exists self', _generate_rivers self = Ok self'.
Proof.
  intros Hwf Hk. destruct (river_sources_total self Hwf) as [sources Hsources].
  pose proof (river_sources_spec _ _ Hsources) as ->.
  unfold _generate_rivers. rewrite Hsources. simpl.
  fold (actual_river_count self). unfold sample_sources.
  destruct (Z.leb_spec 0 (actual_river_count self)); [|lia].
  destruct (Z.leb_spec (actual_river_count self) (Z.of_nat (length (eligible self))));
    [|pose proof (actual_river_count_le self); lia].
  simpl.
  pose proof (selected_sources_eligible self) as Hsel. unfold selected_sources in Hsel.
  destruct (rng_sample _ _ _) as [picks rng1]. simpl in *.
  destruct (for_each_total (fun s => same_config self s /\ grid_wf s)
              (enumerate (omap (fun i => eligible self !! i) picks)) river_step
              (set_rng rng1 self)) as (s' & -> & _); [| |eauto].
  - split; [apply same_config_set_rng|by destruct self].
  - intros [idx c] s Hitem [Hc Hwfs]. apply elem_of_enumerate, Hsel, eligible_in_bounds in Hitem.
    rewrite (in_bounds_config self s) in Hitem by done.
    destruct (river_step_total (idx, c) s Hwfs Hitem) as [s1 Hs1]. exists s1. split; [done|].
    apply river_step_spec in Hs1 as (Hc1 & _ & HR1 & _).
    split; [by etrans|by eapply grid_wf_rel].
Qed.

(** ** [generate] stage by stage *)

Lemma generate_Ok (self : Gen) (out : terrain) (self' : Gen) :
  generate self = Ok (out, self') <->
  exists se sr sm,
    _generate_elevation self = Ok se /\ _generate_rivers se = Ok sr /\
    _calculate_moisture sr = Ok sm /\ _assign_biomes sm = Ok self' /\
    _to_dict self' (_identify_features self') = Ok out.
Proof.
  unfold generate. split.
  - intros H. inv_bind H as se Hse. inv_bind H as sr Hsr. inv_bind H as sm Hsm.
    inv_bind H as sb Hsb. inv_bind H as o Ho. injection H as <- <-. eauto 10.
  - intros (se & sr & sm & -> & Hsr & Hsm & Hsb & Ho). simpl.
    rewrite Hsr. simpl. rewrite Hsm. simpl. rewrite Hsb. simpl. by rewrite Ho.
Qed.

(** Once the elevation stage has returned, [generate] raises only when
    [sample] refuses a negative count. *)
Lemma generate_total (self se : Gen) :
  _generate_elevation self = Ok se -> 0 <= actual_river_count se ->
  exists out self', generate self = Ok (out, self').
Proof.
  intros Hse Hk.
  pose proof (_generate_elevation_spec _ _ Hse) as (_ & _ & Hwf & _).
  destruct (_generate_rivers_total se Hwf Hk) as [sr Hsr].
  pose proof (_generate_rivers_spec _ _ Hsr) as (_ & Hc1 & HR1 & _).
  pose proof (grid_wf_rel _ _ _ Hc1 HR1 Hwf) as Hwf1.
  destruct (_calculate_moisture_total sr Hwf1) as [sm Hsm].
  pose proof (_calculate_moisture_spec _ _ Hsm) as (Hc2 & _ & _ & HR2 & _).
  pose proof (grid_wf_rel _ _ _ Hc2 HR2 Hwf1) as Hwf2.
  destruct (_assign_biomes_total sm Hwf2) as [sb Hsb].
  pose proof (_assign_biomes_spec _ _ Hsb) as (Hc3 & _ & _ & HR3).
  pose proof (grid_wf_rel _ _ _ Hc3 HR3 Hwf2) as Hwf3.
  destruct (_to_dict_total sb (_identify_features sb) Hwf3) as [out Hout].
  exists out, sb. apply generate_Ok. eauto 10.
Qed.

#[global] Instance frozen_preorder : PreOrder frozen.
Proof.
  split.
  - intros t. unfold frozen. tauto.
  - intros t1 t2 t3 (? & ? & ? & ? & ?) (? & ? & ? & ? & ?).
    unfold frozen. split_and!; try congruence. auto.
Qed.

Lemma river_only_frozen (t t' : Tile.t) : river_only t t' -> frozen t t'.
Proof. intros [-> H]. by destruct t. Qed.
Lemma moisture_only_frozen (t t' : Tile.t) : moisture_only t t' -> frozen t t'.
Proof. intros ->. by destruct t. Qed.
Lemma biome_only_frozen (t t' : Tile.t) : biome_only t t' -> frozen t t'.
Proof. intros ->. by destruct t. Qed.

(** The stages after the elevation stage, together. *)
Lemma later_stages_frozen (se sr sm sb : Gen) :
  _generate_rivers se = Ok sr -> _calculate_moisture sr = Ok sm ->
  _assign_biomes sm = Ok sb ->
  same_config se sb /\ rivers sb = rivers sr /\
  grid_rel frozen (tiles se) (tiles sr) /\ grid_rel frozen (tiles sr) (tiles sb).
Proof.
  intros Hsr Hsm Hsb.
  apply _generate_rivers_spec in Hsr as (_ & Hc1 & HR1 & _).
  apply _calculate_moisture_spec in Hsm as (Hc2 & _ & Hriv2 & HR2 & _).
  apply _assign_biomes_spec in Hsb as (Hc3 & _ & Hriv3 & HR3).
  split_and!.
  - by do 2 (etrans; [eassumption|]).
  - congruence.
  - eapply grid_rel_impl; [apply river_only_frozen|done].
  - etrans; [eapply grid_rel_impl; [apply moisture_only_frozen|done]
            |eapply grid_rel_impl; [apply biome_only_frozen|done]].
Qed.

(** A property of all tiles of the first grid can be added to a relation
    between two grids. *)
Lemma grid_rel_strengthen (R : Tile.t -> Tile.t -> Prop) (P : Tile.t -> Prop)
    (ts ts' : grid) :
  grid_rel R ts ts' ->
  (forall x y t, tile_at ts x y = Ok t -> 0 <= x -> 0 <= y -> P t) ->
  grid_rel (fun t t' => R t t' /\ P t) ts ts'.
Proof.
  intros HR HP. unfold grid_rel.
  apply Forall2_same_length_lookup_2; [by eapply Forall2_length|].
  intros j row row' Hrow Hrow'.
  pose proof (Forall2_lookup_lr _ _ _ _ _ _ HR Hrow Hrow') as Hr.
  apply Forall2_same_length_lookup_2; [by eapply Forall2_length|].
  intros i t t' Ht Ht'. split; [by eapply Forall2_lookup_lr|].
  apply (HP (Z.of_nat i) (Z.of_nat j)); [|lia..].
  apply tile_at_nonneg; [lia..|]. exists row. by rewrite !Nat2Z.id.
Qed.
End Generate.

Section Sampling.
Context `{RT : PyRuntime}.
Import TerrainGenerator.
#[local] Abbreviation Gen := TerrainGenerator.t.

(** ** Sampling all of a population *)





Lemma selected_sources_length `{!PyRuntimeLaws RT} (self : Gen) :
  0 <= actual_river_count self ->
  Z.of_nat (length (selected_sources self)) <= actual_river_count self.
Proof.
  intros Hk. unfold selected_sources.
  etrans; [apply inj_le, length_omap_le|].
  rewrite rng_sample_length; [lia|].
  pose proof (actual_river_count_le self). lia.
Qed.

Lemma river_valid_frozen (ts ts' : grid) (r : River.t) :
  grid_rel frozen ts ts' -> river_valid ts r -> river_valid ts' r.
Proof.
  intros HR [Hlong Hconn Hnd Hmark Hsrc Hmouth Hlen]. split; try done.
  intros c Hc. destruct (Hmark c Hc) as (t & Ht & Hriver).
  pose proof (tile_at_rel _ _ _ c.1 c.2 HR) as Hrel. rewrite Ht in Hrel.
  destruct (tile_at ts' c.1 c.2) as [t'|]; [|done].
  exists t'. split; [done|]. by apply Hrel.
Qed.

Lemma frozen_same_terrain (t t' : Tile.t) : frozen t t' -> same_terrain t t'.
Proof. intros (_ & _ & He & Hw & _). by split. Qed.

Lemma length_enumerate {A} (l : list A) : length (enumerate l) = length l.
Proof.
  unfold enumerate. rewrite length_zip, length_seqZ. lia.
Qed.
End Sampling.

Section ClaimTheorems.
Context `{RT : PyRuntime}.
Import TerrainGenerator.
#[local] Abbreviation Gen := TerrainGenerator.t.

(** * The claims *)

(** C2. In the grid [generate] returns, every tile has the elevation and
    the water flag it had when the elevation stage completed, and its
    water flag is [elevation < 0.4]. *)
Theorem water_frozen_after_elevation (self : Gen) (out : terrain) (self' : Gen) :
  generate self = Ok (out, self') ->
  exists se, _generate_elevation self = Ok se /\
    grid_rel (fun t t' =>
                Tile.elevation t' = Tile.elevation t /\ Tile.water t' = Tile.water t /\
                Tile.water t' = (Tile.elevation t' <? 0.4)%float)
             (tiles se) (tiles self').
Proof.
  intros H. apply generate_Ok in H as (se & sr & sm & Hse & Hsr & Hsm & Hsb & _).
  exists se. split; [done|].
  destruct (later_stages_frozen _ _ _ _ Hsr Hsm Hsb) as (_ & _ & HR1 & HR2).
  assert (grid_rel frozen (tiles se) (tiles self')) as HR by by etrans.
  apply _generate_elevation_spec in Hse as (_ & _ & _ & Hpt & _).
  eapply grid_rel_impl;
    [|apply (grid_rel_strengthen frozen
               (fun t => Tile.water t = (Tile.elevation t <? 0.4)%float) _ _ HR)].
  - intros t t' [(_ & _ & He & Hw & _) Hwt]. split_and!; [done|done|]. by rewrite Hw, He.
  - intros x y t Ht Hx Hy. by apply (Hpt x y t Ht Hx Hy).
Qed.

(** X20. After [generate] on a generator with no river recorded yet, every
    kept river has a path of more than 10 coordinates, each one step
    along one axis from the one before, none repeated, each naming a tile
    whose river flag is set; and there are at most
    min(river_count, number of tiles with elevation > 0.7 and not water)
    of them.  The artifact lists these rivers. *)
Theorem kept_rivers_valid `{!PyRuntimeLaws RT} (self : Gen) (out : terrain) (self' : Gen) :
  rivers self = [] ->
  generate self = Ok (out, self') ->
  (forall r, r ∈ rivers self' -> river_valid (tiles self') r) /\
  Z.of_nat (length (rivers self')) <=
    Z.min (river_count self) (Z.of_nat (length (eligible self'))) /\
  t_rivers out = map river_dict_of (rivers self').
Proof.
  intros Hfresh H. apply generate_Ok in H as (se & sr & sm & Hse & Hsr & Hsm & Hsb & Hout).
  destruct (later_stages_frozen _ _ _ _ Hsr Hsm Hsb) as (Hc & Hriv & HR1 & HR2).
  apply _generate_elevation_spec in Hse as (Hc0 & Hriv0 & _).
  apply _generate_rivers_spec in Hsr as (Hk & _ & _ & Hrivers & Hvalid).
  rewrite Hriv0, Hfresh in Hrivers. simpl in Hrivers.
  rewrite Hriv, Hrivers. split_and!.
  - intros r Hr. eapply river_valid_frozen; [exact HR2|]. by apply Hvalid.
  - assert (eligible self' = eligible se) as ->.
    { symmetry. apply eligible_terrain; [done|].
      eapply grid_rel_impl; [apply frozen_same_terrain|by etrans]. }
    assert (river_count self = river_count se) as ->
      by (unfold same_config in Hc0; tauto).
    pose proof (actual_river_count_le se).
    pose proof (selected_sources_length se Hk).
    pose proof (length_omap_le (kept_river se) (enumerate (selected_sources se))) as Hle.
    rewrite length_enumerate in Hle. lia.
  - apply _to_dict_spec in Hout as (_ & -> & _). by rewrite Hriv, Hrivers.
Qed.

(** C4. Tracing a river: the neighbours are the in-bounds ones of
    (x,y+1), (x+1,y), (x,y-1), (x-1,y) in that order; a turn of the loop
    stops on a water tile or when no unvisited neighbour is strictly
    lower, and otherwise moves to the first unvisited neighbour of least
    elevation; the loop turns at most width*height times. *)
Theorem trace_step_and_bound (self : Gen) (x y : Z) (path : list coord)
    (st : trace_state) (r : trace_state + trace_state) :
  _trace_river_path self x y = Ok path ->
  trace_body self st = Ok r ->
  _get_neighbors self x y =
    List.filter (in_bounds self) [(x, y + 1); (x + 1, y); (x, y - 1); (x - 1, y)] /\
  (exists cur, tile_at (tiles self) (tr_current st).1 (tr_current st).2 = Ok cur /\
    let cands := candidates self (tr_visited st) (tr_current st).1 (tr_current st).2 in
    match r with
    | inl st' =>
        st' = mk_trace (tr_path st) (tr_current st) (tr_visited st) (tr_iterations st + 1) /\
        (Tile.water cur = true \/
         (Tile.water cur = false /\
          forall m, m ∈ cands -> (elev_at self m <? Tile.elevation cur)%float = false))
    | inr st' =>
        Tile.water cur = false /\
        exists n, first_lowest (elev_at self) (Tile.elevation cur) cands n /\
          st' = mk_trace (tr_path st ++ [n]) n ({[n]} ∪ tr_visited st)
                         (tr_iterations st + 1)
    end) /\
  (exists st', trace_while self (width self * height self) (trace_start x y) st' /\
    path = tr_path st' /\ last path = Some (tr_current st') /\
    tr_iterations st' <= Z.max 0 (width self * height self) /\
    Z.of_nat (length path) <= tr_iterations st' + 1).
Proof.
  intros Hpath Hbody. split_and!.
  - apply _get_neighbors_eq.
  - by apply trace_body_spec.
  - apply _trace_river_path_spec in Hpath as (st' & Hwhile & Hinv & -> & Hle).
    exists st'. split_and!; [done|done|apply Hinv|done|apply Hinv].
Qed.

(** C5 (as the code has it). The climate stage gives every tile the
    moisture clamp01(water_proximity + elevation*0.3 - rain_shadow), where
    rain_shadow is the largest penalty (elevation - 0.7)*0.5 among the
    in-bounds tiles with elevation > 0.7 at distances 1 to 14 upwind, and
    0 when there is none. *)
Theorem moisture_formula_14 (self self' : Gen) (x y : Z) :
  _calculate_moisture self = Ok self' ->
  in_bounds self (x, y) = true ->
  exists t t' d r,
    tile_at (tiles self) x y = Ok t /\ tile_at (tiles self') x y = Ok t' /\
    _distance_to_water self x y = Ok d /\
    is_maximum r (0%float :: penalties self x y 14) /\
    Tile.moisture t' = moisture_formula d (Tile.elevation t) r /\
    (Tile.moisture t' <? 0)%float = false /\ (1 <? Tile.moisture t')%float = false.
Proof.
  intros H Hb. apply _calculate_moisture_spec in H as (_ & _ & _ & _ & H).
  destruct (H (x, y) Hb) as (m & t & Hm & Ht & Ht'). simpl in *.
  unfold tile_moisture in Hm. rewrite Ht in Hm. simpl in Hm.
  inv_bind Hm as d Hd. inv_bind Hm as r Hr. injection Hm as <-.
  exists t, (Tile.set_moisture (moisture_formula d (Tile.elevation t) r) t), d, r.
  split_and!; try done.
  - by apply _calculate_rain_shadow_spec.
  - apply clamp01_range.
  - apply clamp01_range.
Qed.


(** C9. The constructor raises ValueError exactly when width < 50 or
    height < 50, and nothing else; it raises before anything is computed:
    a construction that fails yields no object, so [generate] never runs,
    and a constructed object holds no tile and no river yet. *)
Theorem init_rejects_small_maps
    (width height seed : Z) (mode : string) (octaves : Z)
    (persistence lacunarity scale : float) (river_count : Z) (wind : string) :
  let r := TerrainGenerator_init width height seed mode octaves persistence
             lacunarity scale river_count wind in
  (r = Raise ValueError <-> width < 50 \/ height < 50) /\
  (forall e, r = Raise e -> e = ValueError) /\
  (forall g, r = Ok g -> tiles g = [] /\ rivers g = [] /\
                         50 <= TerrainGenerator.width g /\ 50 <= TerrainGenerator.height g) /\
  (forall e, r = Raise e -> r ≫= generate = Raise ValueError).
Proof.
  unfold TerrainGenerator_init.
  destruct (Z.ltb_spec width 50), (Z.ltb_spec height 50); simpl.
  1-3: split_and!; [split; [lia|done]|by intros e [= <-]|done|done].
  split_and!.
  - split; [done|lia].
  - done.
  - intros g [= <-]. simpl. split_and!; (done || lia).
  - done.
Qed.

(** C10. At elevation exactly 1.0 no rule of the table matches, whatever
    the moisture: every elevation range excludes its upper bound, and
    mountain's is [0.78, 1.0).  The classifier returns the default,
    'grassland'. *)
Theorem elevation_one_is_grassland (moisture : float) :
  Forall (fun b => exists rule, _load_biome_rules !! b = Some rule /\
                     rule_matches rule 1 moisture = false) priority /\
  (forall rule e m, rule_matches rule e m = true ->
     (e <? (default (0, 1)%float (rule_elevation rule)).2)%float = true) /\
  _determine_biome 1 moisture _load_biome_rules = Ok "grassland".
Proof.
  assert (Forall (fun b => exists rule, _load_biome_rules !! b = Some rule /\
                     rule_matches rule 1 moisture = false) priority) as Hrules.
  { unfold priority.
    repeat (apply Forall_cons_2; [eexists; split; [vm_compute; reflexivity|reflexivity]|]).
    apply Forall_nil_2. }
  split_and!; [done| |].
  - intros rule e m H. unfold rule_matches in H.
    apply andb_true_iff in H as [H _]. by apply andb_true_iff in H as [_ H].
  - unfold _determine_biome. revert Hrules. generalize priority as bs.
    induction 1 as [|b bs (rule & Hrule & Hno) _ IH]; simpl; [done|].
    by rewrite Hrule, Hno.
Qed.
End ClaimTheorems.

(** * CPython's generator satisfies the laws *)

Module MT19937_facts.
Import MT19937.

Lemma getrandbits_nonneg (k : Z) (s : state) : 0 <= (getrandbits k s).1.
Proof.
  unfold getrandbits. destruct (k =? 0); [done|].
  unfold genrand_uint32. destruct (if (N <=? index s)%nat then _ else _) as [l i]. simpl.
  apply Z.shiftr_nonneg. unfold u32. apply Z.land_nonneg. lia.
Qed.

Lemma randbelow_loop_range (fuel : nat) (n k : Z) (s : state) :
  0 < n -> 0 <= (randbelow_loop fuel n k s).1 < n.
Proof.
  intros Hn. revert s. induction fuel as [|fuel IH]; intros s; simpl; [lia|].
  pose proof (getrandbits_nonneg k s) as Hr.
  destruct (getrandbits k s) as [r s1]. simpl in Hr.
  destruct (Z.leb_spec n r); [apply IH|simpl; lia].
Qed.

Lemma randbelow_range (n : Z) (s : state) : 0 < n -> 0 <= (randbelow n s).1 < n.
Proof. apply randbelow_loop_range. Qed.

(** ** [shuffle] permutes *)

Lemma insert_Permutation {A} (l : list A) (i : nat) (a b : A) :
  l !! i = Some a -> <[i := b]> l ≡ₚ b :: delete i l.
Proof.
  intros Hi. rewrite insert_take_drop by by eapply lookup_lt_Some.
  rewrite delete_take_drop. by rewrite Permutation_middle.
Qed.

Lemma swap_Permutation {A} (l : list A) (i j : nat) (a b : A) :
  l !! i = Some a -> l !! j = Some b -> <[j := a]> (<[i := b]> l) ≡ₚ l.
Proof.
  intros Hi Hj. destruct (decide (i = j)) as [->|Hne].
  - assert (a = b) as -> by congruence.
    rewrite list_insert_insert_eq. by rewrite list_insert_id.
  - assert (<[i := b]> l !! j = Some b) as Hj' by by rewrite list_lookup_insert_ne.
    etrans; [apply (insert_Permutation _ j b a Hj')|].
    etrans; [|symmetry; apply (delete_Permutation l i a Hi)].
    apply Permutation_skip. apply (Permutation_cons_inv (a := b)).
    etrans; [symmetry; apply (delete_Permutation _ j b Hj')|].
    apply (insert_Permutation l i a b Hi).
Qed.

Lemma shuffle_loop_Permutation {A} (i : nat) (x : list A) (s : state) :
  (shuffle_loop i x s).1 ≡ₚ x.
Proof.
  revert x s. induction i as [|i IH]; intros x s; simpl; [done|].
  destruct (randbelow _ s) as [j s1].
  destruct (x !! S i) as [xi|] eqn:Hi; [|apply IH].
  destruct (x !! Z.to_nat j) as [xj|] eqn:Hj; [|apply IH].
  rewrite IH. by apply swap_Permutation.
Qed.

Lemma shuffle_Permutation {A} (s : state) (x : list A) : (shuffle s x).1 ≡ₚ x.
Proof. apply shuffle_loop_Permutation. Qed.

(** ** [sample] from a small population *)

Lemma delete_app_l {A} (l k : list A) (j : nat) :
  (j < length l)%nat -> delete j (l ++ k) = delete j l ++ k.
Proof.
  revert j. induction l as [|a l IH]; intros [|j] Hj; simpl in *; try lia; [done|].
  f_equal. apply IH. lia.
Qed.

(** Overwriting a selected entry with the last live one leaves the other
    live entries. *)
Lemma pool_step_Permutation (pool : list nat) (live j : nat) (xl : nat) :
  (0 < live <= length pool)%nat -> (j < live)%nat ->
  pool !! (live - 1)%nat = Some xl ->
  take (live - 1) (<[j := xl]> pool) ≡ₚ delete j (take live pool).
Proof.
  intros Hlive Hj Hxl.
  assert (take live pool = take (live - 1) pool ++ [xl]) as HL.
  { replace live with (S (live - 1)) at 1 by lia. by apply take_S_r. }
  destruct (decide (j = live - 1)%nat) as [->|Hne].
  - rewrite take_insert_ge by done. rewrite HL.
    replace (live - 1)%nat with (length (take (live - 1) pool)) at 2
      by (rewrite length_take; lia).
    by rewrite delete_middle, app_nil_r.
  - rewrite take_insert_lt by lia. rewrite HL.
    assert (j < length (take (live - 1) pool))%nat as Hj' by (rewrite length_take; lia).
    destruct (lookup_lt_is_Some_2 _ _ Hj') as [a Ha].
    etrans; [apply (insert_Permutation _ j a xl Ha)|].
    rewrite delete_app_l by done. apply Permutation_cons_append.
Qed.

Lemma sample_pool_spec (k live : nat) (pool : list nat) (s : state) :
  (k <= live <= length pool)%nat -> NoDup (take live pool) ->
  length (sample_pool k live pool s).1 = k /\
  NoDup (sample_pool k live pool s).1 /\
  forall i, i ∈ (sample_pool k live pool s).1 -> i ∈ take live pool.
Proof.
  revert live pool s. induction k as [|k IH]; intros live pool s Hk Hnd; simpl.
  { split_and!; [done|constructor|]. intros i Hi. by apply elem_of_nil in Hi. }
  pose proof (randbelow_range (Z.of_nat live) s) as Hj.
  destruct (randbelow (Z.of_nat live) s) as [j s1]. simpl in Hj.
  assert (Z.to_nat j < live)%nat as Hj' by lia. clear Hj.
  destruct (lookup_lt_is_Some_2 pool (Z.to_nat j)) as [picked Hpicked]; [lia|].
  destruct (lookup_lt_is_Some_2 pool (live - 1)) as [xl Hxl]; [lia|].
  rewrite Hpicked, Hxl. simpl.
  pose proof (pool_step_Permutation pool live (Z.to_nat j) xl) as Hperm.
  specialize (Hperm ltac:(lia) Hj' Hxl).
  assert (take live pool !! Z.to_nat j = Some picked) as Hpicked'
    by by rewrite lookup_take_lt.
  specialize (IH (live - 1)%nat (<[Z.to_nat j := xl]> pool) s1).
  destruct (sample_pool k (live - 1) _ s1) as [rest s2]. simpl in *.
  destruct IH as (Hlen & Hnd' & Hin).
  { rewrite length_insert. lia. }
  { rewrite Hperm. rewrite (delete_Permutation _ _ _ Hpicked') in Hnd.
    by apply NoDup_cons in Hnd as [_ ?]. }
  rewrite (delete_Permutation _ _ _ Hpicked') in Hnd. apply NoDup_cons in Hnd as [Hfresh Hnd].
  split_and!.
  - by rewrite Hlen.
  - constructor; [|done]. intros Hp. apply Hin in Hp. by rewrite Hperm in Hp.
  - intros i Hi. apply elem_of_cons in Hi as [->|Hi].
    + by eapply list_elem_of_lookup_2.
    + apply Hin in Hi. rewrite Hperm in Hi.
      rewrite (delete_Permutation _ _ _ Hpicked'). by right.
Qed.

(** ** [sample] from a large population *)

Lemma free_position (n : nat) (selected : gset nat) :
  (size selected < n)%nat ->
  exists i, head (List.filter (fun i => bool_decide (i ∉ selected)) (seq 0 n)) = Some i.
Proof.
  intros Hsize.
  destruct (List.filter _ (seq 0 n)) as [|i l] eqn:Hf; [|by exists i].
  exfalso.
  assert (list_to_set (seq 0 n) ⊆ selected) as Hsub.
  { intros i Hi. apply elem_of_list_to_set in Hi.
    destruct (decide (i ∈ selected)) as [|Hni]; [done|].
    assert (i ∈ List.filter (fun i => bool_decide (i ∉ selected)) (seq 0 n)) as Hin.
    { apply list_elem_of_In, filter_In. split; [by apply list_elem_of_In|].
      by apply bool_decide_eq_true. }
    rewrite Hf in Hin. by apply elem_of_nil in Hin. }
  apply subseteq_size in Hsub.
  rewrite size_list_to_set, length_seq in Hsub by apply NoDup_seq. lia.
Qed.

Lemma draw_fresh_spec (fuel n : nat) (selected : gset nat) (s : state) :
  (size selected < n)%nat ->
  ((draw_fresh fuel n selected s).1 < n)%nat /\ (draw_fresh fuel n selected s).1 ∉ selected.
Proof.
  intros Hsize. revert s. induction fuel as [|fuel IH]; intros s; simpl.
  - destruct (free_position n selected Hsize) as [i Hi]. rewrite Hi. simpl.
    apply head_Some_elem_of, list_elem_of_In, filter_In in Hi as [Hi Hfree].
    apply list_elem_of_In, elem_of_seq in Hi. apply bool_decide_eq_true in Hfree.
    split; [lia|done].
  - pose proof (randbelow_range (Z.of_nat n) s) as Hj.
    destruct (randbelow (Z.of_nat n) s) as [j s1]. simpl in Hj.
    destruct (decide (Z.to_nat j ∈ selected)); [apply IH|]. simpl. split; [lia|done].
Qed.

Lemma sample_set_S (k n : nat) (selected : gset nat) (s : state) :
  sample_set (S k) n selected s =
  let '(j, s) := draw_fresh 1000 n selected s in
  let '(rest, s) := sample_set k n ({[j]} ∪ selected) s in
  (j :: rest, s).
Proof. reflexivity. Qed.

Lemma sample_set_spec (k n : nat) (selected : gset nat) (s : state) :
  (size selected + k <= n)%nat ->
  length (sample_set k n selected s).1 = k /\
  NoDup (sample_set k n selected s).1 /\
  forall i, i ∈ (sample_set k n selected s).1 -> (i < n)%nat /\ i ∉ selected.
Proof.
  revert selected s. induction k as [|k IH]; intros selected s Hsize.
  { simpl. split_and!; [done|constructor|]. intros i Hi. by apply elem_of_nil in Hi. }
  rewrite sample_set_S.
  pose proof (draw_fresh_spec 1000 n selected s) as Hj. specialize (Hj ltac:(lia)).
  destruct (draw_fresh 1000 n selected s) as [j s1].
  cbn [fst] in Hj. destruct Hj as [Hjn Hjfree].
  specialize (IH ({[j]} ∪ selected) s1).
  destruct (sample_set k n ({[j]} ∪ selected) s1) as [rest s2]. cbn [fst] in *.
  destruct IH as (Hlen & Hnd & Hin).
  { rewrite size_union, size_singleton by set_solver. lia. }
  split_and!.
  - cbn [length]. by rewrite Hlen.
  - constructor; [|done]. intros Hp. apply Hin in Hp as [_ Hp].
    by apply Hp, elem_of_union_l, elem_of_singleton.
  - intros i Hi. apply elem_of_cons in Hi as [->|Hi]; [done|].
    apply Hin in Hi as [? Hi]. split; [done|].
    intros Hs. by apply Hi, elem_of_union_r.
Qed.

Lemma sample_spec (s : state) (n k : nat) :
  (k <= n)%nat ->
  length (sample s n k).1 = k /\ NoDup (sample s n k).1 /\
  Forall (fun i => (i < n)%nat) (sample s n k).1.
Proof.
  intros Hk. unfold sample. destruct (_ <=? _).
  - assert (take n (seq 0 n) = seq 0 n) as Htake.
    { apply take_ge. rewrite length_seq. lia. }
    destruct (sample_pool_spec k n (seq 0 n) s) as (Hlen & Hnd & Hin).
    { rewrite length_seq. lia. }
    { rewrite Htake. apply NoDup_seq. }
    split_and!; [done|done|]. apply Forall_forall. intros i Hi. apply Hin in Hi.
    rewrite Htake in Hi. apply elem_of_seq in Hi. lia.
  - destruct (sample_set_spec k n ∅ s) as (Hlen & Hnd & Hin).
    { rewrite size_empty. lia. }
    split_and!; [done|done|]. apply Forall_forall. intros i Hi.
    by destruct (Hin i Hi).
Qed.
End MT19937_facts.

#[export] Instance CPython_laws : PyRuntimeLaws CPython.
Proof.
  split.
  - intros s l. apply MT19937_facts.shuffle_Permutation.
  - intros s n k Hk. by apply MT19937_facts.sample_spec.
  - intros s n k Hk. by apply MT19937_facts.sample_spec.
  - intros s n k Hk. by apply MT19937_facts.sample_spec.
Qed.

(** ** The noise at a negative coordinate *)

Lemma _grad_land (h : Z) (x y : float) : _grad h x y = _grad (Z.land h 3) x y.
Proof.
  unfold _grad. cbv zeta.
  replace (Z.land (Z.land h 3) 3) with (Z.land h 3); [done|].
  by rewrite <- Z.land_assoc.
Qed.

Lemma land_3_cases (h : Z) :
  Z.land h 3 = 0 \/ Z.land h 3 = 1 \/ Z.land h 3 = 2 \/ Z.land h 3 = 3.
Proof.
  assert (0 <= Z.land h 3 < 4); [|lia].
  change 3 with (Z.ones 2). rewrite Z.land_ones by lia. apply Z.mod_pos_bound. lia.
Qed.

(** Whatever the permutation table, the value at (-0.5, 0) is one of
    these four. *)
Lemma noise2d_minus_half (sn : SimplexNoise.t) (v : float) :
  noise2d sn (-0.5) 0 = Ok v -> v ∈ [1.875; -5.25; 5.25; -1.875]%float.
Proof.
  unfold noise2d.
  replace (py_int (-0.5)) with (Ok 0) by (vm_compute; reflexivity).
  replace (py_int 0) with (Ok 0) by (vm_compute; reflexivity).
  cbn [mbind Result_bind]. intros H.
  inv_bind H as p1 Hp1. inv_bind H as aa Haa. inv_bind H as p2 Hp2. inv_bind H as ab Hab.
  inv_bind H as p3 Hp3. inv_bind H as ba Hba. inv_bind H as p4 Hp4. inv_bind H as bb Hbb.
  injection H as <-.
  rewrite (_grad_land aa), (_grad_land ab), (_grad_land ba), (_grad_land bb).
  destruct (land_3_cases aa) as [->|[->|[->| ->]]];
  destruct (land_3_cases ab) as [->|[->|[->| ->]]];
  destruct (land_3_cases ba) as [->|[->|[->| ->]]];
  destruct (land_3_cases bb) as [->|[->|[->| ->]]];
  vm_compute; set_solver.
Qed.

Section Runs.
Context `{RT : PyRuntime}.
Import TerrainGenerator.
#[local] Abbreviation Gen := TerrainGenerator.t.

(** ** From an evaluation to a run *)

Lemma ok_b_bind {A B} (m : Result A) (k : A -> Result B) :
  ok_b (m ≫= k) = true -> exists a, m = Ok a /\ ok_b (k a) = true.
Proof. destruct m as [a|e]; [by exists a|done]. Qed.

Lemma guard_true (b : bool) : ok_b (guard b) = true -> b = true.
Proof. by destruct b. Qed.

Lemma guard_Ok (b : bool) (u : unit) : guard b = Ok u -> b = true.
Proof. by destruct b. Qed.

Lemma actual_river_count_nonneg (self : Gen) :
  0 <= river_count self -> 0 <= actual_river_count self.
Proof.
  intros H. unfold actual_river_count.
  destruct (Z.ltb_spec (Z.of_nat (length (eligible self))) (river_count self)); lia.
Qed.

(** Once the elevation stage has returned on an object that asks for no
    negative number of rivers, [generate] returns, and its grid has the
    elevations and water flags of the elevation stage. *)
Lemma generate_after_elevation (self se : Gen) :
  _generate_elevation self = Ok se -> 0 <= river_count self ->
  exists out self', generate self = Ok (out, self') /\
    same_config se self' /\ grid_rel frozen (tiles se) (tiles self').
Proof.
  intros Hse Hn.
  pose proof (_generate_elevation_spec _ _ Hse) as (Hc & _).
  destruct (generate_total self se Hse) as (out & self' & Hgen).
  { apply actual_river_count_nonneg.
    assert (river_count se = river_count self) as ->
      by (unfold same_config in Hc; symmetry; tauto).
    done. }
  exists out, self'. split; [done|].
  apply generate_Ok in Hgen as (se' & sr & sm & Hse' & Hsr & Hsm & Hsb & _).
  assert (se' = se) as -> by congruence.
  destruct (later_stages_frozen _ _ _ _ Hsr Hsm Hsb) as (Hc' & _ & HR1 & HR2).
  split; [done|by etrans].
Qed.

Lemma checked_run {A} (self : Gen) (k : Gen -> Result A) :
  ok_b (_generate_elevation self ≫= k) = true -> 0 <= river_count self ->
  exists se out self', _generate_elevation self = Ok se /\ ok_b (k se) = true /\
    generate self = Ok (out, self') /\
    same_config se self' /\ grid_rel frozen (tiles se) (tiles self').
Proof.
  intros H Hn. apply ok_b_bind in H as (se & Hse & Hk).
  destruct (generate_after_elevation self se Hse Hn) as (out & self' & Hgen & Hc & HR).
  by exists se, out, self'.
Qed.

(** A tile of the elevation stage is found again, with its elevation
    and water flag, in a grid that froze them. *)
Lemma frozen_tile_at (ts ts' : grid) (x y : Z) (t : Tile.t) :
  grid_rel frozen ts ts' -> tile_at ts x y = Ok t ->
  exists t', tile_at ts' x y = Ok t' /\
    Tile.elevation t' = Tile.elevation t /\ Tile.water t' = Tile.water t.
Proof.
  intros HR Ht. pose proof (tile_at_rel _ _ _ x y HR) as Hrel. rewrite Ht in Hrel.
  destruct (tile_at ts' x y) as [t'|]; [|done].
  exists t'. destruct Hrel as (_ & _ & He & Hw & _). done.
Qed.

(** The rain shadow reads the configuration and the elevations only. *)
Lemma _calculate_rain_shadow_frozen (s1 s2 : Gen) (x y : Z) :
  same_config s1 s2 -> grid_rel frozen (tiles s1) (tiles s2) ->
  _calculate_rain_shadow s1 x y = _calculate_rain_shadow s2 x y.
Proof.
  intros Hc HR. unfold _calculate_rain_shadow.
  assert (prevailing_wind s1 = prevailing_wind s2) as -> by (unfold same_config in Hc; tauto).
  apply for_each_ext. intros i mb _. unfold rain_shadow_step.
  rewrite (in_bounds_config s1 s2) by done. destruct (in_bounds s2 _); [|done].
  match goal with |- context [tile_at (tiles s1) ?a ?b] =>
    pose proof (tile_at_rel _ _ _ a b HR) as Ht;
    destruct (tile_at (tiles s1) a b) as [t1|e1], (tile_at (tiles s2) a b) as [t2|e2]
  end; try done; simpl; [|by subst].
  destruct Ht as (_ & _ & -> & _). done.
Qed.

(** A mountain [n] cells upwind forbids a smaller rain shadow to be the
    maximum over the first [n] cells. *)
Lemma not_maximum_below (self : Gen) (x y n : Z) (t : Tile.t) (r : float) :
  0 < n ->
  let c := (x + (wind_direction (prevailing_wind self)).1 * n,
            y + (wind_direction (prevailing_wind self)).2 * n) in
  in_bounds self c = true -> tile_at (tiles self) c.1 c.2 = Ok t ->
  (0.7 <? Tile.elevation t)%float = true ->
  (r <? (Tile.elevation t - 0.7) * 0.5)%float = true ->
  ~ is_maximum r (0%float :: penalties self x y n).
Proof.
  intros Hn c Hb Ht He Hr [_ Hmax].
  rewrite (Hmax ((Tile.elevation t - 0.7) * 0.5)%float) in Hr; [done|].
  apply elem_of_cons. right. unfold penalties. apply list_elem_of_omap.
  exists c. split.
  - unfold upwind_cells. apply list_elem_of_fmap. exists n. split; [done|].
    unfold range2. apply elem_of_seqZ. lia.
  - unfold penalty. by rewrite Hb, Ht, He.
Qed.
End Runs.

Import TerrainGenerator.

(** ** The three runs *)

Lemma highlands_gen_init :
  TerrainGenerator_init (RT := CPython) 50 50 1 "highlands" 5 0.5 2.0 1.0 8 "west"
  = Ok highlands_gen.
Proof. reflexivity. Qed.

Lemma default_gen_init :
  TerrainGenerator_init (RT := CPython) 50 50 42 "continent" 5 0.5 2.0 100.0 8 "west"
  = Ok default_gen.
Proof. reflexivity. Qed.

Lemma crowded_gen_init :
  TerrainGenerator_init (RT := CPython) 50 50 42 "continent" 1 0.5 2.0 100.0 3000 "west"
  = Ok crowded_gen.
Proof. reflexivity. Qed.

Lemma highlands_check_ok :
  ok_b (_generate_elevation highlands_gen ≫= highlands_check) = true.
Proof. vm_compute. reflexivity. Qed.

Lemma default_check_ok :
  ok_b (_generate_elevation default_gen ≫= default_check) = true.
Proof. vm_compute. reflexivity. Qed.


Lemma highlands_run :
  exists se out self', _generate_elevation highlands_gen = Ok se /\
    ok_b (highlands_check se) = true /\ generate highlands_gen = Ok (out, self') /\
    same_config se self' /\ grid_rel frozen (tiles se) (tiles self').
Proof. apply checked_run; [exact highlands_check_ok|]. by vm_compute. Qed.

Lemma default_run :
  exists se out self', _generate_elevation default_gen = Ok se /\
    ok_b (default_check se) = true /\ generate default_gen = Ok (out, self') /\
    same_config se self' /\ grid_rel frozen (tiles se) (tiles self').
Proof. apply checked_run; [exact default_check_ok|]. by vm_compute. Qed.

Import TerrainGenerator.

Lemma default_gen_config (se self' : TerrainGenerator.t) :
  _generate_elevation default_gen = Ok se -> same_config se self' ->
  same_config default_gen self'.
Proof.
  intros Hse Hc. apply _generate_elevation_spec in Hse as (Hc0 & _). by etrans.
Qed.

(** ** The claims that fail on the code *)

(** C5 (code defect). On the map of [TerrainGenerator(50, 50, seed=42)],
    every other parameter at its default (the wind blows from the west),
    the rain shadow computed at (41, 12) is not the maximum penalty over
    the 15 cells upwind: the tile at (26, 12), 15 cells upwind, is a
    mountain whose penalty exceeds it.  The scan stops after 14 cells. *)
Theorem rain_shadow_misses_cell_15 :
  exists g out self' r,
    TerrainGenerator_init (RT := CPython) 50 50 42 "continent" 5 0.5 2.0 100.0 8 "west"
      = Ok g /\
    generate g = Ok (out, self') /\
    _calculate_rain_shadow self' 41 12 = Ok r /\
    is_maximum r (0%float :: penalties self' 41 12 14) /\
    ~ is_maximum r (0%float :: penalties self' 41 12 15).
Proof.
  destruct default_run as (se & out & self' & Hse & Hk & Hgen & Hc & HR).
  unfold default_check in Hk.
  apply ok_b_bind in Hk as (t15 & Ht15 & Hk). apply ok_b_bind in Hk as (r & Hr & Hk).
  apply ok_b_bind in Hk as (u & Hg & _).
  apply guard_Ok, andb_true_iff in Hg as [He Hlt].
  rewrite (_calculate_rain_shadow_frozen se self' 41 12 Hc HR) in Hr.
  pose proof (default_gen_config se self' Hse Hc) as Hc0.
  assert (prevailing_wind self' = "west") as Hwind
    by (unfold same_config in Hc0; symmetry; tauto).
  assert (in_bounds self' (26, 12) = true) as Hb.
  { rewrite <- (in_bounds_config default_gen self' _ Hc0). vm_compute. reflexivity. }
  destruct (frozen_tile_at _ _ 26 12 t15 HR Ht15) as (t & Ht & Hel & _).
  rewrite <- Hel in He, Hlt.
  exists default_gen, out, self', r.
  split; [exact default_gen_init|]. split; [exact Hgen|]. split; [exact Hr|].
  split; [exact (_calculate_rain_shadow_spec _ _ _ _ Hr)|].
  apply (not_maximum_below self' 41 12 15 t r);
    [lia| | |exact He|exact Hlt]; rewrite Hwind; [exact Hb|exact Ht].
Qed.

(** C6 (code defect). Whatever the seed, [noise2d] at (-0.5, 0.0) returns
    a value outside [-1, 1]. *)
Theorem noise2d_escapes_unit_interval (sn : SimplexNoise.t) (v : float) :
  noise2d sn (-0.5) 0 = Ok v -> ((v <? -1) || (1 <? v))%float = true.
Proof.
  intros H. apply noise2d_minus_half in H.
  repeat (apply elem_of_cons in H as [->|H]; [reflexivity|]).
  by apply elem_of_nil in H.
Qed.

Lemma noise2d_seed_1 :
  noise2d (SimplexNoise_init (RT := CPython) 1) (-0.5) 0 = Ok (-1.875)%float.
Proof. vm_compute. reflexivity. Qed.

Lemma noise2d_escapes_unit_interval_witness :
  noise2d (SimplexNoise_init (RT := CPython) 1) (-0.5) 0 = Ok (-1.875)%float /\
  ((-1.875 <? -1) || (1 <? -1.875))%float = true.
Proof.
  split; [exact noise2d_seed_1|].
  exact (noise2d_escapes_unit_interval _ _ noise2d_seed_1).
Defined.

(** C7 (code defect). [TerrainGenerator(50, 50, seed=1, mode='highlands',
    scale=1.0).generate()] returns, and the tile at (3, 0) of its grid is
    water. *)
Theorem highlands_water_tile :
  exists g out self' t,
    TerrainGenerator_init (RT := CPython) 50 50 1 "highlands" 5 0.5 2.0 1.0 8 "west"
      = Ok g /\
    generate g = Ok (out, self') /\
    tile_at (tiles self') 3 0 = Ok t /\ Tile.water t = true.
Proof.
  destruct highlands_run as (se & out & self' & Hse & Hk & Hgen & Hc & HR).
  unfold highlands_check in Hk.
  apply ok_b_bind in Hk as (t0 & Ht0 & Hw). apply guard_true in Hw.
  destruct (frozen_tile_at _ _ 3 0 t0 HR Ht0) as (t & Ht & _ & Hwt).
  exists highlands_gen, out, self', t.
  split; [exact highlands_gen_init|]. split; [exact Hgen|]. split; [exact Ht|].
  by rewrite Hwt.
Qed.

Import TerrainGenerator.

(** ** The claims at concrete runs *)

Lemma water_frozen_after_elevation_witness :
  exists out self',
    generate default_gen = Ok (out, self') /\
    exists se, _generate_elevation default_gen = Ok se /\
      grid_rel (fun t t' =>
                  Tile.elevation t' = Tile.elevation t /\ Tile.water t' = Tile.water t /\
                  Tile.water t' = (Tile.elevation t' <? 0.4)%float)
               (tiles se) (tiles self').
Proof.
  destruct default_run as (se & out & self' & _ & _ & Hgen & _).
  exists out, self'. split; [exact Hgen|].
  exact (water_frozen_after_elevation default_gen out self' Hgen).
Defined.

Lemma kept_rivers_valid_witness :
  exists out self',
    rivers default_gen = [] /\ generate default_gen = Ok (out, self') /\
    (forall r, r ∈ rivers self' -> river_valid (tiles self') r) /\
    Z.of_nat (length (rivers self')) <=
      Z.min (river_count default_gen) (Z.of_nat (length (eligible self'))) /\
    t_rivers out = map river_dict_of (rivers self').
Proof.
  destruct default_run as (se & out & self' & _ & _ & Hgen & _).
  exists out, self'. split; [reflexivity|]. split; [exact Hgen|].
  exact (kept_rivers_valid default_gen out self' eq_refl Hgen).
Defined.

Lemma trace_step_and_bound_witness :
  exists se path r,
    _generate_elevation default_gen = Ok se /\
    _trace_river_path se 26 12 = Ok path /\
    trace_body se (trace_start 26 12) = Ok r /\
    _get_neighbors se 26 12 =
      List.filter (in_bounds se) [(26, 12 + 1); (26 + 1, 12); (26, 12 - 1); (26 - 1, 12)] /\
    (exists cur, tile_at (tiles se) 26 12 = Ok cur /\
      match r with
      | inl st' =>
          st' = mk_trace [(26, 12)] (26, 12) {[(26, 12)]} 1 /\
          (Tile.water cur = true \/
           (Tile.water cur = false /\
            forall m, m ∈ candidates se {[(26, 12)]} 26 12 ->
                      (elev_at se m <? Tile.elevation cur)%float = false))
      | inr st' =>
          Tile.water cur = false /\
          exists n, first_lowest (elev_at se) (Tile.elevation cur)
                                 (candidates se {[(26, 12)]} 26 12) n /\
            st' = mk_trace ([(26, 12)] ++ [n]) n ({[n]} ∪ {[(26, 12)]}) 1
      end) /\
    (exists st', trace_while se (width se * height se) (trace_start 26 12) st' /\
      path = tr_path st' /\ last path = Some (tr_current st') /\
      tr_iterations st' <= Z.max 0 (width se * height se) /\
      Z.of_nat (length path) <= tr_iterations st' + 1).
Proof.
  destruct default_run as (se & _ & _ & Hse & Hk & _).
  unfold default_check in Hk.
  apply ok_b_bind in Hk as (t15 & _ & Hk). apply ok_b_bind in Hk as (r0 & _ & Hk).
  apply ok_b_bind in Hk as (u & _ & Hk). apply ok_b_bind in Hk as (path & Hpath & Hk).
  apply ok_b_bind in Hk as (r & Hr & _).
  exists se, path, r. split; [exact Hse|]. split; [exact Hpath|]. split; [exact Hr|].
  exact (trace_step_and_bound se 26 12 path (trace_start 26 12) r Hpath Hr).
Defined.


Lemma moisture_formula_14_witness :
  exists sr sm,
    _calculate_moisture sr = Ok sm /\ in_bounds sr (41, 12) = true /\
    exists t t' d r,
      tile_at (tiles sr) 41 12 = Ok t /\ tile_at (tiles sm) 41 12 = Ok t' /\
      _distance_to_water sr 41 12 = Ok d /\
      is_maximum r (0%float :: penalties sr 41 12 14) /\
      Tile.moisture t' = moisture_formula d (Tile.elevation t) r /\
      (Tile.moisture t' <? 0)%float = false /\ (1 <? Tile.moisture t')%float = false.
Proof.
  destruct default_run as (se & out & self' & Hse & _ & Hgen & _).
  apply generate_Ok in Hgen as (se' & sr & sm & Hse' & Hsr & Hsm & _).
  assert (in_bounds sr (41, 12) = true) as Hb.
  { assert (se' = se) as -> by congruence.
    apply _generate_rivers_spec in Hsr as (_ & Hc & _).
    rewrite <- (in_bounds_config default_gen sr _ (default_gen_config se sr Hse Hc)).
    vm_compute. reflexivity. }
  exists sr, sm. split; [exact Hsm|]. split; [exact Hb|].
  exact (moisture_formula_14 sr sm 41 12 Hsm Hb).
Defined.

(** * Further properties *)

Section NoiseTable.
Context `{RT : PyRuntime}.

(** ** The permutation table *)

Lemma land_255_range (z : Z) : 0 <= Z.land z 255 <= 255.
Proof.
  change 255 with (Z.ones 8) at 1 2. rewrite Z.land_ones by lia.
  pose proof (Z.mod_pos_bound z (2 ^ 8)). lia.
Qed.

(** The table of [SimplexNoise(seed)] has 512 entries, each of them in
    0..255. *)
Lemma perm_table_wf `{!PyRuntimeLaws RT} (seed : Z) :
  length (SimplexNoise.perm (SimplexNoise_init seed)) = 512%nat /\
  forall v, v ∈ SimplexNoise.perm (SimplexNoise_init seed) -> 0 <= v < 256.
Proof.
  unfold SimplexNoise_init. cbn [SimplexNoise.perm].
  pose proof (rng_shuffle_perm (Random seed) (range 256)) as Hp.
  split.
  - rewrite length_app, Hp. reflexivity.
  - intros v Hv. apply elem_of_app in Hv. rewrite Hp in Hv.
    apply elem_of_range. tauto.
Qed.

Lemma perm_lookup (p : list Z) (i : Z) :
  length p = 512%nat -> (forall v, v ∈ p -> 0 <= v < 256) -> 0 <= i < 512 ->
  exists v, py_getitem p i = Ok v /\ 0 <= v < 256.
Proof.
  intros Hlen Hval Hi.
  destruct (lookup_lt_is_Some_2 p (Z.to_nat i)) as [v Hv]; [lia|].
  exists v. split; [by apply py_getitem_nonneg; [lia|]|].
  apply Hval. by eapply list_elem_of_lookup_2.
Qed.

(** With the 512-entry table every lookup of [noise2d] is in range. *)
Lemma noise2d_after_int `{!PyRuntimeLaws RT} (seed : Z) (x y : float) (ix iy : Z) :
  py_int x = Ok ix -> py_int y = Ok iy ->
  exists v, noise2d (SimplexNoise_init seed) x y = Ok v.
Proof.
  intros Hx Hy. unfold noise2d. rewrite Hx, Hy. cbn [mbind Result_bind]. cbv zeta.
  destruct (perm_table_wf seed) as [Hlen Hval].
  set (p := SimplexNoise.perm (SimplexNoise_init seed)) in *.
  pose proof (land_255_range ix) as Hxi. pose proof (land_255_range iy) as Hyi.
  destruct (perm_lookup p (Z.land ix 255) Hlen Hval) as (pxi & -> & Hpxi); [lia|].
  cbn [mbind Result_bind].
  destruct (perm_lookup p (pxi + Z.land iy 255) Hlen Hval) as (aa & -> & _); [lia|].
  cbn [mbind Result_bind].
  destruct (perm_lookup p (pxi + Z.land iy 255 + 1) Hlen Hval) as (ab & -> & _); [lia|].
  cbn [mbind Result_bind].
  destruct (perm_lookup p (Z.land ix 255 + 1) Hlen Hval) as (pxi1 & -> & Hpxi1); [lia|].
  cbn [mbind Result_bind].
  destruct (perm_lookup p (pxi1 + Z.land iy 255) Hlen Hval) as (ba & -> & _); [lia|].
  cbn [mbind Result_bind].
  destruct (perm_lookup p (pxi1 + Z.land iy 255 + 1) Hlen Hval) as (bb & -> & _); [lia|].
  cbn [mbind Result_bind]. eauto.
Qed.

Lemma py_int_finite (x : float) : is_finite x = true -> exists ix, py_int x = Ok ix.
Proof.
  unfold is_finite, py_int, Prim2SF. intros H.
  apply negb_true_iff, orb_false_iff in H as [-> Hinf].
  destruct (is_zero x); [eauto|]. rewrite Hinf.
  destruct (Z.frexp x) as [r e]. destruct (shr_fexp _ _ _ _ _) as [shr e'].
  destruct (shr_m shr); eauto.
Qed.

Lemma py_int_raises (x : float) (e : PyErr) :
  py_int x = Raise e ->
  (e = ValueError /\ is_nan x = true) \/ (e = OverflowError /\ is_infinity x = true).
Proof.
  unfold py_int, Prim2SF.
  destruct (is_nan x); [intros [= <-]; by left|].
  destruct (is_zero x); [done|].
  destruct (is_infinity x); [intros [= <-]; by right|].
  destruct (Z.frexp x) as [r e0]. destruct (shr_fexp _ _ _ _ _) as [shr e'].
  by destruct (shr_m shr).
Qed.

Lemma py_int_nan (x : float) : is_nan x = true -> py_int x = Raise ValueError.
Proof. unfold py_int, Prim2SF. by intros ->. Qed.

(** X2. [noise2d] on the table of [SimplexNoise(seed)] returns for finite
    coordinates; it raises only what [int()] raises on a NaN (ValueError)
    or an infinity (OverflowError), never IndexError. *)
Theorem noise2d_lookups_in_range `{!PyRuntimeLaws RT} (seed : Z) (x y : float) :
  (is_finite x = true -> is_finite y = true ->
   exists v, noise2d (SimplexNoise_init seed) x y = Ok v) /\
  (forall e, noise2d (SimplexNoise_init seed) x y = Raise e ->
     (e = ValueError /\ (is_nan x = true \/ is_nan y = true)) \/
     (e = OverflowError /\ (is_infinity x = true \/ is_infinity y = true))) /\
  (is_nan x = true -> noise2d (SimplexNoise_init seed) x y = Raise ValueError).
Proof.
  split_and!.
  - intros Hx Hy. destruct (py_int_finite x Hx) as [ix Hix], (py_int_finite y Hy) as [iy Hiy].
    by eapply noise2d_after_int.
  - intros e He.
    destruct (py_int x) as [ix|ex] eqn:Hix.
    + destruct (py_int y) as [iy|ey] eqn:Hiy.
      * destruct (noise2d_after_int seed x y ix iy Hix Hiy) as [v Hv]. congruence.
      * unfold noise2d in He. rewrite Hix, Hiy in He. injection He as <-.
        apply py_int_raises in Hiy. tauto.
    + unfold noise2d in He. rewrite Hix in He. injection He as <-.
      apply py_int_raises in Hix. tauto.
  - intros Hx. unfold noise2d. by rewrite (py_int_nan x Hx).
Qed.
End NoiseTable.

Lemma noise2d_lookups_in_range_witness :
  exists v, noise2d (SimplexNoise_init (RT := CPython) 1) 0.5 0.25 = Ok v.
Proof.
  exact (proj1 (noise2d_lookups_in_range (RT := CPython) 1 0.5 0.25) eq_refl eq_refl).
Defined.

Section ElevationErrors.
Context `{RT : PyRuntime}.
Import TerrainGenerator.
#[local] Abbreviation Gen := TerrainGenerator.t.

(** ** Divisions by zero in the elevation stage *)

Lemma range_cons (n : Z) : 0 < n -> range n = 0 :: range2 1 n.
Proof.
  intros Hn. unfold range, range2. rewrite seqZ_cons by lia.
  f_equal. f_equal. lia.
Qed.

Lemma range_nil (n : Z) : n <= 0 -> range n = [].
Proof. intros Hn. unfold range, range2. apply seqZ_nil. lia. Qed.

Lemma octave_step_zero_scale (self : Gen) (x y : Z) (st : float * float * float * float) :
  (scale self =? 0)%float = true -> octave_step self x y st = Raise ZeroDivisionError.
Proof.
  intros Hs. destruct st as [[[e a] f] m]. unfold octave_step, py_div. by rewrite Hs.
Qed.

(** No octave leaves [max_value] at 0.0; a zero scale divides by zero in
    the first octave. *)
Lemma blended_elevation_zero_division (self : Gen) (x y : Z) :
  octaves self <= 0 \/ (scale self =? 0)%float = true ->
  blended_elevation self x y = Raise ZeroDivisionError.
Proof.
  intros H. unfold blended_elevation.
  destruct (Z_le_gt_dec (octaves self) 0) as [Ho|Ho].
  - rewrite (range_nil _ Ho). reflexivity.
  - destruct H as [H|Hs]; [lia|].
    rewrite range_cons by lia. cbn [for_each].
    by rewrite octave_step_zero_scale.
Qed.

(** The first tile computed is (0, 0): what it raises, the stage raises. *)
Lemma _generate_elevation_first_tile (self : Gen) (e : PyErr) :
  0 < width self -> 0 < height self ->
  elevation_tile self 0 0 = Raise e -> _generate_elevation self = Raise e.
Proof.
  intros Hw Hh He. unfold _generate_elevation.
  rewrite (range_cons (height self)), (range_cons (width self)) by done.
  cbn [map_st]. by rewrite He.
Qed.

(** X3. [TerrainGenerator(..., octaves=n, scale=s).generate()] raises
    ZeroDivisionError when [n <= 0] or [s == 0]. *)
Theorem generate_zero_division
    (width height seed : Z) (mode : string) (octaves : Z)
    (persistence lacunarity scale : float) (river_count : Z) (wind : string)
    (g : Gen) :
  TerrainGenerator_init width height seed mode octaves persistence lacunarity
    scale river_count wind = Ok g ->
  octaves <= 0 \/ (scale =? 0)%float = true ->
  generate g = Raise ZeroDivisionError.
Proof.
  unfold TerrainGenerator_init. intros Hg H.
  destruct (Z.ltb_spec width 50), (Z.ltb_spec height 50); try done.
  injection Hg as <-. unfold generate.
  rewrite (_generate_elevation_first_tile _ ZeroDivisionError); [done|simpl; lia|simpl; lia|].
  unfold elevation_tile. by rewrite blended_elevation_zero_division.
Qed.
End ElevationErrors.

Lemma generate_zero_division_witness :
  TerrainGenerator_init (RT := CPython) 50 50 1 "continent" 0 0.5 2.0 100.0 8 "west"
    = Ok (TerrainGenerator.mk CPython 50 50 1 "continent" 0 0.5 2.0 100.0 8 "west"
            (Random 1) (SimplexNoise_init 1) [] []) /\
  (0 <= 0 \/ (100.0 =? 0)%float = true) /\
  generate (TerrainGenerator.mk CPython 50 50 1 "continent" 0 0.5 2.0 100.0 8 "west"
              (Random 1) (SimplexNoise_init 1) [] []) = Raise ZeroDivisionError.
Proof.
  split; [reflexivity|]. split; [left; lia|].
  apply (generate_zero_division 50 50 1 "continent" 0 0.5 2.0 100.0 8 "west");
    [reflexivity|left; lia].
Defined.

Section RiverCount.
Context `{RT : PyRuntime}.
Import TerrainGenerator.
#[local] Abbreviation Gen := TerrainGenerator.t.

(** ** The river count *)

(** [random.sample] refuses a negative count. *)
Lemma _generate_rivers_negative (self : Gen) :
  grid_wf self -> river_count self < 0 -> _generate_rivers self = Raise ValueError.
Proof.
  intros Hwf Hneg. unfold _generate_rivers.
  destruct (river_sources_total self Hwf) as [sources ->]. cbn [mbind Result_bind].
  destruct (Z.ltb_spec (Z.of_nat (length sources)) (river_count self)) as [Hlt|_]; [lia|].
  unfold sample_sources.
  destruct (Z.leb_spec 0 (river_count self)) as [Hle|_]; [lia|]. reflexivity.
Qed.

(** X4. Once the elevation stage has returned, [generate] returns when the
    river count is not negative and raises ValueError when it is: the
    stages after the elevation stage raise nothing else. *)
Theorem generate_returns_or_value_error (self se : Gen) :
  _generate_elevation self = Ok se ->
  (0 <= river_count self -> exists out self', generate self = Ok (out, self')) /\
  (river_count self < 0 -> generate self = Raise ValueError).
Proof.
  intros Hse. split.
  - intros Hn. destruct (generate_after_elevation self se Hse Hn) as (out & self' & Hgen & _).
    by exists out, self'.
  - intros Hneg. unfold generate. rewrite Hse. cbn [mbind Result_bind].
    pose proof (_generate_elevation_spec _ _ Hse) as (Hc & _ & Hwf & _).
    rewrite _generate_rivers_negative; [done|done|].
    assert (river_count se = river_count self) as ->
      by (unfold same_config in Hc; symmetry; tauto).
    done.
Qed.
End RiverCount.

Import TerrainGenerator.

Lemma generate_returns_or_value_error_witness :
  exists se, _generate_elevation default_gen = Ok se /\
    (0 <= river_count default_gen ->
     exists out self', generate default_gen = Ok (out, self')) /\
    (river_count default_gen < 0 -> generate default_gen = Raise ValueError).
Proof.
  destruct default_run as (se & _ & _ & Hse & _).
  exists se. split; [exact Hse|].
  exact (generate_returns_or_value_error default_gen se Hse).
Defined.

Section Descent.
Context `{RT : PyRuntime}.
Import TerrainGenerator.
#[local] Abbreviation Gen := TerrainGenerator.t.

(** ** Rivers flow downhill *)

Lemma elev_at_tile (self : Gen) (c : coord) (t : Tile.t) :
  tile_at (tiles self) c.1 c.2 = Ok t -> elev_at self c = Tile.elevation t.
Proof. unfold elev_at. by intros ->. Qed.

Lemma descent_step (self : Gen) (st st' : trace_state) :
  trace_body self st = Ok (inr st') ->
  last (tr_path st) = Some (tr_current st) ->
  descending self (tr_path st) -> dry_upstream self (tr_path st) ->
  descending self (tr_path st') /\ dry_upstream self (tr_path st').
Proof.
  intros Hbody Hlast Hdesc Hdry.
  apply trace_body_spec in Hbody as (cur & Hcur & Hw & n & (k & _ & Hlow & _) & ->).
  cbn [tr_path]. rewrite last_lookup in Hlast.
  split.
  - intros j c c' Hc Hc'.
    destruct (decide (S j < length (tr_path st))%nat) as [Hj|Hj].
    + rewrite lookup_app_l in Hc by lia. rewrite lookup_app_l in Hc' by lia. eauto.
    + assert (S j = length (tr_path st)) as Hj'.
      { apply lookup_lt_Some in Hc'. rewrite length_app in Hc'. simpl in Hc'. lia. }
      rewrite lookup_app_l in Hc by lia.
      rewrite lookup_app_r, Hj', Nat.sub_diag in Hc' by lia. injection Hc' as <-.
      rewrite <- Hj' in Hlast. simpl in Hlast.
      assert (c = tr_current st) as -> by congruence.
      by rewrite (elev_at_tile self _ cur Hcur).
  - intros j c Hc Hj. rewrite length_app in Hj. simpl in Hj.
    destruct (decide (S j < length (tr_path st))%nat) as [Hj'|Hj'].
    + rewrite lookup_app_l in Hc by lia. eauto.
    + assert (S j = length (tr_path st)) as Hj'' by lia.
      rewrite lookup_app_l in Hc by lia.
      rewrite <- Hj'' in Hlast. simpl in Hlast.
      assert (c = tr_current st) as -> by congruence.
      by exists cur.
Qed.

Lemma trace_while_descent (self : Gen) (start : coord) (max_iterations : Z)
    (st st' : trace_state) :
  trace_while self max_iterations st st' ->
  trace_inv self start st ->
  descending self (tr_path st) -> dry_upstream self (tr_path st) ->
  descending self (tr_path st') /\ dry_upstream self (tr_path st').
Proof.
  induction 1 as [st Hcap|st st' Hlt Hbody|st st1 st' Hlt Hbody Hwhile IH];
    intros Hinv Hdesc Hdry.
  - done.
  - apply trace_body_spec in Hbody as (cur & _ & -> & _). done.
  - destruct (descent_step self st st1 Hbody) as [Hdesc1 Hdry1]; [apply Hinv|done|done|].
    apply (trace_body_inv _ start) in Hbody as (Hinv1 & _); [|done].
    by apply IH.
Qed.

(** X5. A traced path descends strictly, and only its last tile may be
    water. *)
Theorem river_flows_downhill (self : Gen) (x y : Z) (path : list coord) :
  _trace_river_path self x y = Ok path ->
  descending self path /\ dry_upstream self path.
Proof.
  intros H. apply _trace_river_path_spec in H as (st' & Hwhile & _ & -> & _).
  apply (trace_while_descent self (x, y) _ _ _ Hwhile).
  - apply trace_start_inv.
  - intros [|i] c c' Hc Hc'; simpl in *; done.
  - intros [|i] c Hc Hi; simpl in *; [lia|done].
Qed.

(** ** The iteration cap never cuts a river short *)

Lemma descending_lt (self : Gen) (path : list coord) (i j : nat) (a b : coord) :
  descending self path -> (i < j)%nat ->
  path !! i = Some a -> path !! j = Some b ->
  (elev_at self b <? elev_at self a)%float = true.
Proof.
  intros Hdesc Hij Ha. revert b. induction j as [|j IH]; intros b Hb; [lia|].
  destruct (decide (i = j)) as [->|Hne]; [by eapply Hdesc|].
  destruct (lookup_lt_is_Some_2 path j) as [m Hm].
  { apply lookup_lt_Some in Hb. lia. }
  eapply float_ltb_trans; [by eapply Hdesc|]. apply IH; [lia|done].
Qed.

Lemma length_all_coords (self : Gen) :
  length (all_coords self) = (Z.to_nat (height self) * Z.to_nat (width self))%nat.
Proof.
  unfold all_coords.
  rewrite flat_map_constant_length with (c := Z.to_nat (width self)).
  - unfold range, range2. rewrite length_seqZ. f_equal. lia.
  - intros y _. rewrite length_map. unfold range, range2. rewrite length_seqZ. lia.
Qed.

Lemma path_in_grid (self : Gen) (start : coord) (st : trace_state) :
  trace_inv self start st -> in_bounds self start = true ->
  Z.of_nat (length (tr_path st)) <= width self * height self.
Proof.
  intros Hinv Hstart.
  assert (tr_path st ⊆+ all_coords self) as Hsub.
  { apply NoDup_submseteq; [apply Hinv|]. intros c Hc. apply elem_of_all_coords.
    destruct (inv_bounds _ _ _ Hinv c Hc) as [->|Hb]; done. }
  apply submseteq_length in Hsub. rewrite length_all_coords in Hsub.
  apply in_bounds_spec in Hstart. simpl in Hstart. nia.
Qed.

(** A neighbour already on the path is not strictly lower than the tile
    the path has reached. *)
Lemma visited_not_lower (self : Gen) (start : coord) (st : trace_state)
    (cur : Tile.t) (m : coord) :
  trace_inv self start st -> descending self (tr_path st) ->
  tile_at (tiles self) (tr_current st).1 (tr_current st).2 = Ok cur ->
  m ∈ tr_path st -> (elev_at self m <? Tile.elevation cur)%float = false.
Proof.
  intros Hinv Hdesc Hcur Hm.
  rewrite <- (elev_at_tile self _ cur Hcur).
  apply list_elem_of_lookup in Hm as [i Hi].
  pose proof (inv_last _ _ _ Hinv) as Hlast. rewrite last_lookup in Hlast.
  pose proof (lookup_lt_Some _ _ _ Hi) as Hlt.
  destruct (decide (i = pred (length (tr_path st)))) as [->|Hne].
  - assert (m = tr_current st) as -> by congruence. apply float_ltb_irrefl.
  - apply float_ltb_asym. eapply (descending_lt self _ i); [done| |done|done]. lia.
Qed.

Lemma trace_while_ends (self : Gen) (start : coord) (max_iterations : Z)
    (st st' : trace_state) :
  trace_while self max_iterations st st' ->
  trace_inv self start st ->
  descending self (tr_path st) -> dry_upstream self (tr_path st) ->
  Z.of_nat (length (tr_path st)) = tr_iterations st + 1 ->
  water_or_pit self (tr_current st') \/
  (max_iterations <= tr_iterations st' /\
   Z.of_nat (length (tr_path st')) = tr_iterations st' + 1).
Proof.
  induction 1 as [st Hcap|st st' Hlt Hbody|st st1 st' Hlt Hbody Hwhile IH];
    intros Hinv Hdesc Hdry Hlen.
  - right. split; [lia|done].
  - left. apply trace_body_spec in Hbody as (cur & Hcur & -> & Hstop). cbn [tr_current].
    exists cur. split; [done|]. destruct Hstop as [Hw|[_ Hnone]]; [by left|right].
    intros m Hm. destruct (decide (m ∈ tr_visited st)) as [Hv|Hv].
    + eapply visited_not_lower; [done|done|done|]. by apply Hinv.
    + apply Hnone. unfold candidates, unvisited.
      rewrite list_elem_of_In, filter_In, <- list_elem_of_In, <- _get_neighbors_eq.
      split; [done|]. by apply bool_decide_eq_true.
  - destruct (descent_step self st st1 Hbody) as [Hdesc1 Hdry1]; [apply Hinv|done|done|].
    apply (trace_body_inv _ start) in Hbody as (Hinv1 & Hit1 & Hlen1); [|done].
    apply IH; auto.
Qed.

(** X6. A path traced from a coordinate within the bounds of the map ends on
    a water tile or in a pit: the cap on the iterations is never what
    stops it. *)
Theorem river_ends_at_water_or_pit (self : Gen) (x y : Z) (path : list coord) :
  in_bounds self (x, y) = true ->
  _trace_river_path self x y = Ok path ->
  exists c, last path = Some c /\ water_or_pit self c.
Proof.
  intros Hb H. apply _trace_river_path_spec in H as (st' & Hwhile & Hinv & -> & _).
  exists (tr_current st'). split; [apply Hinv|].
  destruct (trace_while_ends self (x, y) _ _ _ Hwhile) as [Hend|[Hcap Hlen]].
  - apply trace_start_inv.
  - intros [|i] c c' Hc Hc'; simpl in *; done.
  - intros [|i] c Hc Hi; simpl in *; [lia|done].
  - done.
  - done.
  - pose proof (path_in_grid self (x, y) st' Hinv Hb). lia.
Qed.
End Descent.

Import TerrainGenerator.

Lemma river_flows_downhill_witness :
  exists se path,
    _generate_elevation default_gen = Ok se /\
    _trace_river_path se 26 12 = Ok path /\
    descending se path /\ dry_upstream se path.
Proof.
  destruct default_run as (se & out & self' & Hse & Hk & _).
  unfold default_check in Hk.
  apply ok_b_bind in Hk as (t15 & _ & Hk). apply ok_b_bind in Hk as (r0 & _ & Hk).
  apply ok_b_bind in Hk as (u & _ & Hk). apply ok_b_bind in Hk as (path & Hpath & _).
  exists se, path. split; [exact Hse|]. split; [exact Hpath|].
  exact (river_flows_downhill se 26 12 path Hpath).
Defined.

Lemma river_ends_at_water_or_pit_witness :
  exists se path,
    _generate_elevation default_gen = Ok se /\
    in_bounds se (26, 12) = true /\
    _trace_river_path se 26 12 = Ok path /\
    exists c, last path = Some c /\ water_or_pit se c.
Proof.
  destruct default_run as (se & out & self' & Hse & Hk & _).
  unfold default_check in Hk.
  apply ok_b_bind in Hk as (t15 & _ & Hk). apply ok_b_bind in Hk as (r0 & _ & Hk).
  apply ok_b_bind in Hk as (u & _ & Hk). apply ok_b_bind in Hk as (path & Hpath & _).
  assert (in_bounds se (26, 12) = true) as Hb.
  { pose proof (_generate_elevation_spec _ _ Hse) as (Hc & _).
    rewrite <- (in_bounds_config default_gen se _ Hc). vm_compute. reflexivity. }
  exists se, path. split; [exact Hse|]. split; [exact Hb|]. split; [exact Hpath|].
  exact (river_ends_at_water_or_pit se 26 12 path Hb Hpath).
Defined.

(** ** More of the order of floats *)

Lemma SFcompare_swap (x y : spec_float) :
  SFcompare y x = option_map CompOpp (SFcompare x y).
Proof.
  destruct x as [sx|sx| |sx mx ex], y as [sy|sy| |sy my ey]; simpl; try done;
    repeat match goal with s : bool |- _ => destruct s end; simpl; try done.
  all: rewrite (Z.compare_antisym ex ey); destruct (ex ?= ey); simpl; try done.
  all: change (Pos.compare_cont Eq my mx) with (Pos.compare my mx);
    change (Pos.compare_cont Eq mx my) with (Pos.compare mx my);
    rewrite (Pos.compare_antisym mx my); by destruct (mx ?= my)%positive.
Qed.

Lemma SFcompare_None (x y : spec_float) :
  SFcompare x y = None -> SFcompare x x = None \/ SFcompare y y = None.
Proof.
  destruct x as [sx|sx| |sx mx ex], y as [sy|sy| |sy my ey]; simpl; try done; auto.
Qed.

Lemma leb_Le (x y : float) :
  (x <=? y)%float = true <->
  SFcompare (Prim2SF x) (Prim2SF y) = Some Lt \/ SFcompare (Prim2SF x) (Prim2SF y) = Some Eq.
Proof.
  rewrite FloatAxioms.leb_spec. unfold SFleb.
  destruct (SFcompare _ _) as [[]|]; split; intros; try done; try tauto.
  all: destruct H; congruence.
Qed.

Lemma float_ltb_leb (x y : float) : (x <? y)%float = true -> (x <=? y)%float = true.
Proof. rewrite ltb_Lt, leb_Le. auto. Qed.

(** A float compared with [<=] is not a NaN. *)
Lemma float_leb_eqb_r (x y : float) : (x <=? y)%float = true -> (y =? y)%float = true.
Proof.
  rewrite leb_Le, eqb_Eq. generalize (Prim2SF x) (Prim2SF y). intros a b.
  destruct a as [sa|sa| |sa ma ea], b as [sb|sb| |sb mb eb]; simpl;
    intros [H|H]; try done;
    repeat match goal with s : bool |- _ => destruct s end; simpl; try done.
  all: rewrite Z.compare_refl; f_equal; simpl; try apply Pos.compare_cont_refl.
  all: by rewrite Pos.compare_cont_refl.
Qed.

Lemma float_leb_eqb_l (x y : float) : (x <=? y)%float = true -> (x =? x)%float = true.
Proof.
  rewrite leb_Le, eqb_Eq. generalize (Prim2SF x) (Prim2SF y). intros a b.
  destruct a as [sa|sa| |sa ma ea], b as [sb|sb| |sb mb eb]; simpl;
    intros [H|H]; try done;
    repeat match goal with s : bool |- _ => destruct s end; simpl; try done.
  all: rewrite Z.compare_refl; f_equal; simpl; try apply Pos.compare_cont_refl.
  all: by rewrite Pos.compare_cont_refl.
Qed.

(** Among floats that are not NaN, [c <= x] is the negation of [x < c]. *)
Lemma float_leb_negb_ltb (x c : float) :
  (x =? x)%float = true -> (c =? c)%float = true ->
  (c <=? x)%float = negb (x <? c)%float.
Proof.
  rewrite !eqb_Eq, FloatAxioms.leb_spec, FloatAxioms.ltb_spec. unfold SFleb, SFltb.
  intros Hx Hc. rewrite (SFcompare_swap (Prim2SF c) (Prim2SF x)).
  destruct (SFcompare (Prim2SF c) (Prim2SF x)) as [[]|] eqn:H; try done.
  apply SFcompare_None in H as [H|H]; congruence.
Qed.

Lemma float_leb_refl (x : float) : (x =? x)%float = true -> (x <=? x)%float = true.
Proof. rewrite eqb_Eq, leb_Le. auto. Qed.

(** ** The biome classifier as a decision table *)

Lemma biome_rules_lookup :
  _load_biome_rules !! "deep_ocean" = Some (mk_rule (Some (0.0, 0.3)%float) None) /\
  _load_biome_rules !! "ocean" = Some (mk_rule (Some (0.3, 0.38)%float) None) /\
  _load_biome_rules !! "beach" = Some (mk_rule (Some (0.38, 0.42)%float) None) /\
  _load_biome_rules !! "mountain" = Some (mk_rule (Some (0.78, 1.0)%float) None) /\
  _load_biome_rules !! "highland" = Some (mk_rule (Some (0.7, 0.78)%float) None) /\
  _load_biome_rules !! "wetlands"
    = Some (mk_rule (Some (0.42, 0.5)%float) (Some (0.7, 1.0)%float)) /\
  _load_biome_rules !! "temperate_forest"
    = Some (mk_rule (Some (0.42, 0.7)%float) (Some (0.6, 1.0)%float)) /\
  _load_biome_rules !! "grassland"
    = Some (mk_rule (Some (0.42, 0.7)%float) (Some (0.25, 0.6)%float)) /\
  _load_biome_rules !! "desert"
    = Some (mk_rule (Some (0.42, 0.7)%float) (Some (0.0, 0.25)%float)).
Proof. split_and!; vm_compute; reflexivity. Qed.

Ltac leb_to_ltb x Hx :=
  repeat match goal with
  | |- context [(?c <=? x)%float] =>
      rewrite (float_leb_negb_ltb x c) by first [exact Hx|reflexivity]
  | |- context [(x <=? ?c)%float] =>
      rewrite (float_leb_negb_ltb c x) by first [exact Hx|reflexivity]
  end.

Lemma determine_biome_by_table (e m : float) :
  (0 <=? e)%float = true -> (e <=? 1)%float = true ->
  (0 <=? m)%float = true -> (m <=? 1)%float = true ->
  _determine_biome e m _load_biome_rules = Ok (biome_table e m).
Proof.
  intros He0 He1 Hm0 Hm1.
  pose proof (float_leb_eqb_r _ _ He0) as Hen. pose proof (float_leb_eqb_r _ _ Hm0) as Hmn.
  destruct biome_rules_lookup as (R1 & R2 & R3 & R4 & R5 & R6 & R7 & R8 & R9).
  unfold _determine_biome, priority. cbn [first_match].
  rewrite R1, R2, R3, R4, R5, R6, R7, R8, R9.
  unfold rule_matches, biome_table. cbv zeta.
  cbv [default from_option id rule_elevation rule_moisture fst snd].
  rewrite He0, Hm0, Hm1.
  leb_to_ltb e Hen. leb_to_ltb m Hmn.
  assert ((e <? 0.3)%float = true -> (e <? 0.38)%float = true) as M1
    by (intros H; by apply (float_ltb_trans _ _ _ H)).
  assert ((e <? 0.38)%float = true -> (e <? 0.42)%float = true) as M2
    by (intros H; by apply (float_ltb_trans _ _ _ H)).
  assert ((e <? 0.42)%float = true -> (e <? 0.5)%float = true) as M3
    by (intros H; by apply (float_ltb_trans _ _ _ H)).
  assert ((e <? 0.5)%float = true -> (e <? 0.7)%float = true) as M4
    by (intros H; by apply (float_ltb_trans _ _ _ H)).
  assert ((e <? 0.7)%float = true -> (e <? 0.78)%float = true) as M5
    by (intros H; by apply (float_ltb_trans _ _ _ H)).
  assert ((e <? 0.78)%float = true -> (e <? 1)%float = true) as M6
    by (intros H; by apply (float_ltb_trans _ _ _ H)).
  assert ((m <? 0.25)%float = true -> (m <? 0.6)%float = true) as N1
    by (intros H; by apply (float_ltb_trans _ _ _ H)).
  assert ((m <? 0.6)%float = true -> (m <? 0.7)%float = true) as N2
    by (intros H; by apply (float_ltb_trans _ _ _ H)).
  assert ((m <? 0.25)%float = true -> (0.25 <? m)%float = false) as N3
    by apply float_ltb_asym.
  assert ((m <? 0.6)%float = true -> (0.6 <? m)%float = false) as N4
    by apply float_ltb_asym.
  generalize dependent (e <? 0.3)%float. generalize dependent (e <? 0.38)%float.
  generalize dependent (e <? 0.42)%float. generalize dependent (e <? 0.5)%float.
  generalize dependent (e <? 0.7)%float. generalize dependent (e <? 0.78)%float.
  generalize dependent (e <? 1)%float.
  generalize dependent (m <? 0.25)%float. generalize dependent (m <? 0.6)%float.
  generalize dependent (m <? 0.7)%float.
  generalize dependent (0.25 <? m)%float. generalize dependent (0.6 <? m)%float.
  intros g6 g25 m7 m6 N2 N4 m25 N1 N3 e1 e78 M6 e7 M5 e5 M4 e42 M3 e38 M2 e3 M1.
  destruct e3; [specialize (M1 eq_refl); subst; reflexivity|clear M1].
  destruct e38; [specialize (M2 eq_refl); subst; reflexivity|clear M2].
  destruct e42; [specialize (M3 eq_refl); subst; reflexivity|clear M3].
  destruct e7.
  - specialize (M5 eq_refl); subst. clear M4 M6. cbn [negb andb].
    destruct m25; [specialize (N1 eq_refl); specialize (N3 eq_refl); subst|clear N1 N3].
    + specialize (N2 eq_refl); specialize (N4 eq_refl); subst. by destruct e5.
    + destruct m6; [specialize (N2 eq_refl); specialize (N4 eq_refl); subst|clear N2 N4].
      * by destruct e5.
      * by destruct e5, m7.
  - assert (e5 = false) as -> by (destruct e5; [by specialize (M4 eq_refl)|done]).
    clear M4 M5. destruct e78; [specialize (M6 eq_refl); subst; reflexivity|].
    by destruct e1.
Qed.

(** X7. For an elevation and a moisture in [0, 1], [_determine_biome] returns
    what the decision table says: the first three bands are the sea and
    the beach, the band [0.42, 0.7) is split by moisture (wetlands
    overriding forest below 0.5), then highland and mountain; elevation
    1.0 falls through to the default. *)
Theorem _determine_biome_table (e m : float) :
  (0 <=? e)%float = true -> (e <=? 1)%float = true ->
  (0 <=? m)%float = true -> (m <=? 1)%float = true ->
  _determine_biome e m _load_biome_rules = Ok (biome_table e m).
Proof. apply determine_biome_by_table. Qed.

Lemma _determine_biome_table_witness :
  (0 <=? 0.45)%float = true /\ (0.45 <=? 1)%float = true /\
  (0 <=? 0.8)%float = true /\ (0.8 <=? 1)%float = true /\
  _determine_biome 0.45 0.8 _load_biome_rules = Ok (biome_table 0.45 0.8).
Proof.
  split_and!; [reflexivity..|].
  apply (_determine_biome_table 0.45 0.8); reflexivity.
Defined.

Section FinishedGrid.
Context `{RT : PyRuntime}.
Import TerrainGenerator.
#[local] Abbreviation Gen := TerrainGenerator.t.

(** ** The tiles of a finished map *)

Lemma clamp01_bounds (v : float) :
  (0 <=? clamp01 v)%float = true /\ (clamp01 v <=? 1)%float = true.
Proof.
  unfold clamp01, py_max, py_min.
  destruct (v <? 1)%float eqn:H1.
  - destruct (0 <? v)%float eqn:H0.
    + split; by apply float_ltb_leb.
    + split; reflexivity.
  - split; reflexivity.
Qed.

(** Every tile of the grid the elevation stage leaves was made by
    [elevation_tile] for its place. *)
Lemma _generate_elevation_tiles (self se : Gen) :
  _generate_elevation self = Ok se ->
  forall x y t, tile_at (tiles se) x y = Ok t -> 0 <= x -> 0 <= y ->
    exists s s', same_config self s /\ elevation_tile s y x = Ok (t, s').
Proof.
  unfold _generate_elevation. intros H. inv_bind H as res Hres.
  destruct res as [rows s]. injection H as <-.
  set (Qx := fun (y x : Z) (t : Tile.t) =>
               exists s s', same_config self s /\ elevation_tile s y x = Ok (t, s')).
  set (Qy := fun (y : Z) (row : list Tile.t) => Forall2 (Qx y) (range (width self)) row).
  assert (forall y x s3 t s4, x ∈ range (width self) -> same_config self s3 ->
            elevation_tile s3 y x = Ok (t, s4) -> Qx y x t /\ same_config self s4) as Htile.
  { intros y x s3 t s4 _ Hc3 Ht.
    pose proof (elevation_tile_spec _ _ _ _ _ Ht) as (_ & Hc4 & _).
    split; [by exists s3, s4|by etrans]. }
  assert (forall y s1 row s2, y ∈ range (height self) -> same_config self s1 ->
            map_st (fun x s0 => elevation_tile s0 y x) (range (width self)) s1 = Ok (row, s2) ->
            Qy y row /\ same_config self s2) as Hrow.
  { intros y s1 row s2 _ HP1 Hrow.
    exact (map_st_inv (same_config self) (Qx y) _ _ _ _ _ HP1 (Htile y) Hrow). }
  destruct (map_st_inv (same_config self) Qy _ _ _ _ _ (reflexivity self) Hrow Hres)
    as [Hrows _].
  intros x y t Ht Hx Hy. destruct s; cbn [tiles set_tiles] in Ht.
  apply tile_at_nonneg in Ht as (row & Hrow' & Ht); [|done..].
  destruct (Forall2_lookup_r _ _ _ _ _ Hrows Hrow') as (y' & Hy' & HQy).
  destruct (Forall2_lookup_r _ _ _ _ _ HQy Ht) as (x' & Hx' & HQx).
  unfold range, range2 in Hx', Hy'.
  apply lookup_seqZ in Hx' as [-> Hx'], Hy' as [-> Hy'].
  rewrite !Z.add_0_l, !Z2Nat.id in HQx by done. exact HQx.
Qed.

(** What [elevation_tile] puts in the fields the later stages never write. *)
Lemma elevation_tile_fields (self : Gen) (y x : Z) (t : Tile.t) (self' : Gen) :
  elevation_tile self y x = Ok (t, self') ->
  ((0 <=? Tile.elevation t)%float = true /\ (Tile.elevation t <=? 1)%float = true) /\
  Tile.river_size t = 0 /\ Tile.terrain_feature t = None.
Proof.
  unfold elevation_tile. intros H. inv_bind H as e He. inv_bind H as r Hr.
  destruct r as [e' s1]. injection H as <- <-. cbn.
  split; [|done]. apply clamp01_bounds.
Qed.

(** The biome the last stage stores in each tile. *)
Lemma _assign_biomes_value (self self' : Gen) (c : coord) :
  _assign_biomes self = Ok self' -> in_bounds self c = true ->
  exists b t, tile_at (tiles self) c.1 c.2 = Ok t /\
    _determine_biome (Tile.elevation t) (Tile.moisture t) _load_biome_rules = Ok b /\
    tile_at (tiles self') c.1 c.2 = Ok (Tile.set_biome b t).
Proof.
  rewrite _assign_biomes_store. intros H Hb.
  apply (store_loop_spec _ _ biome_only set_biome_only) with (c := c) in H.
  - destruct H as (b & t & Hv & Ht & Ht'). exists b, t. split_and!; [done| |done].
    unfold tile_biome in Hv. by rewrite Ht in Hv.
  - intros s1 s2 c0. apply tile_biome_rel.
  - apply NoDup_all_coords.
  - intros c0 Hc0. apply elem_of_all_coords, in_bounds_spec in Hc0. lia.
  - by apply elem_of_all_coords.
Qed.

Lemma tile_moisture_bounds (self : Gen) (x y : Z) (m : float) :
  tile_moisture self x y = Ok m ->
  (0 <=? m)%float = true /\ (m <=? 1)%float = true.
Proof.
  unfold tile_moisture. intros H. inv_bind H as t Ht. inv_bind H as d Hd.
  inv_bind H as r Hr. injection H as <-. apply clamp01_bounds.
Qed.

Lemma stored_fields (t0 : Tile.t) (r : bool) (m : float) (b : string) :
  let t1 := Tile.set_moisture m (Tile.set_river r t0) in
  let t := Tile.set_biome b t1 in
  Tile.elevation t1 = Tile.elevation t0 /\ Tile.moisture t1 = m /\
  Tile.x t = Tile.x t0 /\ Tile.y t = Tile.y t0 /\
  Tile.elevation t = Tile.elevation t0 /\ Tile.moisture t = m /\
  Tile.biome t = b /\ Tile.water t = Tile.water t0 /\
  Tile.river_size t = Tile.river_size t0 /\
  Tile.terrain_feature t = Tile.terrain_feature t0.
Proof. by destruct t0. Qed.

Lemma generated_tile (self : Gen) (out : terrain) (self' : Gen) (x y : Z) :
  generate self = Ok (out, self') -> in_bounds self' (x, y) = true ->
  exists t, tile_at (tiles self') x y = Ok t /\ finished_tile x y t.
Proof.
  intros H Hb. apply generate_Ok in H as (se & sr & sm & Hse & Hsr & Hsm & Hsb & _).
  pose proof (_generate_elevation_spec _ _ Hse) as (_ & _ & Hwf & Hpt & _).
  pose proof (_generate_rivers_spec _ _ Hsr) as (_ & Hc1 & HR1 & _).
  pose proof (_calculate_moisture_spec _ _ Hsm) as (Hc2 & _ & _ & _ & Hm).
  pose proof (_assign_biomes_spec _ _ Hsb) as (Hc3 & _).
  assert (in_bounds sm (x, y) = true) as Hb2 by by rewrite (in_bounds_config sm self').
  assert (in_bounds sr (x, y) = true) as Hb1 by by rewrite (in_bounds_config sr sm).
  pose proof Hb1 as Hxy. apply in_bounds_spec in Hxy as [Hx Hy]. cbn [fst snd] in Hx, Hy.
  destruct (_assign_biomes_value sm self' (x, y) Hsb Hb2) as (b & t2 & Ht2 & Hbiome & Ht).
  destruct (Hm (x, y) Hb1) as (m & t1 & Hmoist & Ht1 & Ht2'). cbn [fst snd] in *.
  rewrite Ht2 in Ht2'. injection Ht2' as ->.
  pose proof (tile_at_rel _ _ _ x y HR1) as Hrel. rewrite Ht1 in Hrel.
  destruct (tile_at (tiles se) x y) as [t0|] eqn:Ht0; [|done].
  destruct Hrel as [Hrel _].
  destruct (Hpt x y t0 Ht0) as [Hpx Hpy Hpw _ _ _ _]; [lia..|].
  destruct (_generate_elevation_tiles self se Hse x y t0 Ht0) as (s & s' & _ & Htile); [lia..|].
  apply elevation_tile_fields in Htile as (Hrange & Hsize & Hfeat).
  pose proof (tile_moisture_bounds sr x y m Hmoist) as Hmb.
  exists (Tile.set_biome b (Tile.set_moisture m t1)). split; [done|].
  rewrite Hrel in Hbiome |- *.
  destruct (stored_fields t0 (Tile.river t1) m b)
    as (He1 & Hm1 & Hfx & Hfy & Hfe & Hfm & Hfb & Hfw & Hfs & Hff).
  rewrite He1, Hm1 in Hbiome.
  rewrite (determine_biome_by_table _ m) in Hbiome; [|tauto..].
  split; rewrite ?Hfx, ?Hfy, ?Hfe, ?Hfm, ?Hfb, ?Hfw, ?Hfs, ?Hff; try done.
  congruence.
Qed.

(** X8. In the grid [generate] returns, every tile carries its own
    coordinates, an elevation and a moisture in [0, 1] (never a NaN), the
    water flag of its elevation, the biome the decision table gives for
    its elevation and moisture, river_size 0 and no terrain feature; the
    grid has [height] rows of [width] tiles. *)
Theorem generated_grid_invariants (self : Gen) (out : terrain) (self' : Gen) :
  generate self = Ok (out, self') ->
  grid_dims (width self) (height self) (tiles self') /\
  forall x y, 0 <= x < width self -> 0 <= y < height self ->
    exists t, tile_at (tiles self') x y = Ok t /\ finished_tile x y t.
Proof.
  intros H.
  assert (same_config self self' /\ grid_wf self') as [Hc Hwf].
  { pose proof H as H'.
    apply generate_Ok in H' as (se & sr & sm & Hse & Hsr & Hsm & Hsb & _).
    pose proof (_generate_elevation_spec _ _ Hse) as (Hc0 & _ & Hwf & _).
    destruct (later_stages_frozen _ _ _ _ Hsr Hsm Hsb) as (Hc & _ & HR1 & HR2).
    split; [by etrans|]. eapply (grid_wf_rel frozen se); [done|by etrans|done]. }
  split.
  - unfold grid_wf in Hwf. destruct Hc as (-> & -> & _). done.
  - intros x y Hx Hy. apply (generated_tile self out self' x y H).
    rewrite <- (in_bounds_config self self' _ Hc). apply in_bounds_spec. done.
Qed.
End FinishedGrid.

Import TerrainGenerator.

Lemma generated_grid_invariants_witness :
  exists out self',
    generate default_gen = Ok (out, self') /\
    grid_dims (width default_gen) (height default_gen) (tiles self') /\
    forall x y, 0 <= x < width default_gen -> 0 <= y < height default_gen ->
      exists t, tile_at (tiles self') x y = Ok t /\ finished_tile x y t.
Proof.
  destruct default_run as (se & out & self' & _ & _ & Hgen & _).
  exists out, self'. split; [exact Hgen|].
  exact (generated_grid_invariants default_gen out self' Hgen).
Defined.

Section SeaBiomes.
Context `{RT : PyRuntime}.
Import TerrainGenerator.
#[local] Abbreviation Gen := TerrainGenerator.t.

(** ** Water and the biomes of the sea *)

Lemma biome_table_sea (e m : float) :
  ((e <? 0.4)%float = true -> biome_table e m ∈ ["deep_ocean"; "ocean"; "beach"]) /\
  (biome_table e m = "deep_ocean" \/ biome_table e m = "ocean" -> (e <? 0.4)%float = true).
Proof.
  unfold biome_table. split.
  - intros Hw. assert ((e <? 0.42)%float = true) as -> by by apply (float_ltb_trans _ _ _ Hw).
    destruct (e <? 0.3)%float; [set_solver|]. destruct (e <? 0.38)%float; set_solver.
  - destruct (e <? 0.3)%float eqn:H3.
    { intros _. by apply (float_ltb_trans _ _ _ H3). }
    destruct (e <? 0.38)%float eqn:H38.
    { intros _. by apply (float_ltb_trans _ _ _ H38). }
    destruct (e <? 0.42)%float; [by intros [|]|].
    destruct (e <? 0.7)%float.
    { destruct (_ && _); [by intros [|]|].
      destruct (0.6 <=? m)%float; [by intros [|]|].
      destruct (0.25 <=? m)%float; by intros [|]. }
    destruct (e <? 0.78)%float; [by intros [|]|].
    destruct (e <? 1)%float; by intros [|].
Qed.

(** X9. In the grid [generate] returns, a water tile has one of the biomes
    deep_ocean, ocean and beach, and a tile whose biome is deep_ocean or
    ocean is water. *)
Theorem water_tiles_have_sea_biomes (self : Gen) (out : terrain) (self' : Gen)
    (x y : Z) (t : Tile.t) :
  generate self = Ok (out, self') ->
  0 <= x < width self -> 0 <= y < height self ->
  tile_at (tiles self') x y = Ok t ->
  (Tile.water t = true -> Tile.biome t ∈ ["deep_ocean"; "ocean"; "beach"]) /\
  (Tile.biome t = "deep_ocean" \/ Tile.biome t = "ocean" -> Tile.water t = true).
Proof.
  intros H Hx Hy Ht.
  assert (in_bounds self' (x, y) = true) as Hb.
  { pose proof H as H'.
    apply generate_Ok in H' as (se & sr & sm & Hse & Hsr & Hsm & Hsb & _).
    pose proof (_generate_elevation_spec _ _ Hse) as (Hc0 & _).
    destruct (later_stages_frozen _ _ _ _ Hsr Hsm Hsb) as (Hc & _).
    rewrite <- (in_bounds_config self self'); [by apply in_bounds_spec|by etrans]. }
  destruct (generated_tile self out self' x y H Hb) as (t' & Ht' & Hft).
  assert (t' = t) as -> by congruence.
  destruct Hft as [_ _ _ _ Hw Hbiome _ _]. rewrite Hw, Hbiome. apply biome_table_sea.
Qed.
End SeaBiomes.

Import TerrainGenerator.

Section WaterDistance.
Context `{RT : PyRuntime}.
Import TerrainGenerator.
#[local] Abbreviation Gen := TerrainGenerator.t.

(** ** The distance to water *)

Lemma elem_of_scan_offsets (o : coord) :
  o ∈ scan_offsets <-> (-40 <= o.1 <= 40 /\ -40 <= o.2 <= 40).
Proof.
  unfold scan_offsets. rewrite list_elem_of_In, in_flat_map. split.
  - intros (dy & Hdy & Ho). apply list_elem_of_In in Hdy, Ho.
    apply list_elem_of_fmap in Ho as (dx & -> & Hdx).
    unfold range2 in Hdy, Hdx. apply elem_of_seqZ in Hdy, Hdx. simpl. lia.
  - intros [Hx Hy]. exists o.2. rewrite <- !list_elem_of_In. split.
    + unfold range2. apply elem_of_seqZ. lia.
    + apply list_elem_of_fmap. exists o.1. split; [by destruct o|].
      unfold range2. apply elem_of_seqZ. lia.
Qed.

Lemma water_scan_step_spec (self : Gen) (x y : Z) (o : coord) (md md' : option Z) :
  water_scan_step self x y o.2 o.1 md = Ok md' ->
  md' = if is_wet self (x + o.1, y + o.2)
        then Some match md with
                  | None => Z.abs o.1 + Z.abs o.2
                  | Some m => if Z.abs o.1 + Z.abs o.2 <? m then Z.abs o.1 + Z.abs o.2 else m
                  end
        else md.
Proof.
  unfold water_scan_step, is_wet. cbv zeta. cbn [fst snd].
  destruct (in_bounds self (x + o.1, y + o.2)); [|by intros [= <-]].
  intros H. inv_bind H as t Ht. rewrite Ht. cbn [andb].
  destruct (Tile.water t || Tile.river t); by injection H as <-.
Qed.

Lemma water_scan_loop (self : Gen) (x y : Z) (done_ todo : list coord)
    (md md' : option Z) :
  nearest_wet self x y done_ md ->
  for_each todo (fun o md => water_scan_step self x y o.2 o.1 md) md = Ok md' ->
  nearest_wet self x y (done_ ++ todo) md'.
Proof.
  revert done_ md. induction todo as [|o todo IH]; intros done_ md Hinv H; simpl in H.
  { injection H as <-. by rewrite app_nil_r. }
  inv_bind H as md1 Hmd1.
  replace (done_ ++ o :: todo) with ((done_ ++ [o]) ++ todo) by by rewrite <- app_assoc.
  apply (IH _ md1); [|done]. clear IH H.
  apply water_scan_step_spec in Hmd1 as ->.
  destruct (is_wet self (x + o.1, y + o.2)) eqn:Hwet.
  - destruct md as [m|]; simpl in *.
    + destruct Hinv as [(o' & Ho' & Hw' & ->) Hmin].
      destruct (Z.ltb_spec (Z.abs o.1 + Z.abs o.2) (Z.abs o'.1 + Z.abs o'.2)) as [Hlt|Hge].
      * split.
        -- exists o. split_and!; [|done|done]. apply elem_of_app. right. by left.
        -- intros o2 Ho2 Hw2. apply elem_of_app in Ho2 as [Ho2|Ho2].
           ++ specialize (Hmin o2 Ho2 Hw2). lia.
           ++ apply list_elem_of_singleton in Ho2 as ->. lia.
      * split.
        -- exists o'. split_and!; [|done|done]. apply elem_of_app. by left.
        -- intros o2 Ho2 Hw2. apply elem_of_app in Ho2 as [Ho2|Ho2]; [auto|].
           apply list_elem_of_singleton in Ho2 as ->. lia.
    + split.
      * exists o. split_and!; [|done|done]. apply elem_of_app. right. by left.
      * intros o2 Ho2 Hw2. apply elem_of_app in Ho2 as [Ho2|Ho2].
        -- by rewrite (Hinv o2 Ho2) in Hw2.
        -- apply list_elem_of_singleton in Ho2 as ->. lia.
  - destruct md as [m|]; simpl in *.
    + destruct Hinv as [(o' & Ho' & Hw' & ->) Hmin]. split.
      * exists o'. split_and!; [|done|done]. apply elem_of_app. by left.
      * intros o2 Ho2 Hw2. apply elem_of_app in Ho2 as [Ho2|Ho2]; [auto|].
        apply list_elem_of_singleton in Ho2 as ->. congruence.
    + intros o2 Ho2. apply elem_of_app in Ho2 as [Ho2|Ho2]; [auto|].
      by apply list_elem_of_singleton in Ho2 as ->.
Qed.

Lemma _distance_to_water_scan (self : Gen) (x y : Z) :
  _distance_to_water self x y =
  md ← for_each scan_offsets (fun o md => water_scan_step self x y o.2 o.1 md) None;
  Ok (default 40 md).
Proof.
  unfold _distance_to_water, scan_offsets. cbv zeta.
  rewrite <- (for_each_grid (range2 (-40) 41) (range2 (-40) 41)
                (fun o md => water_scan_step self x y o.2 o.1 md) None).
  reflexivity.
Qed.

Lemma _distance_to_water_nearest (self : Gen) (x y d : Z) :
  _distance_to_water self x y = Ok d ->
  exists md, nearest_wet self x y scan_offsets md /\ d = default 40 md.
Proof.
  rewrite _distance_to_water_scan. intros H. inv_bind H as md Hmd. injection H as <-.
  exists md. split; [|done].
  apply (water_scan_loop self x y [] scan_offsets None) in Hmd; [done|].
  intros o Ho. by apply elem_of_nil in Ho.
Qed.

(** X10. [_distance_to_water(x, y)] is the least |dx| + |dy| over the water
    or river tiles of the grid with |dx| <= 40 and |dy| <= 40, and 40 when
    there is none; it lies between 0 and 80 and is 0 exactly on a water or
    river tile. *)
Theorem _distance_to_water_is_nearest (self : Gen) (x y d : Z) :
  _distance_to_water self x y = Ok d ->
  ((d = 40 /\
    forall dx dy, -40 <= dx <= 40 -> -40 <= dy <= 40 ->
                  is_wet self (x + dx, y + dy) = false) \/
   ((exists dx dy, -40 <= dx <= 40 /\ -40 <= dy <= 40 /\
                   is_wet self (x + dx, y + dy) = true /\ d = Z.abs dx + Z.abs dy) /\
    forall dx dy, -40 <= dx <= 40 -> -40 <= dy <= 40 ->
                  is_wet self (x + dx, y + dy) = true -> d <= Z.abs dx + Z.abs dy)) /\
  0 <= d <= 80 /\
  (d = 0 <-> is_wet self (x, y) = true).
Proof.
  intros H. apply _distance_to_water_nearest in H as (md & Hmd & ->).
  destruct md as [d|]; simpl in *.
  - destruct Hmd as [(o & Ho & Hw & ->) Hmin]. apply elem_of_scan_offsets in Ho.
    split_and!.
    + right. split.
      * exists o.1, o.2. split_and!; [lia..|done|done].
      * intros dx dy Hdx Hdy Hwet.
        apply (Hmin (dx, dy)); [by apply elem_of_scan_offsets|done].
    + lia.
    + lia.
    + split.
      * intros H0. assert (o.1 = 0 /\ o.2 = 0) as [H1 H2] by lia.
        rewrite H1, H2, !Z.add_0_r in Hw. done.
      * intros Hxy. specialize (Hmin (0, 0)). simpl in Hmin. rewrite !Z.add_0_r in Hmin.
        specialize (Hmin ltac:(apply elem_of_scan_offsets; simpl; lia) Hxy). lia.
  - split_and!.
    + left. split; [done|]. intros dx dy Hdx Hdy.
      apply (Hmd (dx, dy)). by apply elem_of_scan_offsets.
    + lia.
    + lia.
    + split; [done|]. intros Hxy. specialize (Hmd (0, 0)). simpl in Hmd.
      rewrite !Z.add_0_r in Hmd.
      rewrite Hmd in Hxy; [done|]. apply elem_of_scan_offsets. simpl. lia.
Qed.
End WaterDistance.

Import TerrainGenerator.

(** The stages of the run on [default_gen]. *)
Lemma default_stages :
  exists se sr sm out self',
    _generate_elevation default_gen = Ok se /\ _generate_rivers se = Ok sr /\
    _calculate_moisture sr = Ok sm /\ _assign_biomes sm = Ok self' /\
    generate default_gen = Ok (out, self').
Proof.
  destruct default_run as (se & out & self' & Hse & _ & Hgen & _).
  pose proof Hgen as H.
  apply generate_Ok in H as (se' & sr & sm & Hse' & Hsr & Hsm & Hsb & _).
  exists se', sr, sm, out, self'.
  split; [exact Hse'|]. split; [exact Hsr|]. split; [exact Hsm|]. split; [exact Hsb|].
  exact Hgen.
Qed.

Lemma default_water_distance :
  exists sr d, same_config default_gen sr /\ _distance_to_water sr 41 12 = Ok d.
Proof.
  destruct default_stages as (se & sr & sm & out & self' & Hse & Hsr & Hsm & _).
  pose proof (_generate_elevation_spec _ _ Hse) as (Hc0 & _).
  pose proof (_generate_rivers_spec _ _ Hsr) as (_ & Hc1 & _).
  clear Hse Hsr.
  pose proof (transitivity Hc0 Hc1) as Hc.
  assert (in_bounds sr (41, 12) = true) as Hb.
  { rewrite <- (in_bounds_config default_gen sr _ Hc). vm_compute. reflexivity. }
  apply _calculate_moisture_spec in Hsm as (_ & _ & _ & _ & Hm).
  destruct (Hm (41, 12) Hb) as (m & t & Hmoist & _). cbn [fst snd] in Hmoist.
  unfold tile_moisture in Hmoist. apply bind_Ok in Hmoist as (t' & _ & Hmoist).
  apply bind_Ok in Hmoist as (d & Hd & _). exists sr, d. split; [exact Hc|exact Hd].
Qed.

Lemma _distance_to_water_is_nearest_witness :
  exists sr d,
    _distance_to_water sr 41 12 = Ok d /\
    ((d = 40 /\
      forall dx dy, -40 <= dx <= 40 -> -40 <= dy <= 40 ->
                    is_wet sr (41 + dx, 12 + dy) = false) \/
     ((exists dx dy, -40 <= dx <= 40 /\ -40 <= dy <= 40 /\
                     is_wet sr (41 + dx, 12 + dy) = true /\ d = Z.abs dx + Z.abs dy) /\
      forall dx dy, -40 <= dx <= 40 -> -40 <= dy <= 40 ->
                    is_wet sr (41 + dx, 12 + dy) = true -> d <= Z.abs dx + Z.abs dy)) /\
    0 <= d <= 80 /\
    (d = 0 <-> is_wet sr (41, 12) = true).
Proof.
  destruct default_water_distance as (sr & d & _ & Hd).
  exists sr, d. split; [exact Hd|].
  exact (_distance_to_water_is_nearest sr 41 12 d Hd).
Defined.

Section RiverMarks.
Context `{RT : PyRuntime}.
Import TerrainGenerator.
#[local] Abbreviation Gen := TerrainGenerator.t.

(** ** Only the tiles of a river are marked *)

Lemma mark_river_only (path : list coord) (ts ts' : grid) (x y : Z) (t' : Tile.t) :
  mark_river path ts = Ok ts' ->
  (forall c, c ∈ path -> 0 <= c.1 /\ 0 <= c.2) ->
  0 <= x -> 0 <= y ->
  tile_at ts' x y = Ok t' -> Tile.river t' = true ->
  (x, y) ∈ path \/ exists t, tile_at ts x y = Ok t /\ Tile.river t = true.
Proof.
  intros H Hpath Hx Hy Ht' Hr. revert ts H.
  induction path as [|c path IH]; intros ts H; simpl in H.
  - injection H as <-. right. by exists t'.
  - inv_bind H as ts1 Hts1.
    destruct (IH ltac:(intros c' Hc'; apply Hpath; by right) ts1 H) as [Hin|(t1 & Ht1 & Hr1)].
    + left. by right.
    + destruct (decide ((x, y) = c)) as [<-|Hne]; [left; by left|].
      right. exists t1. split; [|done]. rewrite <- Ht1. symmetry.
      destruct (Hpath c) as [Hcx Hcy]; [by left|].
      eapply update_tile_other; [exact Hts1|done..|].
      intros Heq. apply Hne. by destruct c.
Qed.

Lemma traced_path_nonneg (self : Gen) (x y : Z) (path : list coord) :
  0 <= x -> 0 <= y -> _trace_river_path self x y = Ok path ->
  forall c, c ∈ path -> 0 <= c.1 /\ 0 <= c.2.
Proof.
  intros Hx Hy H c Hc. apply _trace_river_path_spec in H as (st' & _ & Hinv & -> & _).
  destruct (inv_bounds _ _ _ Hinv c Hc) as [->|Hb]; [done|].
  apply in_bounds_spec in Hb. lia.
Qed.

Lemma river_step_marks (item : Z * coord) (s s' : Gen) (x y : Z) (t' : Tile.t) :
  river_step item s = Ok s' ->
  0 <= item.2.1 -> 0 <= item.2.2 -> 0 <= x -> 0 <= y ->
  tile_at (tiles s') x y = Ok t' -> Tile.river t' = true ->
  (exists r, kept_river s item = Some r /\ (x, y) ∈ River.path r) \/
  (exists t, tile_at (tiles s) x y = Ok t /\ Tile.river t = true).
Proof.
  destruct item as [idx [sx sy]]. unfold river_step, kept_river. cbn [fst snd].
  intros H Hsx Hsy Hx Hy Ht' Hr. inv_bind H as path Hpath. rewrite Hpath.
  destruct (10 <? Z.of_nat (length path)).
  - inv_bind H as ts Hts. injection H as <-.
    pose proof (traced_path_nonneg _ _ _ _ Hsx Hsy Hpath) as Hnn.
    destruct s; cbn [tiles set_tiles set_rivers] in *.
    destruct (mark_river_only path _ ts x y t' Hts Hnn Hx Hy Ht' Hr) as [Hin|Hold].
    + left. eexists. split; [done|]. done.
    + by right.
  - injection H as <-. right. by exists t'.
Qed.

Lemma rivers_loop_marks (s0 : Gen) (items : list (Z * coord)) (s s' : Gen)
    (x y : Z) (t' : Tile.t) :
  same_config s0 s -> grid_rel river_only (tiles s0) (tiles s) ->
  for_each items river_step s = Ok s' ->
  (forall item, item ∈ items -> 0 <= item.2.1 /\ 0 <= item.2.2) ->
  0 <= x -> 0 <= y ->
  tile_at (tiles s') x y = Ok t' -> Tile.river t' = true ->
  (exists r, r ∈ omap (kept_river s0) items /\ (x, y) ∈ River.path r) \/
  (exists t, tile_at (tiles s) x y = Ok t /\ Tile.river t = true).
Proof.
  intros Hc HR H Hitems Hx Hy Ht' Hr. revert s Hc HR H.
  induction items as [|item items IH]; intros s Hc HR H; simpl in H.
  - injection H as <-. right. by exists t'.
  - inv_bind H as s1 Hs1.
    pose proof (river_step_spec _ _ _ Hs1) as (Hc1 & _ & HR1 & _).
    destruct (IH ltac:(intros i Hi; apply Hitems; by right) s1) as [(r & Hr' & Hin)|Hold];
      [by etrans|by etrans|done| |].
    + left. exists r. split; [|done]. simpl.
      destruct (kept_river s0 item); [by right|done].
    + destruct Hold as (t1 & Ht1 & Hr1).
      destruct (Hitems item) as [Hsx Hsy]; [by left|].
      destruct (river_step_marks item s s1 x y t1 Hs1) as [(r & Hk & Hin)|Hold]; try done.
      * left. exists r. split; [|done]. simpl.
        rewrite (kept_river_terrain s0 s item Hc HR), Hk. by left.
      * by right.
Qed.

Lemma _generate_rivers_marks (self self' : Gen) (x y : Z) (t' : Tile.t) :
  _generate_rivers self = Ok self' -> 0 <= x -> 0 <= y ->
  tile_at (tiles self') x y = Ok t' -> Tile.river t' = true ->
  (exists r, r ∈ omap (kept_river self) (enumerate (selected_sources self)) /\
             (x, y) ∈ River.path r) \/
  (exists t, tile_at (tiles self) x y = Ok t /\ Tile.river t = true).
Proof.
  unfold _generate_rivers. intros H Hx Hy Ht' Hr. inv_bind H as sources Hsources.
  apply river_sources_spec in Hsources as ->.
  fold (actual_river_count self) in H. inv_bind H as sel Hsel. destruct sel as [sel s1].
  unfold sample_sources in Hsel.
  destruct (Z.leb_spec 0 (actual_river_count self)) as [Hk|]; [|done].
  destruct (_ <=? _); [|done]. simpl in Hsel.
  destruct (rng_sample _ _ _) as [picks rng1] eqn:Hpicks. injection Hsel as <- <-.
  assert (omap (fun i => eligible self !! i) picks = selected_sources self) as Hsel.
  { unfold selected_sources. by rewrite Hpicks. }
  rewrite Hsel in H.
  destruct (rivers_loop_marks self _ _ _ x y t' (same_config_set_rng _ _) ltac:(by destruct self) H)
    as [Hnew|Hold]; try done.
  - intros [i c] Hitem. apply elem_of_enumerate, selected_sources_eligible in Hitem.
    apply eligible_in_bounds, in_bounds_spec in Hitem. simpl. lia.
  - by left.
  - right. by destruct self.
Qed.

(** X11. After [generate] on a generator with no river recorded yet, the
    tiles whose river flag is set are exactly the tiles on the paths of
    the rivers kept. *)
Theorem river_flag_iff_on_a_river (self : Gen) (out : terrain) (self' : Gen)
    (x y : Z) (t : Tile.t) :
  rivers self = [] ->
  generate self = Ok (out, self') ->
  0 <= x -> 0 <= y -> tile_at (tiles self') x y = Ok t ->
  (Tile.river t = true <-> exists r, r ∈ rivers self' /\ (x, y) ∈ River.path r).
Proof.
  intros Hfresh H Hx Hy Ht.
  apply generate_Ok in H as (se & sr & sm & Hse & Hsr & Hsm & Hsb & _).
  destruct (later_stages_frozen _ _ _ _ Hsr Hsm Hsb) as (_ & Hriv & _ & HR2).
  pose proof (_generate_elevation_spec _ _ Hse) as (_ & Hriv0 & _ & Hpt & _).
  pose proof (_generate_rivers_spec _ _ Hsr) as (_ & _ & _ & Hrivers & Hvalid).
  rewrite Hriv0, Hfresh in Hrivers. simpl in Hrivers. rewrite Hriv, Hrivers.
  split.
  - intros Hr.
    pose proof (_calculate_moisture_spec _ _ Hsm) as (_ & _ & _ & HRm & _).
    pose proof (_assign_biomes_spec _ _ Hsb) as (_ & _ & _ & HRb).
    pose proof (tile_at_rel _ _ _ x y HRb) as Hb. rewrite Ht in Hb.
    destruct (tile_at (tiles sm) x y) as [t2|] eqn:Ht2; [|done].
    pose proof (tile_at_rel _ _ _ x y HRm) as Hm. rewrite Ht2 in Hm.
    destruct (tile_at (tiles sr) x y) as [t1|] eqn:Ht1; [|done].
    apply biome_only_fields in Hb as (_ & _ & _ & Hb).
    apply moisture_only_fields in Hm as (_ & _ & Hm).
    destruct (_generate_rivers_marks se sr x y t1 Hsr Hx Hy Ht1) as [Hnew|(t0 & Ht0 & Hr0)].
    + congruence.
    + done.
    + destruct (Hpt x y t0 Ht0 Hx Hy) as [_ _ _ _ _ _ Hfalse]. congruence.
  - intros (r & Hr & Hin).
    pose proof (river_valid_frozen _ _ r HR2 (Hvalid r Hr)) as Hv.
    destruct (rv_marked _ _ Hv (x, y) Hin) as (t' & Ht' & Hr'). cbn [fst snd] in Ht'.
    congruence.
Qed.
End RiverMarks.

Import TerrainGenerator.

Lemma river_flag_iff_on_a_river_witness :
  exists out self' t,
    rivers default_gen = [] /\ generate default_gen = Ok (out, self') /\
    0 <= 26 /\ 0 <= 12 /\ tile_at (tiles self') 26 12 = Ok t /\
    (Tile.river t = true <-> exists r, r ∈ rivers self' /\ (26, 12) ∈ River.path r).
Proof.
  assert (0 <= 26) as Hx by lia. assert (0 <= 12) as Hy by lia.
  destruct default_run as (se & out & self' & Hse & Hk & Hgen & Hc & HR).
  unfold default_check in Hk. apply ok_b_bind in Hk as (t15 & Ht15 & _).
  destruct (frozen_tile_at _ _ 26 12 t15 HR Ht15) as (t & Ht & _).
  exists out, self', t. split; [reflexivity|]. split; [exact Hgen|].
  split; [exact Hx|]. split; [exact Hy|]. split; [exact Ht|].
  exact (river_flag_iff_on_a_river default_gen out self' 26 12 t eq_refl Hgen Hx Hy Ht).
Defined.

Section ArtifactLayout.
Context `{RT : PyRuntime}.
Import TerrainGenerator.
#[local] Abbreviation Gen := TerrainGenerator.t.

(** ** The layout of the artifact *)

Lemma rows_lookup (w : Z) (k : nat) (a : Z) (j i : nat) :
  (j < k)%nat -> (i < Z.to_nat w)%nat ->
  flat_map (fun y => map (fun x => (x, y)) (range w)) (seqZ a (Z.of_nat k))
    !! (j * Z.to_nat w + i)%nat = Some (Z.of_nat i, a + Z.of_nat j).
Proof.
  revert a j. induction k as [|k IH]; intros a j Hj Hi; [lia|].
  rewrite seqZ_cons by lia. cbn [flat_map].
  replace (Z.pred (Z.of_nat (S k))) with (Z.of_nat k) by lia.
  assert (length (map (fun x : Z => (x, a)) (range w)) = Z.to_nat w) as Hlen.
  { rewrite length_map. unfold range, range2. rewrite length_seqZ. f_equal. lia. }
  destruct j as [|j].
  - rewrite lookup_app_l by (rewrite Hlen; lia). simpl.
    rewrite list_lookup_fmap. unfold range, range2.
    rewrite (lookup_seqZ_lt _ _ i) by lia. simpl. do 2 f_equal; lia.
  - rewrite lookup_app_r by (rewrite Hlen; lia). rewrite Hlen.
    replace (S j * Z.to_nat w + i - Z.to_nat w)%nat with (j * Z.to_nat w + i)%nat by lia.
    rewrite IH by lia. do 2 f_equal. lia.
Qed.

(** The coordinates are enumerated row by row. *)
Lemma all_coords_lookup (self : Gen) (x y : Z) :
  0 <= x < width self -> 0 <= y < height self ->
  all_coords self !! Z.to_nat (y * width self + x) = Some (x, y).
Proof.
  intros Hx Hy. unfold all_coords, range at 2, range2.
  replace (height self - 0) with (Z.of_nat (Z.to_nat (height self))) by lia.
  replace (Z.to_nat (y * width self + x))
    with (Z.to_nat y * Z.to_nat (width self) + Z.to_nat x)%nat by nia.
  rewrite rows_lookup by lia. do 2 f_equal; lia.
Qed.

(** X12. The artifact of [generate] repeats the constructor's parameters
    and lists the tiles row by row: it has width*height tile entries, and
    entry y*width + x is the tile at (x, y) of the final grid, with its
    elevation and moisture rounded by [round(_, 3)]. *)
Theorem artifact_layout (self : Gen) (out : terrain) (self' : Gen) :
  generate self = Ok (out, self') ->
  (t_schema out = "terrain.v1" /\ t_seed out = seed self /\
   t_width out = width self /\ t_height out = height self /\ t_mode out = mode self /\
   t_generation_params out =
     mk_params (octaves self) (persistence self) (lacunarity self) (scale self)
               (river_count self) (prevailing_wind self)) /\
  Z.of_nat (length (t_tiles out)) = Z.max 0 (width self) * Z.max 0 (height self) /\
  forall x y, 0 <= x < width self -> 0 <= y < height self ->
    exists t, tile_at (tiles self') x y = Ok t /\
      t_tiles out !! Z.to_nat (y * width self + x) = Some (tile_dict_of t).
Proof.
  intros H. apply generate_Ok in H as (se & sr & sm & Hse & Hsr & Hsm & Hsb & Hout).
  pose proof (_generate_elevation_spec _ _ Hse) as (Hc0 & _).
  destruct (later_stages_frozen _ _ _ _ Hsr Hsm Hsb) as (Hc1 & _).
  pose proof (transitivity Hc0 Hc1) as Hc.
  pose proof (_to_dict_spec _ _ _ Hout) as (Htiles & _ & Hseed & Hw & Hh & Hm & _).
  unfold same_config in Hc.
  destruct Hc as (Ew & Eh & Es & Em & Eo & Ep & El & Esc & Erc & Epw & _).
  split_and!.
  - unfold _to_dict in Hout. inv_bind Hout as tl Htl. by injection Hout as <-.
  - congruence.
  - congruence.
  - congruence.
  - congruence.
  - unfold _to_dict in Hout. inv_bind Hout as tl Htl. injection Hout as <-. cbn.
    congruence.
  - rewrite <- (Forall2_length _ _ _ Htiles), length_all_coords, <- Ew, <- Eh. lia.
  - intros x y Hx Hy.
    pose proof (all_coords_lookup self' x y ltac:(lia) ltac:(lia)) as Hlook.
    destruct (Forall2_lookup_l _ _ _ _ _ Htiles Hlook) as (td & Htd & t & Ht & ->).
    exists t. split; [done|]. by rewrite Ew.
Qed.
End ArtifactLayout.

Import TerrainGenerator.

Lemma artifact_layout_witness :
  exists out self',
    generate default_gen = Ok (out, self') /\
    (t_schema out = "terrain.v1" /\ t_seed out = seed default_gen /\
     t_width out = width default_gen /\ t_height out = height default_gen /\
     t_mode out = mode default_gen /\
     t_generation_params out =
       mk_params (octaves default_gen) (persistence default_gen) (lacunarity default_gen)
                 (scale default_gen) (river_count default_gen)
                 (prevailing_wind default_gen)) /\
    Z.of_nat (length (t_tiles out)) =
      Z.max 0 (width default_gen) * Z.max 0 (height default_gen) /\
    forall x y, 0 <= x < width default_gen -> 0 <= y < height default_gen ->
      exists t, tile_at (tiles self') x y = Ok t /\
        t_tiles out !! Z.to_nat (y * width default_gen + x) = Some (tile_dict_of t).
Proof.
  destruct default_run as (se & out & self' & _ & _ & Hgen & _).
  exists out, self'. split; [exact Hgen|].
  exact (artifact_layout default_gen out self' Hgen).
Defined.

(** ** Assignment in a list of lists *)

Lemma py_index_raises (n : nat) (i : Z) (e : PyErr) :
  py_index n i = Raise e -> e = IndexError /\ ~ (- Z.of_nat n <= i < Z.of_nat n).
Proof.
  unfold py_index. destruct (Z.ltb_spec i 0);
    destruct (Z.leb_spec 0 (i + Z.of_nat n)); destruct (Z.leb_spec 0 i);
    destruct (Z.ltb_spec (i + Z.of_nat n) (Z.of_nat n));
    destruct (Z.ltb_spec i (Z.of_nat n)); simpl; intros [= <-]; split; try done; lia.
Qed.

Lemma py_index_total (n : nat) (i : Z) :
  - Z.of_nat n <= i < Z.of_nat n -> exists j, py_index n i = Ok j /\ (j < n)%nat.
Proof.
  intros Hi. destruct (Z_lt_ge_dec i 0).
  - exists (Z.to_nat (i + Z.of_nat n)). split; [|lia]. apply py_index_Ok. right. lia.
  - exists (Z.to_nat i). split; [|lia]. apply py_index_Ok. left. lia.
Qed.

Lemma py_setitem2_total {A} (w h : nat) (g : list (list A)) (x y : Z) (v : A) :
  dims2 w h g -> wraps w h x y ->
  exists g', py_setitem2 g x y v = Ok g' /\ dims2 w h g'.
Proof.
  intros [Hh Hw] [Hx Hy]. unfold py_setitem2.
  destruct (py_index_total (length g) y) as (j & Hj & Hjlt); [lia|]. rewrite Hj.
  cbn [mbind Result_bind].
  destruct (lookup_lt_is_Some_2 g j Hjlt) as [row Hrow].
  assert (py_getitem g y = Ok row) as -> by (apply py_getitem_Ok; eauto).
  cbn [mbind Result_bind].
  assert (length row = w) as Hlen by (eapply (Forall_lookup_1 _ _ _ _ Hw); exact Hrow).
  destruct (py_index_total (length row) x) as (i & Hi & Hilt); [lia|]. rewrite Hi.
  eexists. split; [reflexivity|]. split.
  - by rewrite length_insert.
  - apply Forall_insert; [done|]. by rewrite length_insert.
Qed.

Lemma py_setitem2_raises {A} (w h : nat) (g : list (list A)) (x y : Z) (v : A) (e : PyErr) :
  dims2 w h g -> py_setitem2 g x y v = Raise e ->
  e = IndexError /\ ~ wraps w h x y.
Proof.
  intros [Hh Hw]. unfold py_setitem2, wraps.
  destruct (py_index (length g) y) as [j|e1] eqn:Hj.
  2:{ intros [= <-]. apply py_index_raises in Hj as [-> Hj]. split; [done|lia]. }
  cbn [mbind Result_bind]. pose proof Hj as Hj'. apply py_index_Ok in Hj'.
  destruct (lookup_lt_is_Some_2 g j) as [row Hrow]; [lia|].
  assert (py_getitem g y = Ok row) as -> by (apply py_getitem_Ok; eauto).
  cbn [mbind Result_bind].
  assert (length row = w) as Hlen by (eapply (Forall_lookup_1 _ _ _ _ Hw); exact Hrow).
  destruct (py_index (length row) x) as [i|e1] eqn:Hi; [done|].
  intros [= <-]. apply py_index_raises in Hi as [-> Hi]. split; [done|lia].
Qed.

Lemma py_setitem2_cell {A} (g g' : list (list A)) (x y : Z) (v : A) :
  py_setitem2 g x y v = Ok g' -> 0 <= x -> 0 <= y ->
  cell g' x y = Some v /\
  forall x' y', 0 <= x' -> 0 <= y' -> (x', y') <> (x, y) -> cell g' x' y' = cell g x' y'.
Proof.
  unfold py_setitem2. intros H Hx Hy. inv_bind H as j Hj. inv_bind H as row Hrow.
  inv_bind H as i Hi. injection H as <-.
  apply py_index_Ok in Hj as [[Hj ->]|[Hj _]]; [|lia].
  apply py_index_Ok in Hi as [[Hi ->]|[Hi _]]; [|lia].
  apply py_getitem_nonneg in Hrow; [|done].
  unfold cell. split.
  - rewrite list_lookup_insert_eq by lia. simpl. rewrite list_lookup_insert_eq by lia. done.
  - intros x' y' Hx' Hy' Hne.
    destruct (decide (Z.to_nat y' = Z.to_nat y)) as [Heq|Hney].
    + rewrite Heq, list_lookup_insert_eq by lia. rewrite Hrow. simpl.
      rewrite list_lookup_insert_ne; [done|]. intros Hxe. apply Hne. f_equal; lia.
    + by rewrite list_lookup_insert_ne.
Qed.

(** ** The preview raises only on a tile outside the grid *)

Lemma ascii_grid_start (w h : Z) :
  dims2 (Z.to_nat w) (Z.to_nat h)
    (map (fun _ : Z => map (fun _ : Z => "?") (range w)) (range h)).
Proof.
  split.
  - rewrite length_map. unfold range, range2. rewrite length_seqZ. f_equal. lia.
  - apply Forall_forall. intros row Hrow. apply list_elem_of_fmap in Hrow as (y & -> & _).
    rewrite length_map. unfold range, range2. rewrite length_seqZ. f_equal. lia.
Qed.

Lemma ascii_loop_total (w h : nat) (tiles : list tile_dict) (g : list (list string)) :
  dims2 w h g -> Forall (fun tile => wraps w h (td_x tile) (td_y tile)) tiles ->
  exists g', for_each tiles
    (fun tile grid => py_setitem2 grid (td_x tile) (td_y tile) (ascii_char tile)) g = Ok g' /\
    dims2 w h g'.
Proof.
  intros Hd Hall. apply for_each_total; [done|].
  intros tile g1 Htile Hd1. apply py_setitem2_total; [done|].
  by apply (proj1 (Forall_forall _ _) Hall).
Qed.

Lemma py_setitem2_Ok {A} (w h : nat) (g g' : list (list A)) (x y : Z) (v : A) :
  dims2 w h g -> py_setitem2 g x y v = Ok g' -> wraps w h x y /\ dims2 w h g'.
Proof.
  intros Hd H.
  assert (wraps w h x y) as Hin.
  { destruct Hd as [Hh Hrows]. unfold py_setitem2 in H.
    inv_bind H as j Hj. inv_bind H as row Hrow. inv_bind H as i Hi.
    apply py_index_Ok in Hj, Hi.
    apply py_getitem_Ok in Hrow as (j' & _ & Hrow).
    assert (length row = w) as Hlen by (eapply (Forall_lookup_1 _ _ _ _ Hrows); exact Hrow).
    unfold wraps. lia. }
  split; [done|].
  destruct (py_setitem2_total w h g x y v Hd Hin) as (g1 & Hg1 & Hd1). congruence.
Qed.

Lemma ascii_loop_raises (w h : nat) (tiles : list tile_dict) (g : list (list string))
    (e : PyErr) :
  dims2 w h g ->
  for_each tiles
    (fun tile grid => py_setitem2 grid (td_x tile) (td_y tile) (ascii_char tile)) g = Raise e ->
  e = IndexError /\ Exists (fun tile => ~ wraps w h (td_x tile) (td_y tile)) tiles.
Proof.
  revert g. induction tiles as [|tile tiles IH]; intros g Hd H; simpl in H; [done|].
  destruct (py_setitem2 g (td_x tile) (td_y tile) (ascii_char tile)) as [g1|e1] eqn:Hstep.
  - destruct (py_setitem2_Ok w h g g1 _ _ _ Hd Hstep) as [_ Hd1].
    destruct (IH g1 Hd1 H) as [-> Hex]. split; [done|by right].
  - injection H as <-.
    destruct (py_setitem2_raises w h g _ _ _ _ Hd Hstep) as [-> Hout]. split; [done|by left].
Qed.

(** X13. [generate_ascii_map] returns when every tile entry has coordinates
    that [grid[y][x]] accepts (from -width to width - 1 and from -height to
    height - 1: negative ones wrap around); otherwise it raises
    IndexError, and it raises nothing else. *)
Theorem generate_ascii_map_index_error (t : terrain) :
  (Forall (fun tile => wraps (Z.to_nat (t_width t)) (Z.to_nat (t_height t))
                             (td_x tile) (td_y tile)) (t_tiles t) ->
   exists s, generate_ascii_map t = Ok s) /\
  (forall e, generate_ascii_map t = Raise e ->
     e = IndexError /\
     Exists (fun tile => ~ wraps (Z.to_nat (t_width t)) (Z.to_nat (t_height t))
                                 (td_x tile) (td_y tile)) (t_tiles t)).
Proof.
  unfold generate_ascii_map, ascii_grid. cbv zeta. split.
  - intros Hall.
    destruct (ascii_loop_total _ _ (t_tiles t) _ (ascii_grid_start (t_width t) (t_height t)) Hall)
      as (g & -> & _).
    cbn [mbind Result_bind]. eauto.
  - intros e H.
    match type of H with (?m ≫= _) = _ => destruct m as [g|e1] eqn:Hloop end; [done|].
    cbn [mbind Result_bind] in H. injection H as <-.
    exact (ascii_loop_raises _ _ _ _ _ (ascii_grid_start _ _) Hloop).
Qed.

(** ** The preview of a generated map *)

Lemma ascii_untouched (tiles : list tile_dict) (g g' : list (list string)) (x y : Z) :
  for_each tiles
    (fun tile grid => py_setitem2 grid (td_x tile) (td_y tile) (ascii_char tile)) g = Ok g' ->
  (forall tile, tile ∈ tiles ->
     0 <= td_x tile /\ 0 <= td_y tile /\ (x, y) <> (td_x tile, td_y tile)) ->
  0 <= x -> 0 <= y -> cell g' x y = cell g x y.
Proof.
  intros H Htiles Hx Hy.
  apply (for_each_inv (fun g1 => cell g1 x y = cell g x y) _ _ _ _ eq_refl) in H; [done|].
  intros tile g1 g2 Htile Hg1 Hstep. destruct (Htiles tile Htile) as (Htx & Hty & Hne).
  rewrite <- Hg1. by apply (py_setitem2_cell g1 g2 _ _ _ Hstep).
Qed.

(** Entries with distinct coordinates inside the grid are each shown at
    their place. *)
Lemma ascii_scatter (w h : nat) (cs : list coord) (tiles : list tile_dict)
    (g : list (list string)) :
  Forall2 (fun c tile => td_x tile = c.1 /\ td_y tile = c.2) cs tiles ->
  NoDup cs ->
  (forall c, c ∈ cs -> 0 <= c.1 < Z.of_nat w /\ 0 <= c.2 < Z.of_nat h) ->
  dims2 w h g ->
  exists g', for_each tiles
      (fun tile grid => py_setitem2 grid (td_x tile) (td_y tile) (ascii_char tile)) g = Ok g' /\
    dims2 w h g' /\
    forall (i : nat) c tile, cs !! i = Some c -> tiles !! i = Some tile ->
      cell g' c.1 c.2 = Some (ascii_char tile).
Proof.
  intros Hall. revert g.
  induction Hall as [|c tile cs tiles [Htx Hty] Hall IH]; intros g Hnd Hcs Hd.
  { exists g. split_and!; [done|done|]. intros i c tile Hc. by rewrite lookup_nil in Hc. }
  apply NoDup_cons in Hnd as [Hc Hnd].
  destruct (Hcs c ltac:(by left)) as [Hcx Hcy].
  destruct (py_setitem2_total w h g (td_x tile) (td_y tile) (ascii_char tile) Hd)
    as (g1 & Hg1 & Hd1); [unfold wraps; lia|].
  destruct (IH g1 Hnd ltac:(intros c' Hc'; apply Hcs; by right) Hd1) as (g' & Hg' & Hd' & Hcells).
  exists g'. split_and!; [by simpl; rewrite Hg1|done|].
  intros [|i] c' tile' Hc' Htile'; simpl in Hc', Htile'; [|by eapply Hcells].
  injection Hc' as <-. injection Htile' as <-.
  rewrite (ascii_untouched tiles g1 g' c.1 c.2 Hg'); [| |lia..].
  - rewrite <- Htx, <- Hty. apply (py_setitem2_cell g g1 _ _ _ Hg1); lia.
  - intros tile' Htile'. apply list_elem_of_lookup in Htile' as [i Hi].
    destruct (Forall2_lookup_r _ _ _ _ _ Hall Hi) as (c' & Hc' & Hx' & Hy').
    apply list_elem_of_lookup_2 in Hc'.
    destruct (Hcs c' ltac:(by right)) as [Hcx' Hcy'].
    split_and!; [lia..|]. rewrite Hx', Hy'. intros Heq. apply Hc.
    replace c with c' by (destruct c, c'; simpl in *; congruence). done.
Qed.

(** A finished tile is never shown as '?'. *)
Lemma finished_tile_char `{RT : PyRuntime} (x y : Z) (t : Tile.t) :
  finished_tile x y t -> ascii_char (tile_dict_of t) <> "?".
Proof.
  intros [_ _ _ _ Hw Hb _ _]. unfold ascii_char, tile_dict_of.
  cbn [td_water td_river td_biome].
  destruct (Tile.water t) eqn:Hwater; [done|].
  destruct (Tile.river t); [done|].
  rewrite Hb. symmetry in Hw. unfold biome_table.
  destruct (Tile.elevation t <? 0.3)%float eqn:H3.
  { by rewrite (float_ltb_trans _ _ 0.4 H3) in Hw. }
  destruct (Tile.elevation t <? 0.38)%float eqn:H38.
  { by rewrite (float_ltb_trans _ _ 0.4 H38) in Hw. }
  destruct (_ <? 0.42)%float; [done|].
  destruct (_ <? 0.7)%float.
  { destruct (_ && _); [done|]. destruct (0.6 <=? _)%float; [done|].
    by destruct (0.25 <=? _)%float. }
  destruct (_ <? 0.78)%float; [done|]. by destruct (_ <? 1)%float.
Qed.

Section Preview.
Context `{RT : PyRuntime}.
Import TerrainGenerator.
#[local] Abbreviation Gen := TerrainGenerator.t.

(** The tile entries of the artifact, with what is known of the tiles
    they come from. *)
Lemma artifact_layout_facts (self : Gen) (out : terrain) (self' : Gen) :
  generate self = Ok (out, self') ->
  t_width out = width self /\ t_height out = height self /\ same_config self self' /\
  Forall2 (fun c td => exists t, tile_at (tiles self') c.1 c.2 = Ok t /\
                                 finished_tile c.1 c.2 t /\ td = tile_dict_of t)
          (all_coords self') (t_tiles out).
Proof.
  intros H. pose proof H as H'.
  apply generate_Ok in H' as (se & sr & sm & Hse & Hsr & Hsm & Hsb & Hout).
  pose proof (_generate_elevation_spec _ _ Hse) as (Hc0 & _).
  destruct (later_stages_frozen _ _ _ _ Hsr Hsm Hsb) as (Hc1 & _).
  pose proof (transitivity Hc0 Hc1) as Hc.
  pose proof (_to_dict_spec _ _ _ Hout) as (Htiles & _ & _ & Hw & Hh & _).
  pose proof Hc as (Ew & Eh & _).
  split_and!; [congruence|congruence|done|].
  apply Forall2_same_length_lookup. split; [by eapply Forall2_length|].
  intros i c td Hi Htd.
  destruct (Forall2_lookup_l _ _ _ _ _ Htiles Hi) as (td' & Htd' & t & Ht & Heq).
  assert (td = tile_dict_of t) as -> by congruence.
  apply list_elem_of_lookup_2, elem_of_all_coords in Hi.
  destruct (generated_tile self out self' c.1 c.2 H) as (t' & Ht' & Hft).
  { by destruct c. }
  exists t. split_and!; [done| |done]. congruence.
Qed.

(** X14. The preview of the artifact [generate] returns does not raise; its
    grid has [height] rows of [width] cells, the cell of column x in row y
    shows the tile at (x, y) of the final grid, and no cell is left at
    '?'. *)
Theorem ascii_map_of_generated (self : Gen) (out : terrain) (self' : Gen) :
  generate self = Ok (out, self') ->
  exists g,
    ascii_grid out = Ok g /\
    generate_ascii_map out
      = Ok (String.concat newline (map (String.concat "") g)) /\
    dims2 (Z.to_nat (width self)) (Z.to_nat (height self)) g /\
    forall x y, 0 <= x < width self -> 0 <= y < height self ->
      exists t, tile_at (tiles self') x y = Ok t /\
        cell g x y = Some (ascii_char (tile_dict_of t)) /\
        ascii_char (tile_dict_of t) <> "?".
Proof.
  intros H. pose proof (artifact_layout_facts self out self' H) as (Hw & Hh & Hc & Htiles).
  unfold generate_ascii_map, ascii_grid. cbv zeta. rewrite Hw, Hh.
  destruct (ascii_scatter (Z.to_nat (width self)) (Z.to_nat (height self))
              (all_coords self') (t_tiles out)
              (map (fun _ : Z => map (fun _ : Z => "?") (range (width self)))
                   (range (height self))))
    as (g & Hg & Hd & Hcells).
  - eapply Forall2_impl; [exact Htiles|]. intros c td (t & Ht & Hft & ->).
    destruct Hft as [Hx Hy _ _ _ _ _ _]. by split.
  - apply NoDup_all_coords.
  - intros c Hc'. apply elem_of_all_coords in Hc'.
    rewrite <- (in_bounds_config self self' _ Hc) in Hc'.
    apply in_bounds_spec in Hc'. lia.
  - apply ascii_grid_start.
  - exists g. rewrite Hg. split_and!; [done|done|done|].
    intros x y Hx Hy.
    pose proof (all_coords_lookup self' x y) as Hlook.
    destruct Hc as (Ew & Eh & _). rewrite <- Ew, <- Eh in Hlook.
    specialize (Hlook Hx Hy).
    destruct (Forall2_lookup_l _ _ _ _ _ Htiles Hlook) as (td & Htd & t & Ht & Hft & ->).
    exists t. split_and!; [done| |by eapply finished_tile_char].
    exact (Hcells _ (x, y) _ Hlook Htd).
Qed.
End Preview.

Import TerrainGenerator.

Lemma ascii_map_of_generated_witness :
  exists out self' g,
    generate default_gen = Ok (out, self') /\
    ascii_grid out = Ok g /\
    generate_ascii_map out
      = Ok (String.concat newline (map (String.concat "") g)) /\
    dims2 (Z.to_nat (width default_gen)) (Z.to_nat (height default_gen)) g /\
    forall x y, 0 <= x < width default_gen -> 0 <= y < height default_gen ->
      exists t, tile_at (tiles self') x y = Ok t /\
        cell g x y = Some (ascii_char (tile_dict_of t)) /\
        ascii_char (tile_dict_of t) <> "?".
Proof.
  destruct default_run as (se & out & self' & _ & _ & Hgen & _).
  destruct (ascii_map_of_generated default_gen out self' Hgen) as (g & Hg).
  exists out, self', g. split; [exact Hgen|exact Hg].
Defined.

(** ** River ids *)

Lemma decimal_digits (idx : Z) :
  0 <= idx ->
  exists u, NilEmpty.uint_of_string (NilZero.string_of_int (Z.to_int idx)) = Some u /\
            Z.of_uint u = idx.
Proof.
  intros Hidx. destruct idx as [|p|p]; [by exists (Decimal.D0 Decimal.Nil)| |lia].
  pose proof (DecimalZ.of_to (Z.pos p)) as Hof. cbn [Z.to_int Z.of_int] in *.
  unfold NilZero.string_of_int, NilZero.string_of_uint.
  destruct (Pos.to_uint p) as [|u|u|u|u|u|u|u|u|u|u] eqn:Hu; [done|..];
    rewrite NilEmpty.usu; eauto.
Qed.

Lemma river_number_id (idx : Z) : 0 <= idx -> river_number (river_id idx) = Some idx.
Proof.
  intros Hidx. destruct (decimal_digits idx Hidx) as (u & Hu & Hz).
  unfold river_id. cbv zeta.
  destruct (3 - String.length _)%nat as [|[|[|n]]];
    cbv [String.append river_number]; cbn [NilEmpty.uint_of_string];
    rewrite Hu; cbn [fmap option_fmap option_map]; rewrite <- Hz; reflexivity.
Qed.

Lemma river_id_inj (i j : Z) : 0 <= i -> 0 <= j -> river_id i = river_id j -> i = j.
Proof.
  intros Hi Hj Heq. apply river_number_id in Hi, Hj. rewrite Heq in Hi. congruence.
Qed.

Section RiversOfARun.
Context `{RT : PyRuntime}.
Import TerrainGenerator.
#[local] Abbreviation Gen := TerrainGenerator.t.

(** ** The rivers of one run *)

Lemma fst_enumerate {A} (l : list A) (i : Z) (a : A) :
  (i, a) ∈ enumerate l -> 0 <= i /\ l !! Z.to_nat i = Some a.
Proof.
  unfold enumerate. intros H. apply list_elem_of_lookup in H as [k Hk].
  apply lookup_zip_with_Some in Hk as (i' & a' & [= <- <-] & Hi & Ha).
  apply lookup_seqZ in Hi as [-> Hk]. split; [lia|].
  by replace (Z.to_nat (0 + Z.of_nat k)) with k by lia.
Qed.

Lemma kept_river_fields (self : Gen) (item : Z * coord) (r : River.t) :
  kept_river self item = Some r ->
  River.id r = river_id item.1 /\ River.source r = item.2.
Proof.
  unfold kept_river. destruct (_trace_river_path _ _ _); [|done].
  destruct (10 <? _); [|done]. by intros [= <-].
Qed.

(** Items with distinct indices give rivers with distinct ids, and items
    with distinct sources give rivers with distinct sources. *)
Lemma kept_rivers_NoDup (self : Gen) (items : list (Z * coord)) :
  (forall item, item ∈ items -> 0 <= item.1) ->
  (NoDup (items.*1) -> NoDup (River.id <$> omap (kept_river self) items)) /\
  (NoDup (items.*2) -> NoDup (River.source <$> omap (kept_river self) items)).
Proof.
  induction items as [|item items IH]; intros Hpos; [split; intros _; constructor|].
  destruct IH as [IH1 IH2]; [intros i Hi; apply Hpos; by right|].
  cbn [omap list_omap fmap list_fmap].
  split; intros Hnd; apply NoDup_cons in Hnd as [Hnotin Hnd];
    (destruct (kept_river self item) as [r|] eqn:Hr; [|by auto]);
    apply kept_river_fields in Hr as [Hid Hsrc];
    cbn [fmap list_fmap]; apply NoDup_cons; (split; [|by auto]); intros Hin;
    apply list_elem_of_fmap in Hin as (r' & Heq & Hr');
    apply list_elem_of_omap in Hr' as (item' & Hitem' & Hk');
    apply kept_river_fields in Hk' as [Hid' Hsrc']; apply Hnotin;
    apply list_elem_of_fmap; exists item'; (split; [|done]).
  - apply river_id_inj; [apply Hpos; by left|apply Hpos; by right|congruence].
  - congruence.
Qed.

Lemma NoDup_omap_lookup {A} (l : list A) (picks : list nat) :
  NoDup l -> NoDup picks -> NoDup (omap (fun i => l !! i) picks).
Proof.
  intros Hl. induction picks as [|i picks IH]; intros Hnd; [constructor|].
  apply NoDup_cons in Hnd as [Hi Hnd]. cbn [omap list_omap].
  destruct (l !! i) as [a|] eqn:Ha; [|auto].
  apply NoDup_cons. split; [|auto]. intros Hin.
  apply list_elem_of_omap in Hin as (i' & Hi' & Ha').
  by rewrite (NoDup_lookup l i i' a Hl Ha Ha') in Hi.
Qed.

Lemma NoDup_eligible (self : Gen) : NoDup (eligible self).
Proof. unfold eligible. apply NoDup_ListNoDup, List.NoDup_filter, NoDup_ListNoDup, NoDup_all_coords. Qed.

Lemma NoDup_selected_sources `{!PyRuntimeLaws RT} (self : Gen) :
  0 <= actual_river_count self -> NoDup (selected_sources self).
Proof.
  intros Hk. unfold selected_sources. apply NoDup_omap_lookup; [apply NoDup_eligible|].
  apply rng_sample_NoDup. pose proof (actual_river_count_le self). lia.
Qed.

Lemma enumerate_fst_snd {A} (l : list A) :
  (enumerate l).*1 = seqZ 0 (Z.of_nat (length l)) /\ (enumerate l).*2 = l.
Proof.
  unfold enumerate. split.
  - apply fst_zip. rewrite length_seqZ. lia.
  - apply snd_zip. rewrite length_seqZ. lia.
Qed.

(** The rivers a run adds, with the stage they were traced on. *)
Lemma generate_rivers_added (self : Gen) (out : terrain) (self' : Gen) :
  generate self = Ok (out, self') ->
  exists se, _generate_elevation self = Ok se /\ 0 <= actual_river_count se /\
    grid_rel frozen (tiles se) (tiles self') /\
    rivers self' = rivers self ++ omap (kept_river se) (enumerate (selected_sources se)) /\
    t_rivers out = map river_dict_of (rivers self').
Proof.
  intros H. apply generate_Ok in H as (se & sr & sm & Hse & Hsr & Hsm & Hsb & Hout).
  destruct (later_stages_frozen _ _ _ _ Hsr Hsm Hsb) as (_ & Hriv & HR1 & HR2).
  pose proof (_generate_elevation_spec _ _ Hse) as (_ & Hriv0 & _).
  pose proof (_generate_rivers_spec _ _ Hsr) as (Hk & _ & _ & Hrivers & _).
  pose proof (_to_dict_spec _ _ _ Hout) as (_ & Hlist & _).
  exists se. split_and!; [done|done|by etrans| |done].
  by rewrite Hriv, Hrivers, Hriv0.
Qed.

(** X15. [generate] never resets the river list: the rivers recorded
    before the call are kept, in front of the new ones, and the artifact
    lists them all, in that order. *)
Theorem generate_keeps_earlier_rivers (self : Gen) (out : terrain) (self' : Gen) :
  generate self = Ok (out, self') ->
  exists new, rivers self' = rivers self ++ new /\
    t_rivers out = map river_dict_of (rivers self) ++ map river_dict_of new.
Proof.
  intros H. apply generate_rivers_added in H as (se & _ & _ & _ & Hrivers & Hlist).
  eexists. split; [exact Hrivers|]. by rewrite Hlist, Hrivers, map_app.
Qed.

(** X16. After [generate] on a generator with no river recorded yet, the
    ids of the rivers are distinct, and the id of each river is
    [river_NNN] for the position [i] of the river's source in the list
    [random.sample] returned (counted from 0), which the digits after
    "river_" give back: the numbers skip the sources whose path was too
    short. *)
Theorem river_ids_distinct (self : Gen) (out : terrain) (self' : Gen) :
  rivers self = [] ->
  generate self = Ok (out, self') ->
  exists se, _generate_elevation self = Ok se /\
    NoDup (River.id <$> rivers self') /\
    forall r, r ∈ rivers self' ->
      exists i : nat,
        selected_sources se !! i = Some (River.source r) /\
        River.id r = river_id (Z.of_nat i) /\
        river_number (River.id r) = Some (Z.of_nat i).
Proof.
  intros Hfresh H. apply generate_rivers_added in H as (se & Hse & _ & _ & Hrivers & _).
  rewrite Hfresh in Hrivers. cbn [app] in Hrivers. rewrite Hrivers.
  exists se. split; [exact Hse|].
  assert (forall item, item ∈ enumerate (selected_sources se) -> 0 <= item.1) as Hpos.
  { intros [i c] Hitem. by apply fst_enumerate in Hitem as [Hi _]. }
  split.
  - apply (kept_rivers_NoDup se _ Hpos).
    rewrite (proj1 (enumerate_fst_snd _)). apply NoDup_seqZ.
  - intros r Hr. apply list_elem_of_omap in Hr as ([i c] & Hitem & Hk).
    apply kept_river_fields in Hk as [Hid Hsrc]. cbn [fst snd] in Hid, Hsrc.
    apply fst_enumerate in Hitem as [Hi Hlook].
    exists (Z.to_nat i). rewrite Z2Nat.id by exact Hi.
    split_and!; [by rewrite Hsrc|exact Hid|]. rewrite Hid. by apply river_number_id.
Qed.

(** X17. No two rivers of one run start at the same tile, and every river
    starts at a tile of elevation above 0.7 that is not water. *)
Theorem river_sources_distinct `{!PyRuntimeLaws RT} (self : Gen) (out : terrain) (self' : Gen) :
  rivers self = [] ->
  generate self = Ok (out, self') ->
  NoDup (River.source <$> rivers self') /\
  forall r, r ∈ rivers self' ->
    exists t, tile_at (tiles self') (River.source r).1 (River.source r).2 = Ok t /\
      (0.7 <? Tile.elevation t)%float = true /\ Tile.water t = false.
Proof.
  intros Hfresh H. apply generate_rivers_added in H as (se & _ & Hk & HR & Hrivers & _).
  rewrite Hfresh in Hrivers. cbn [app] in Hrivers. rewrite Hrivers.
  assert (forall item, item ∈ enumerate (selected_sources se) -> 0 <= item.1) as Hpos.
  { intros [i c] Hitem. by apply fst_enumerate in Hitem as [Hi _]. }
  split.
  - apply (kept_rivers_NoDup se _ Hpos).
    rewrite (proj2 (enumerate_fst_snd _)). by apply NoDup_selected_sources.
  - intros r Hr. apply list_elem_of_omap in Hr as ([i c] & Hitem & Hkept).
    apply kept_river_fields in Hkept as [_ ->]. cbn [snd].
    apply elem_of_enumerate, selected_sources_eligible in Hitem.
    unfold eligible in Hitem.
    rewrite list_elem_of_In, filter_In in Hitem. destruct Hitem as [_ Hel].
    unfold eligible_at in Hel.
    destruct (tile_at (tiles se) c.1 c.2) as [t0|] eqn:Ht0; [|done].
    destruct (frozen_tile_at _ _ _ _ t0 HR Ht0) as (t & Ht & He & Hw).
    exists t. split; [done|]. rewrite He, Hw.
    unfold is_source in Hel. apply andb_true_iff in Hel as [Hel Hdry].
    split; [done|]. by apply negb_true_iff.
Qed.
End RiversOfARun.

Import TerrainGenerator.

Lemma river_sources_distinct_witness :
  exists out self',
    rivers default_gen = [] /\ generate default_gen = Ok (out, self') /\
    NoDup (River.source <$> rivers self') /\
    forall r, r ∈ rivers self' ->
      exists t, tile_at (tiles self') (River.source r).1 (River.source r).2 = Ok t /\
        (0.7 <? Tile.elevation t)%float = true /\ Tile.water t = false.
Proof.
  destruct default_run as (se & out & self' & _ & _ & Hgen & _).
  exists out, self'. split; [reflexivity|]. split; [exact Hgen|].
  exact (river_sources_distinct default_gen out self' eq_refl Hgen).
Defined.

(** ** What the river count and the wind do not change *)

Lemma for_each_commute {A S} (h : S -> S) (xs : list A) (f g : A -> S -> Result S) (s : S) :
  (forall a s, a ∈ xs -> g a (h s) = s' ← f a s; Ok (h s')) ->
  for_each xs g (h s) = s' ← for_each xs f s; Ok (h s').
Proof.
  revert s. induction xs as [|x xs IH]; intros s H; simpl; [done|].
  rewrite H by left. destruct (f x s) as [s1|e]; simpl; [|done].
  apply IH. intros a s0 Ha. apply H. by right.
Qed.

Lemma map_st_commute {A B S} (h : S -> S) (xs : list A)
    (f g : A -> S -> Result (B * S)) (s : S) :
  (forall a s, a ∈ xs -> g a (h s) = r ← f a s; Ok (r.1, h r.2)) ->
  map_st g xs (h s) = r ← map_st f xs s; Ok (r.1, h r.2).
Proof.
  revert s. induction xs as [|x xs IH]; intros s H; simpl; [done|].
  rewrite H by left. destruct (f x s) as [[b s1]|e]; simpl; [|done].
  rewrite IH by (intros a s0 Ha; apply H; by right).
  by destruct (map_st f xs s1) as [[bs s2]|e].
Qed.

Section Insensitive.
Context `{RT : PyRuntime}.
Import TerrainGenerator.
#[local] Abbreviation Gen := TerrainGenerator.t.

Lemma init_reconfigure (w h sd : Z) (md : string) (oct : Z) (pers lac sc : float)
    (k1 k2 : Z) (w1 w2 : string) (g1 g2 : Gen) :
  TerrainGenerator_init w h sd md oct pers lac sc k1 w1 = Ok g1 ->
  TerrainGenerator_init w h sd md oct pers lac sc k2 w2 = Ok g2 ->
  g2 = reconfigure k2 w2 g1.
Proof.
  unfold TerrainGenerator_init. destruct (_ || _); [done|]. by intros [= <-] [= <-].
Qed.

Lemma _apply_mode_shaping_reconfigure (k : Z) (w : string) (s : Gen) (x y : Z) (e : float) :
  _apply_mode_shaping (reconfigure k w s) x y e =
  r ← _apply_mode_shaping s x y e; Ok (r.1, reconfigure k w r.2).
Proof.
  unfold _apply_mode_shaping. cbn [reconfigure mode width height rng].
  destruct (String.eqb (mode s) "continent").
  { destruct (py_div (float_of_Z x - _) _) as [dx|]; cbn [mbind Result_bind]; [|reflexivity].
    destruct (py_div _ _) as [dy|]; reflexivity. }
  destruct (String.eqb (mode s) "archipelago").
  { destruct (rng_randint _ _ _) as [r rng1].
    destruct (for_each _ _ _) as [[mi rng2]|]; reflexivity. }
  destruct (String.eqb (mode s) "highlands"); reflexivity.
Qed.

Lemma elevation_tile_reconfigure (k : Z) (w : string) (s : Gen) (y x : Z) :
  elevation_tile (reconfigure k w s) y x =
  r ← elevation_tile s y x; Ok (r.1, reconfigure k w r.2).
Proof.
  unfold elevation_tile.
  change (blended_elevation (reconfigure k w s) x y) with (blended_elevation s x y).
  destruct (blended_elevation s x y) as [e|]; [|done]. cbn [mbind Result_bind].
  rewrite _apply_mode_shaping_reconfigure.
  by destruct (_apply_mode_shaping s x y e) as [[e' s']|].
Qed.

Lemma _generate_elevation_reconfigure (k : Z) (w : string) (s : Gen) :
  _generate_elevation (reconfigure k w s) =
  se ← _generate_elevation s; Ok (reconfigure k w se).
Proof.
  unfold _generate_elevation. cbn [reconfigure width height].
  rewrite (map_st_commute (reconfigure k w) _
             (fun y s0 => map_st (fun x s1 => elevation_tile s1 y x) (range (width s)) s0)).
  - by destruct (map_st _ _ s) as [[rows s']|].
  - intros y s0 _. apply map_st_commute. intros x s1 _. apply elevation_tile_reconfigure.
Qed.

Lemma _trace_river_path_reconfigure (k : Z) (w : string) (s : Gen) (x y : Z) :
  _trace_river_path (reconfigure k w s) x y = _trace_river_path s x y.
Proof.
  unfold _trace_river_path. cbn [reconfigure width height].
  assert (forall fuel m st, trace_loop fuel (reconfigure k w s) m st = trace_loop fuel s m st)
    as ->; [|done].
  induction fuel as [|fuel IH]; intros m st; simpl; [done|].
  destruct (_ <? _); [|done].
  change (trace_body (reconfigure k w s) st) with (trace_body s st).
  destruct (trace_body s st) as [[st'|st']|]; simpl; auto.
Qed.

Lemma river_step_reconfigure (k : Z) (w : string) (item : Z * coord) (s : Gen) :
  river_step item (reconfigure k w s) = s' ← river_step item s; Ok (reconfigure k w s').
Proof.
  unfold river_step. destruct item as [idx [sx sy]].
  rewrite _trace_river_path_reconfigure.
  destruct (_trace_river_path s sx sy) as [path|]; [|done]. cbn [mbind Result_bind].
  destruct (10 <? _); [|done].
  cbn [reconfigure set_rivers tiles rivers].
  by destruct (mark_river path (tiles s)) as [ts|].
Qed.

Lemma _generate_rivers_reconfigure (w : string) (s : Gen) :
  _generate_rivers (reconfigure (river_count s) w s) =
  sr ← _generate_rivers s; Ok (reconfigure (river_count s) w sr).
Proof.
  unfold _generate_rivers.
  change (river_sources (reconfigure (river_count s) w s)) with (river_sources s).
  destruct (river_sources s) as [sources|]; [|done]. cbn [mbind Result_bind].
  cbn [reconfigure river_count]. unfold sample_sources. cbn [rng].
  destruct (_ && _); [|done].
  destruct (rng_sample _ _ _) as [picks rng1]. cbn [mbind Result_bind].
  change (set_rng rng1 (reconfigure (river_count s) w s))
    with (reconfigure (river_count s) w (set_rng rng1 s)).
  apply (for_each_commute (reconfigure (river_count s) w)).
  intros item s0 _. apply river_step_reconfigure.
Qed.

Lemma river_count_of_run (se sr : Gen) : _generate_rivers se = Ok sr -> 0 <= river_count se.
Proof.
  intros H. apply _generate_rivers_spec in H as (Hk & _).
  pose proof (actual_river_count_le se). lia.
Qed.

(** The tiles of the final grid, read back on the grid of the river
    stage. *)
Lemma climate_stages (sr sm sb : Gen) :
  _calculate_moisture sr = Ok sm -> _assign_biomes sm = Ok sb ->
  rivers sb = rivers sr /\ grid_rel climate_only (tiles sr) (tiles sb).
Proof.
  intros Hsm Hsb.
  apply _calculate_moisture_spec in Hsm as (_ & _ & Hriv2 & HR2 & _).
  apply _assign_biomes_spec in Hsb as (_ & _ & Hriv3 & HR3).
  split; [congruence|].
  eapply Forall2_trans; [|exact HR2|exact HR3].
  intros r1 r2 r3. apply Forall2_trans.
  intros t1 t2 t3 -> ->. unfold climate_only. by destruct t1.
Qed.

(** The run of a generator built from other values of [river_count] and
    [prevailing_wind]. *)
Lemma reconfigured_run (k : Z) (w : string) (g : Gen) (out : terrain) (g' : Gen) :
  generate g = Ok (out, g') -> 0 <= k ->
  exists se out2 g2', _generate_elevation g = Ok se /\
    generate (reconfigure k w g) = Ok (out2, g2') /\
    grid_rel frozen (tiles se) (tiles g') /\ grid_rel frozen (tiles se) (tiles g2').
Proof.
  intros H Hk. apply generate_Ok in H as (se & sr & sm & Hse & Hsr & Hsm & Hsb & _).
  destruct (later_stages_frozen _ _ _ _ Hsr Hsm Hsb) as (_ & _ & HR1 & HR2).
  pose proof (_generate_elevation_reconfigure k w g) as Hse2. rewrite Hse in Hse2.
  cbn [mbind Result_bind] in Hse2.
  destruct (generate_after_elevation _ _ Hse2 Hk) as (out2 & g2' & Hgen2 & _ & HR).
  exists se, out2, g2'. split_and!; [done|done|etrans; [exact HR1|exact HR2]|exact HR].
Qed.

(** X18. The relief does not depend on [river_count] and [prevailing_wind]:
    two generators constructed from the same other parameters give every
    tile the same elevation and the same water flag (and the second run
    returns whenever the first does and its river count is not
    negative). *)
Theorem relief_ignores_rivers_and_wind
    (w h sd : Z) (md : string) (oct : Z) (pers lac sc : float)
    (k1 k2 : Z) (w1 w2 : string) (g1 g2 : Gen) (out1 : terrain) (g1' : Gen) :
  TerrainGenerator_init w h sd md oct pers lac sc k1 w1 = Ok g1 ->
  TerrainGenerator_init w h sd md oct pers lac sc k2 w2 = Ok g2 ->
  generate g1 = Ok (out1, g1') -> 0 <= k2 ->
  exists out2 g2', generate g2 = Ok (out2, g2') /\
    forall x y t1, tile_at (tiles g1') x y = Ok t1 ->
      exists t2, tile_at (tiles g2') x y = Ok t2 /\
        Tile.elevation t2 = Tile.elevation t1 /\ Tile.water t2 = Tile.water t1.
Proof.
  intros H1 H2 Hgen Hk. rewrite (init_reconfigure _ _ _ _ _ _ _ _ _ _ _ _ _ _ H1 H2).
  destruct (reconfigured_run k2 w2 g1 out1 g1' Hgen Hk) as (se & out2 & g2' & _ & Hgen2 & HR1 & HR2).
  exists out2, g2'. split; [exact Hgen2|]. intros x y t1 Ht1.
  pose proof (tile_at_rel _ _ _ x y HR1) as Hrel. rewrite Ht1 in Hrel.
  destruct (tile_at (tiles se) x y) as [t0|] eqn:Ht0; [|done].
  destruct Hrel as (_ & _ & He & Hw & _).
  destruct (frozen_tile_at _ _ _ _ t0 HR2 Ht0) as (t2 & Ht2 & He2 & Hw2).
  exists t2. split; [exact Ht2|]. split; congruence.
Qed.

(** X19. The wind changes the climate only: two generators constructed from
    the same parameters but the wind record the same rivers, and their
    tiles agree on everything but the moisture and the biome. *)
Theorem wind_changes_climate_only
    (w h sd : Z) (md : string) (oct : Z) (pers lac sc : float)
    (k : Z) (w1 w2 : string) (g1 g2 : Gen) (out1 : terrain) (g1' : Gen) :
  TerrainGenerator_init w h sd md oct pers lac sc k w1 = Ok g1 ->
  TerrainGenerator_init w h sd md oct pers lac sc k w2 = Ok g2 ->
  generate g1 = Ok (out1, g1') ->
  exists out2 g2', generate g2 = Ok (out2, g2') /\
    rivers g2' = rivers g1' /\ t_rivers out2 = t_rivers out1 /\
    forall x y t1, tile_at (tiles g1') x y = Ok t1 ->
      exists t2, tile_at (tiles g2') x y = Ok t2 /\ climate_only t1 t2.
Proof.
  intros H1 H2 Hgen. rewrite (init_reconfigure _ _ _ _ _ _ _ _ _ _ _ _ _ _ H1 H2).
  assert (k = river_count g1) as ->.
  { revert H1. unfold TerrainGenerator_init. destruct (_ || _); [done|]. by intros [= <-]. }
  pose proof Hgen as Hgen'.
  apply generate_Ok in Hgen' as (se & sr & sm & Hse & Hsr & Hsm & Hsb & Hout).
  pose proof (_generate_elevation_spec _ _ Hse) as (Hc0 & _).
  assert (river_count se = river_count g1) as Hrc by (symmetry; apply Hc0).
  assert (0 <= river_count g1) as Hk by (rewrite <- Hrc; by eapply river_count_of_run).
  destruct (reconfigured_run (river_count g1) w2 g1 out1 g1' Hgen Hk)
    as (se0 & out2 & g2' & Hse0 & Hgen2 & _ & _).
  exists out2, g2'. split; [exact Hgen2|].
  apply generate_Ok in Hgen2 as (se2 & sr2 & sm2 & Hse2 & Hsr2 & Hsm2 & Hsb2 & Hout2).
  rewrite _generate_elevation_reconfigure, Hse in Hse2. injection Hse2 as <-.
  rewrite <- Hrc, _generate_rivers_reconfigure, Hsr in Hsr2. injection Hsr2 as <-.
  destruct (climate_stages _ _ _ Hsm Hsb) as [Hriv1 HR1].
  destruct (climate_stages _ _ _ Hsm2 Hsb2) as [Hriv2 HR2].
  cbn [reconfigure rivers tiles] in Hriv2, HR2.
  apply _to_dict_spec in Hout as (_ & Hl1 & _). apply _to_dict_spec in Hout2 as (_ & Hl2 & _).
  assert (rivers g2' = rivers g1') as Hriv by congruence.
  split; [exact Hriv|]. split; [by rewrite Hl1, Hl2, Hriv|].
  intros x y t1 Ht1.
  pose proof (tile_at_rel _ _ _ x y HR1) as Hrel1. rewrite Ht1 in Hrel1.
  pose proof (tile_at_rel _ _ _ x y HR2) as Hrel2.
  destruct (tile_at (tiles sr) x y) as [t0|]; [|done].
  destruct (tile_at (tiles g2') x y) as [t2|]; [|done].
  exists t2. split; [done|]. unfold climate_only in *. rewrite Hrel2, Hrel1. by destruct t0.
Qed.
End Insensitive.

Import TerrainGenerator.

Lemma relief_ignores_rivers_and_wind_witness :
  exists g2 out1 g1',
    TerrainGenerator_init (RT := CPython) 50 50 42 "continent" 5 0.5 2.0 100.0 8 "west"
      = Ok default_gen /\
    TerrainGenerator_init (RT := CPython) 50 50 42 "continent" 5 0.5 2.0 100.0 3 "east"
      = Ok g2 /\
    generate default_gen = Ok (out1, g1') /\ 0 <= 3 /\
    exists out2 g2', generate g2 = Ok (out2, g2') /\
      forall x y t1, tile_at (tiles g1') x y = Ok t1 ->
        exists t2, tile_at (tiles g2') x y = Ok t2 /\
          Tile.elevation t2 = Tile.elevation t1 /\ Tile.water t2 = Tile.water t1.
Proof.
  assert (0 <= 3) as Hk by lia.
  pose proof (eq_refl : TerrainGenerator_init (RT := CPython) 50 50 42 "continent" 5 0.5 2.0
                          100.0 3 "east" = Ok (reconfigure 3 "east" default_gen)) as H2.
  destruct default_run as (se & out & self' & _ & _ & Hgen & _).
  exists (reconfigure 3 "east" default_gen), out, self'.
  split; [exact default_gen_init|]. split; [exact H2|]. split; [exact Hgen|].
  split; [exact Hk|].
  exact (relief_ignores_rivers_and_wind 50 50 42 "continent" 5 0.5 2.0 100.0 8 3 "west" "east"
           default_gen _ out self' default_gen_init H2 Hgen Hk).
Defined.

Lemma wind_changes_climate_only_witness :
  exists g2 out1 g1',
    TerrainGenerator_init (RT := CPython) 50 50 42 "continent" 5 0.5 2.0 100.0 8 "west"
      = Ok default_gen /\
    TerrainGenerator_init (RT := CPython) 50 50 42 "continent" 5 0.5 2.0 100.0 8 "north"
      = Ok g2 /\
    generate default_gen = Ok (out1, g1') /\
    exists out2 g2', generate g2 = Ok (out2, g2') /\
      rivers g2' = rivers g1' /\ t_rivers out2 = t_rivers out1 /\
      forall x y t1, tile_at (tiles g1') x y = Ok t1 ->
        exists t2, tile_at (tiles g2') x y = Ok t2 /\ climate_only t1 t2.
Proof.
  pose proof (eq_refl : TerrainGenerator_init (RT := CPython) 50 50 42 "continent" 5 0.5 2.0
                          100.0 8 "north" = Ok (reconfigure 8 "north" default_gen)) as H2.
  destruct default_run as (se & out & self' & _ & _ & Hgen & _).
  exists (reconfigure 8 "north" default_gen), out, self'.
  split; [exact default_gen_init|]. split; [exact H2|]. split; [exact Hgen|].
  exact (wind_changes_climate_only 50 50 42 "continent" 5 0.5 2.0 100.0 8 "west" "north"
           default_gen _ out self' default_gen_init H2 Hgen).
Defined.

(** ** A second run on the same object *)

Section SecondRun.
Context `{RT : PyRuntime}.
Import TerrainGenerator.
#[local] Abbreviation Gen := TerrainGenerator.t.

Lemma _apply_mode_shaping_set_tiles (ts : grid) (s : Gen) (x y : Z) (e : float) :
  _apply_mode_shaping (set_tiles ts s) x y e =
  r ← _apply_mode_shaping s x y e; Ok (r.1, set_tiles ts r.2).
Proof.
  unfold _apply_mode_shaping. cbn [set_tiles mode width height rng].
  destruct (String.eqb (mode s) "continent").
  { destruct (py_div (float_of_Z x - _) _) as [dx|]; cbn [mbind Result_bind]; [|reflexivity].
    destruct (py_div _ _) as [dy|]; reflexivity. }
  destruct (String.eqb (mode s) "archipelago").
  { destruct (rng_randint _ _ _) as [r rng1].
    destruct (for_each _ _ _) as [[mi rng2]|]; reflexivity. }
  destruct (String.eqb (mode s) "highlands"); reflexivity.
Qed.

Lemma elevation_tile_set_tiles (ts : grid) (s : Gen) (y x : Z) :
  elevation_tile (set_tiles ts s) y x =
  r ← elevation_tile s y x; Ok (r.1, set_tiles ts r.2).
Proof.
  unfold elevation_tile.
  change (blended_elevation (set_tiles ts s) x y) with (blended_elevation s x y).
  destruct (blended_elevation s x y) as [e|]; [|done]. cbn [mbind Result_bind].
  rewrite _apply_mode_shaping_set_tiles.
  by destruct (_apply_mode_shaping s x y e) as [[e' s']|].
Qed.

(** The elevation stage reads nothing of the grid the object holds. *)
Lemma _generate_elevation_set_tiles (ts : grid) (s : Gen) :
  _generate_elevation (set_tiles ts s) = _generate_elevation s.
Proof.
  unfold _generate_elevation. cbn [set_tiles width height].
  rewrite (map_st_commute (set_tiles ts) _
             (fun y s0 => map_st (fun x s1 => elevation_tile s1 y x) (range (width s)) s0)).
  - by destruct (map_st _ _ s) as [[rows s']|].
  - intros y s0 _. apply map_st_commute. intros x s1 _. apply elevation_tile_set_tiles.
Qed.

Lemma state_but_tiles (s s' : Gen) :
  same_config s s' -> rng s' = rng s -> rivers s' = rivers s ->
  s' = set_tiles (tiles s') s.
Proof.
  destruct s, s'. unfold same_config, set_tiles. simpl.
  intros (-> & -> & -> & -> & -> & -> & -> & -> & -> & -> & ->) -> ->. reflexivity.
Qed.

(** The stages of a run that has returned. *)
Lemma generate_stages (self : Gen) (out : terrain) (g : Gen) :
  generate self = Ok (out, g) ->
  exists se sr, _generate_elevation self = Ok se /\ _generate_rivers se = Ok sr /\
    g = set_tiles (tiles g) sr /\ grid_rel climate_only (tiles sr) (tiles g) /\
    t_rivers out = map river_dict_of (rivers g).
Proof.
  intros H. apply generate_Ok in H as (se & sr & sm & Hse & Hsr & Hsm & Hsb & Hout).
  destruct (climate_stages _ _ _ Hsm Hsb) as [Hriv HR].
  pose proof (_calculate_moisture_spec _ _ Hsm) as (Hc2 & Hrng2 & _).
  pose proof (_assign_biomes_spec _ _ Hsb) as (Hc3 & Hrng3 & _).
  apply _to_dict_spec in Hout as (_ & Hl & _).
  exists se, sr. split_and!; [exact Hse|exact Hsr| |exact HR|exact Hl].
  apply state_but_tiles; [by etrans|congruence|exact Hriv].
Qed.

Lemma generate_of_stages (self se sr : Gen) :
  _generate_elevation self = Ok se -> _generate_rivers se = Ok sr ->
  exists out g, generate self = Ok (out, g) /\
    g = set_tiles (tiles g) sr /\ grid_rel climate_only (tiles sr) (tiles g) /\
    t_rivers out = map river_dict_of (rivers g).
Proof.
  intros Hse Hsr.
  destruct (generate_total self se Hse) as (out & g & Hgen).
  { by apply _generate_rivers_spec in Hsr as (Hk & _). }
  exists out, g. split; [exact Hgen|].
  destruct (generate_stages _ _ _ Hgen) as (se' & sr' & Hse' & Hsr' & Hg & HR & Hl).
  rewrite Hse in Hse'. injection Hse' as <-.
  rewrite Hsr in Hsr'. injection Hsr' as <-. done.
Qed.

(** Two consecutive runs, from the stages of each. *)
Lemma rerun_of_stages (self se sr se2 sr2 : Gen) :
  _generate_elevation self = Ok se -> _generate_rivers se = Ok sr ->
  _generate_elevation sr = Ok se2 -> _generate_rivers se2 = Ok sr2 ->
  exists out1 g1 out2 g2,
    generate self = Ok (out1, g1) /\ generate g1 = Ok (out2, g2) /\
    (rivers g1 = rivers sr /\ grid_rel climate_only (tiles sr) (tiles g1) /\
     t_rivers out1 = map river_dict_of (rivers g1)) /\
    (rivers g2 = rivers sr2 /\ grid_rel climate_only (tiles sr2) (tiles g2) /\
     t_rivers out2 = map river_dict_of (rivers g2)) /\
    river_count g1 = river_count sr2 /\ eligible g2 = eligible sr2.
Proof.
  intros Hse Hsr Hse2 Hsr2.
  destruct (generate_of_stages _ _ _ Hse Hsr) as (out1 & g1 & Hgen1 & Hg1 & HR1 & Hl1).
  assert (_generate_elevation g1 = Ok se2) as Hse2'.
  { rewrite Hg1, _generate_elevation_set_tiles. exact Hse2. }
  destruct (generate_of_stages _ _ _ Hse2' Hsr2) as (out2 & g2 & Hgen2 & Hg2 & HR2 & Hl2).
  exists out1, g1, out2, g2.
  split; [exact Hgen1|]. split; [exact Hgen2|].
  split; [split_and!; [by rewrite Hg1|exact HR1|exact Hl1]|].
  split; [split_and!; [by rewrite Hg2|exact HR2|exact Hl2]|].
  split.
  - rewrite Hg1. cbn [set_tiles river_count].
    pose proof (_generate_elevation_spec _ _ Hse2) as (Hc & _).
    pose proof (_generate_rivers_spec _ _ Hsr2) as (_ & Hc' & _).
    transitivity (river_count se2); [apply Hc|apply Hc'].
  - symmetry. apply eligible_terrain.
    + rewrite Hg2. apply same_config_set_tiles.
    + eapply grid_rel_impl; [|exact HR2]. intros t t' ->. by destruct t.
Qed.

(** A tile of the final grid has the river flag the river stage left. *)
Lemma climate_only_river (ts ts' : grid) (x y : Z) (t' : Tile.t) :
  grid_rel climate_only ts ts' -> tile_at ts' x y = Ok t' ->
  exists t, tile_at ts x y = Ok t /\ Tile.river t = Tile.river t'.
Proof.
  intros HR Ht'. pose proof (tile_at_rel _ _ _ x y HR) as Hrel. rewrite Ht' in Hrel.
  destruct (tile_at ts x y) as [t|]; [|done].
  exists t. split; [done|]. rewrite Hrel. by destruct t.
Qed.

(** The rivers of a first run are flagged at their sources, which are
    tiles of the map. *)
Lemma first_run_source_flagged (self : Gen) (out : terrain) (g : Gen) (r : River.t) :
  rivers self = [] -> generate self = Ok (out, g) -> r ∈ rivers g ->
  in_bounds g (River.source r) = true /\
  exists t, tile_at (tiles g) (River.source r).1 (River.source r).2 = Ok t /\
            Tile.river t = true.
Proof.
  intros Hfresh H Hr. apply generate_Ok in H as (se & sr & sm & Hse & Hsr & Hsm & Hsb & _).
  destruct (later_stages_frozen _ _ _ _ Hsr Hsm Hsb) as (Hc & Hriv & HR1 & HR2).
  pose proof (_generate_elevation_spec _ _ Hse) as (Hc0 & Hriv0 & _).
  pose proof (_generate_rivers_spec _ _ Hsr) as (_ & _ & _ & Hrivers & Hvalid).
  rewrite Hriv0, Hfresh in Hrivers. cbn [app] in Hrivers.
  rewrite Hriv, Hrivers in Hr.
  pose proof (river_valid_frozen _ _ _ HR2 (Hvalid r Hr)) as Hv.
  apply list_elem_of_omap in Hr as ([i c] & Hitem & Hkept).
  apply kept_river_fields in Hkept as [_ Hsrc]. cbn [snd] in Hsrc.
  split.
  - rewrite Hsrc. rewrite <- (in_bounds_config se g _ Hc).
    apply elem_of_all_coords.
    apply elem_of_enumerate, selected_sources_eligible in Hitem.
    unfold eligible in Hitem. apply list_elem_of_In, filter_In in Hitem as [Hin _].
    by apply list_elem_of_In.
  - apply (rv_marked _ _ Hv). apply head_Some_elem_of. apply (rv_source _ _ Hv).
Qed.

(** After a run that adds no river to an object, no tile is flagged. *)
Lemma no_new_river_no_flag (self : Gen) (out : terrain) (g : Gen) (x y : Z) (t : Tile.t) :
  generate self = Ok (out, g) -> rivers g = rivers self ->
  0 <= x -> 0 <= y -> tile_at (tiles g) x y = Ok t -> Tile.river t = false.
Proof.
  intros H Hsame Hx Hy Ht.
  destruct (generate_rivers_added _ _ _ H) as (se0 & Hse0 & _ & _ & Hadd & _).
  destruct (generate_stages _ _ _ H) as (se & sr & Hse & Hsr & _ & HR & _).
  rewrite Hse in Hse0. injection Hse0 as Heq. subst se0.
  assert (omap (kept_river se) (enumerate (selected_sources se)) = []) as Hnew.
  { rewrite Hsame in Hadd. apply (f_equal length) in Hadd. rewrite length_app in Hadd.
    apply length_zero_iff_nil. lia. }
  destruct (climate_only_river _ _ _ _ _ HR Ht) as (t1 & Ht1 & <-).
  destruct (Tile.river t1) eqn:Hflag; [|done].
  destruct (_generate_rivers_marks _ _ _ _ _ Hsr Hx Hy Ht1 Hflag)
    as [(r & Hr & _)|(t0 & Ht0 & Hflag0)].
  - rewrite Hnew in Hr. by apply elem_of_nil in Hr.
  - pose proof (_generate_elevation_spec _ _ Hse) as (_ & _ & _ & Hpt & _).
    destruct (Hpt x y t0 Ht0 Hx Hy) as [_ _ _ _ _ _ Hno]. congruence.
Qed.

(** C1 (code defect). [generate] is not repeatable on one object: when a
    first run on a generator that holds no river yet records at least one
    river, a second run on the same generator returns another artifact,
    with another river list or another list of tile entries. *)
Theorem repeated_generate_differs (self : Gen) (out1 : terrain) (g1 : Gen)
    (out2 : terrain) (g2 : Gen) :
  rivers self = [] ->
  generate self = Ok (out1, g1) ->
  rivers g1 <> [] ->
  generate g1 = Ok (out2, g2) ->
  t_rivers out1 <> t_rivers out2 \/ t_tiles out1 <> t_tiles out2.
Proof.
  intros Hfresh H1 Hkept H2.
  destruct (generate_rivers_added _ _ _ H1) as (se1 & _ & _ & _ & _ & Hl1).
  destruct (generate_rivers_added _ _ _ H2) as (se2 & _ & _ & _ & Hadd & Hl2).
  destruct (omap (kept_river se2) (enumerate (selected_sources se2))) as [|r' new].
  - rewrite app_nil_r in Hadd. rename Hadd into Hsame. right. intros Heq.
    destruct (rivers g1) as [|r rs] eqn:Hrs; [done|].
    destruct (first_run_source_flagged self out1 g1 r Hfresh H1) as (Hb & t1 & Ht1 & Hflag1).
    { rewrite Hrs. by left. }
    pose proof (artifact_layout_facts _ _ _ H1) as (_ & _ & _ & F1).
    pose proof (artifact_layout_facts _ _ _ H2) as (_ & _ & Hc & F2).
    assert (all_coords g2 = all_coords g1) as Hcoords.
    { unfold all_coords. destruct Hc as (-> & -> & _). done. }
    rewrite Hcoords in F2. rewrite <- Heq in F2.
    apply elem_of_all_coords, list_elem_of_lookup in Hb as [k Hk].
    destruct (Forall2_lookup_l _ _ _ _ _ F1 Hk) as (td & Htd & t & Ht & _ & ->).
    destruct (Forall2_lookup_l _ _ _ _ _ F2 Hk) as (td' & Htd' & t' & Ht' & _ & ->).
    assert (td_river (tile_dict_of t) = td_river (tile_dict_of t')) as Hdict by congruence.
    rewrite Ht1 in Ht. injection Ht as <-.
    assert (Tile.river t' = false) as Hflag2.
    { apply (no_new_river_no_flag g1 out2 g2 (River.source r).1 (River.source r).2);
        [exact H2|by rewrite Hsame, Hrs| | |exact Ht'].
      - apply list_elem_of_lookup_2, elem_of_all_coords, in_bounds_spec in Hk. lia.
      - apply list_elem_of_lookup_2, elem_of_all_coords, in_bounds_spec in Hk. lia. }
    cbn in Hdict. congruence.
  - left. rewrite Hl1, Hl2. intros Heq. apply (f_equal length) in Heq.
    rewrite !length_map, Hadd, length_app in Heq. simpl in Heq. lia.
Qed.
End SecondRun.

Import TerrainGenerator.

(** ** Two runs of [TerrainGenerator(50, 50, seed=42)] *)

Lemma two_runs_stages {A} (self : TerrainGenerator.t (RT := CPython))
    (k : TerrainGenerator.t -> TerrainGenerator.t -> Result A) :
  ok_b (two_runs self k) = true ->
  exists se sr se2 sr2,
    _generate_elevation self = Ok se /\ _generate_rivers se = Ok sr /\
    _generate_elevation sr = Ok se2 /\ _generate_rivers se2 = Ok sr2 /\
    ok_b (k sr sr2) = true.
Proof.
  unfold two_runs. intros H.
  apply ok_b_bind in H as (se & Hse & H). apply ok_b_bind in H as (sr & Hsr & H).
  apply ok_b_bind in H as (se2 & Hse2 & H). apply ok_b_bind in H as (sr2 & Hsr2 & H).
  by exists se, sr, se2, sr2.
Qed.

Lemma checked_rerun (self : TerrainGenerator.t (RT := CPython)) :
  ok_b (two_runs self rerun_check) = true ->
  exists out1 g1 out2 g2,
    generate self = Ok (out1, g1) /\ generate g1 = Ok (out2, g2) /\
    rivers g1 <> [] /\
    (length (t_rivers out1) < length (t_rivers out2))%nat /\
    Z.min (river_count g1) (Z.of_nat (length (eligible g2)))
      < Z.of_nat (length (rivers g2)) /\
    t_rivers out2 = map river_dict_of (rivers g2) /\
    exists r c t, r ∈ rivers g2 /\ c ∈ River.path r /\
      tile_at (tiles g2) c.1 c.2 = Ok t /\ Tile.river t = false.
Proof.
  intros H. apply two_runs_stages in H as (se & sr & se2 & sr2 & Hse & Hsr & Hse2 & Hsr2 & Hk).
  unfold rerun_check in Hk. apply guard_true in Hk.
  apply andb_true_iff in Hk as [Hk Hex]. apply andb_true_iff in Hk as [Hk Hcount].
  apply andb_true_iff in Hk as [Hkept Hmore].
  apply Z.ltb_lt in Hkept, Hmore, Hcount.
  destruct (rerun_of_stages _ _ _ _ _ Hse Hsr Hse2 Hsr2)
    as (out1 & g1 & out2 & g2 & Hgen1 & Hgen2 & (Hr1 & HR1 & Hl1) & (Hr2 & HR2 & Hl2) & Hrc & Hel).
  exists out1, g1, out2, g2.
  split; [exact Hgen1|]. split; [exact Hgen2|]. split_and!.
  - rewrite Hr1. intros Hnil. rewrite Hnil in Hkept. simpl in Hkept. lia.
  - rewrite Hl1, Hl2, !length_map, Hr1, Hr2. lia.
  - rewrite Hrc, Hr2. lia.
  - exact Hl2.
  - apply existsb_exists in Hex as (r & Hr & Hex).
    apply existsb_exists in Hex as (c & Hc & Hun).
    unfold unflagged in Hun.
    destruct (tile_at (tiles sr2) c.1 c.2) as [t|] eqn:Ht; [|done].
    pose proof (tile_at_rel _ _ _ c.1 c.2 HR2) as Hrel. rewrite Ht in Hrel.
    destruct (tile_at (tiles g2) c.1 c.2) as [t'|] eqn:Ht'; [|done].
    exists r, c, t'. rewrite Hr2.
    split; [by apply list_elem_of_In|]. split; [by apply list_elem_of_In|].
    split; [done|]. rewrite Hrel. destruct t. simpl in *. by apply negb_true_iff.
Qed.

Lemma default_rerun_ok : ok_b (two_runs default_gen rerun_check) = true.
Proof. vm_compute. reflexivity. Qed.

Lemma default_rerun :
  exists out1 g1 out2 g2,
    generate default_gen = Ok (out1, g1) /\ generate g1 = Ok (out2, g2) /\
    rivers g1 <> [] /\
    (length (t_rivers out1) < length (t_rivers out2))%nat /\
    Z.min (river_count g1) (Z.of_nat (length (eligible g2)))
      < Z.of_nat (length (rivers g2)) /\
    t_rivers out2 = map river_dict_of (rivers g2) /\
    exists r c t, r ∈ rivers g2 /\ c ∈ River.path r /\
      tile_at (tiles g2) c.1 c.2 = Ok t /\ Tile.river t = false.
Proof. exact (checked_rerun default_gen default_rerun_ok). Qed.

(** C3 (code defect). After [g = TerrainGenerator(50, 50, seed=42)],
    [g.generate()] and [g.generate()] again, the river list of the second
    output is longer than min(river_count, number of eligible tiles), and
    it holds a river with a tile on its path whose river flag is not
    set. *)
Theorem second_run_rivers_invalid :
  exists out1 g1 out2 g2,
    TerrainGenerator_init (RT := CPython) 50 50 42 "continent" 5 0.5 2.0 100.0 8 "west"
      = Ok default_gen /\
    generate default_gen = Ok (out1, g1) /\ generate g1 = Ok (out2, g2) /\
    Z.min (river_count g1) (Z.of_nat (length (eligible g2)))
      < Z.of_nat (length (rivers g2)) /\
    t_rivers out2 = map river_dict_of (rivers g2) /\
    exists r c t, r ∈ rivers g2 /\ c ∈ River.path r /\
      tile_at (tiles g2) c.1 c.2 = Ok t /\ Tile.river t = false.
Proof.
  destruct default_rerun as (out1 & g1 & out2 & g2 & Hgen1 & Hgen2 & _ & _ & Hcount & Hl & Hbad).
  exists out1, g1, out2, g2.
  split; [exact default_gen_init|]. split; [exact Hgen1|]. split; [exact Hgen2|].
  split; [exact Hcount|]. split; [exact Hl|]. exact Hbad.
Qed.

Lemma repeated_generate_differs_witness :
  exists out1 g1 out2 g2,
    rivers default_gen = [] /\ generate default_gen = Ok (out1, g1) /\
    rivers g1 <> [] /\ generate g1 = Ok (out2, g2) /\
    (t_rivers out1 <> t_rivers out2 \/ t_tiles out1 <> t_tiles out2) /\
    (length (t_rivers out1) < length (t_rivers out2))%nat.
Proof.
  destruct default_rerun as (out1 & g1 & out2 & g2 & Hgen1 & Hgen2 & Hne & Hlen & _).
  exists out1, g1, out2, g2.
  split; [reflexivity|]. split; [exact Hgen1|]. split; [exact Hne|]. split; [exact Hgen2|].
  split; [|exact Hlen].
  exact (repeated_generate_differs default_gen out1 g1 out2 g2 eq_refl Hgen1 Hne Hgen2).
Defined.

Lemma generate_keeps_earlier_rivers_witness :
  exists out1 g1 out2 g2,
    generate default_gen = Ok (out1, g1) /\ rivers g1 <> [] /\
    generate g1 = Ok (out2, g2) /\
    exists new, rivers g2 = rivers g1 ++ new /\
      t_rivers out2 = map river_dict_of (rivers g1) ++ map river_dict_of new.
Proof.
  destruct default_rerun as (out1 & g1 & out2 & g2 & Hgen1 & Hgen2 & Hne & _).
  exists out1, g1, out2, g2.
  split; [exact Hgen1|]. split; [exact Hne|]. split; [exact Hgen2|].
  exact (generate_keeps_earlier_rivers g1 out2 g2 Hgen2).
Defined.

Lemma water_tiles_have_sea_biomes_witness :
  exists out self' t,
    generate highlands_gen = Ok (out, self') /\
    tile_at (tiles self') 3 0 = Ok t /\ Tile.water t = true /\
    Tile.biome t ∈ ["deep_ocean"; "ocean"; "beach"].
Proof.
  assert (0 <= 3 < width highlands_gen) as Hx by (cbn; lia).
  assert (0 <= 0 < height highlands_gen) as Hy by (cbn; lia).
  destruct highlands_run as (se & out & self' & Hse & Hk & Hgen & Hc & HR).
  unfold highlands_check in Hk.
  apply ok_b_bind in Hk as (t0 & Ht0 & Hw). apply guard_true in Hw.
  destruct (frozen_tile_at _ _ 3 0 t0 HR Ht0) as (t & Ht & _ & Hwt).
  rewrite Hw in Hwt.
  exists out, self', t. split; [exact Hgen|]. split; [exact Ht|]. split; [exact Hwt|].
  exact (proj1 (water_tiles_have_sea_biomes highlands_gen out self' 3 0 t Hgen Hx Hy Ht) Hwt).
Defined.

Lemma river_ids_distinct_witness :
  exists out self',
    rivers default_gen = [] /\ generate default_gen = Ok (out, self') /\
    rivers self' <> [] /\
    exists se, _generate_elevation default_gen = Ok se /\
      NoDup (River.id <$> rivers self') /\
      forall r, r ∈ rivers self' ->
        exists i : nat,
          selected_sources se !! i = Some (River.source r) /\
          River.id r = river_id (Z.of_nat i) /\
          river_number (River.id r) = Some (Z.of_nat i).
Proof.
  destruct default_rerun as (out1 & g1 & _ & _ & Hgen1 & _ & Hne & _).
  exists out1, g1. split; [reflexivity|]. split; [exact Hgen1|]. split; [exact Hne|].
  exact (river_ids_distinct default_gen out1 g1 eq_refl Hgen1).
Defined.
